(** * Retrieval, reranking, quality evaluation and context assembly

    A shallow embedding of the retrieval core of the semantic search
    application: [lib/similarity.ts], the reranker module and the context
    helpers of [lib/rag.ts].

    Conventions of the embedding.
    - A JavaScript [number] is a binary64 floating-point value; the model
      carries its exact rational value ([Q]).  Every arithmetic operation
      and every decimal literal of the source is rounded to the nearest
      double, ties to the even mantissa ([fl]).  NaN, the infinities (so
      overflow) and the sign of zero are outside the model.
    - A JavaScript string is the list of its UTF-16 code units, so that
      [length] is the source's [.length].
    - [throw] is an explicit error result.
    - [console.log] calls have no effect on results and are left out. *)

From Stdlib Require Import String Ascii.
From stdpp Require Import base option list gmap.
From Stdlib Require Import ZArith NArith QArith Qround Qabs Qpower Lia Lqa.
From Stdlib Require Import Permutation Sorted.

Set Default Proof Using "Type".
Local Open Scope Q_scope.

(* ===================================================================== *)
(** * JavaScript values *)
(* ===================================================================== *)

Module JS.

Abbreviation number := Q.

(** UTF-16 code units. *)
Abbreviation jsstring := (list N).

(** ** String literals

    Literals are written as UTF-8 text and decoded to code units. *)

Definition cont (b : N) : N := N.land b 63.

Fixpoint utf8 (bytes : list N) : list N :=
  match bytes with
  | [] => []
  | b0 :: rest =>
      if (b0 <? 128)%N then b0 :: utf8 rest
      else if (b0 <? 224)%N then
        match rest with
        | b1 :: rest1 =>
            (N.shiftl (N.land b0 31) 6 + cont b1)%N :: utf8 rest1
        | [] => [b0]
        end
      else if (b0 <? 240)%N then
        match rest with
        | b1 :: b2 :: rest2 =>
            (N.shiftl (N.land b0 15) 12 + N.shiftl (cont b1) 6 + cont b2)%N
              :: utf8 rest2
        | _ => [b0]
        end
      else
        match rest with
        | b1 :: b2 :: b3 :: rest3 =>
            let cp := (N.shiftl (N.land b0 7) 18 + N.shiftl (cont b1) 12
                       + N.shiftl (cont b2) 6 + cont b3)%N in
            let v := (cp - 65536)%N in
            (55296 + N.shiftr v 10)%N :: (56320 + N.land v 1023)%N
              :: utf8 rest3
        | _ => [b0]
        end
  end.

Definition lit (s : String.string) : jsstring :=
  utf8 (List.map N_of_ascii (list_ascii_of_string s)).

Arguments lit s%_string.

Definition streq (a b : jsstring) : bool := bool_decide (a = b).

(** ** Character classes *)

Definition between (lo hi c : N) : bool := ((lo <=? c) && (c <=? hi))%N.

(** [\s] : WhiteSpace and LineTerminator code units. *)
Definition isWhiteSpace (c : N) : bool :=
  between 9 13 c || (c =? 32)%N || (c =? 160)%N || (c =? 5760)%N
  || between 8192 8202 c || (c =? 8232)%N || (c =? 8233)%N
  || (c =? 8239)%N || (c =? 8287)%N || (c =? 12288)%N || (c =? 65279)%N.

Definition isDigit (c : N) : bool := between 48 57 c.
Definition isAsciiUpper (c : N) : bool := between 65 90 c.
Definition isAsciiLower (c : N) : bool := between 97 122 c.

(** [\w] is [[A-Za-z0-9_]]. *)
Definition isWordChar (c : N) : bool :=
  isAsciiUpper c || isAsciiLower c || isDigit c || (c =? 95)%N.

(** [[А-Я]] is U+0410..U+042F, [[а-я]] is U+0430..U+044F, [ё] is U+0451,
    [Ё] is U+0401. *)
Definition isCyrUpper (c : N) : bool := between 1040 1071 c.
Definition isCyrLower (c : N) : bool := between 1072 1103 c.

(** ** Case conversion

    [String.prototype.toLowerCase] converts the code points of the string by
    the Unicode default case conversion: the lower-case mappings of the
    Unicode Character Database (here version 14.0), with the two
    unconditional special cases of [SpecialCasing.txt]: U+0130 becomes
    U+0069 U+0307, and U+03A3 becomes U+03C2 in final position and U+03C3
    elsewhere.

    An entry [(lo, hi, step, lo')] of [lowerTable] maps the code points
    [lo + i * step <= hi] to [lo' + i * step]. *)

Definition lowerTable : list (N * N * N * N) :=
  [
   (65, 90, 1, 97); (192, 214, 1, 224); (216, 222, 1, 248); (256, 302, 2, 257);
   (306, 310, 2, 307); (313, 327, 2, 314); (330, 374, 2, 331); (376, 376, 1, 255);
   (377, 381, 2, 378); (385, 385, 1, 595); (386, 388, 2, 387); (390, 390, 1, 596);
   (391, 391, 1, 392); (393, 394, 1, 598); (395, 395, 1, 396); (398, 398, 1, 477);
   (399, 399, 1, 601); (400, 400, 1, 603); (401, 401, 1, 402); (403, 403, 1, 608);
   (404, 404, 1, 611); (406, 406, 1, 617); (407, 407, 1, 616); (408, 408, 1, 409);
   (412, 412, 1, 623); (413, 413, 1, 626); (415, 415, 1, 629); (416, 420, 2, 417);
   (422, 422, 1, 640); (423, 423, 1, 424); (425, 425, 1, 643); (428, 428, 1, 429);
   (430, 430, 1, 648); (431, 431, 1, 432); (433, 434, 1, 650); (435, 437, 2, 436);
   (439, 439, 1, 658); (440, 440, 1, 441); (444, 444, 1, 445); (452, 452, 1, 454);
   (453, 453, 1, 454); (455, 455, 1, 457); (456, 456, 1, 457); (458, 458, 1, 460);
   (459, 475, 2, 460); (478, 494, 2, 479); (497, 497, 1, 499); (498, 500, 2, 499);
   (502, 502, 1, 405); (503, 503, 1, 447); (504, 542, 2, 505); (544, 544, 1, 414);
   (546, 562, 2, 547); (570, 570, 1, 11365); (571, 571, 1, 572); (573, 573, 1, 410);
   (574, 574, 1, 11366); (577, 577, 1, 578); (579, 579, 1, 384); (580, 580, 1, 649);
   (581, 581, 1, 652); (582, 590, 2, 583); (880, 882, 2, 881); (886, 886, 1, 887);
   (895, 895, 1, 1011); (902, 902, 1, 940); (904, 906, 1, 941); (908, 908, 1, 972);
   (910, 911, 1, 973); (913, 929, 1, 945); (932, 939, 1, 964); (975, 975, 1, 983);
   (984, 1006, 2, 985); (1012, 1012, 1, 952); (1015, 1015, 1, 1016); (1017, 1017, 1, 1010);
   (1018, 1018, 1, 1019); (1021, 1023, 1, 891); (1024, 1039, 1, 1104); (1040, 1071, 1, 1072);
   (1120, 1152, 2, 1121); (1162, 1214, 2, 1163); (1216, 1216, 1, 1231); (1217, 1229, 2, 1218);
   (1232, 1326, 2, 1233); (1329, 1366, 1, 1377); (4256, 4293, 1, 11520); (4295, 4295, 1, 11559);
   (4301, 4301, 1, 11565); (5024, 5103, 1, 43888); (5104, 5109, 1, 5112); (7312, 7354, 1, 4304);
   (7357, 7359, 1, 4349); (7680, 7828, 2, 7681); (7838, 7838, 1, 223); (7840, 7934, 2, 7841);
   (7944, 7951, 1, 7936); (7960, 7965, 1, 7952); (7976, 7983, 1, 7968); (7992, 7999, 1, 7984);
   (8008, 8013, 1, 8000); (8025, 8031, 2, 8017); (8040, 8047, 1, 8032); (8072, 8079, 1, 8064);
   (8088, 8095, 1, 8080); (8104, 8111, 1, 8096); (8120, 8121, 1, 8112); (8122, 8123, 1, 8048);
   (8124, 8124, 1, 8115); (8136, 8139, 1, 8050); (8140, 8140, 1, 8131); (8152, 8153, 1, 8144);
   (8154, 8155, 1, 8054); (8168, 8169, 1, 8160); (8170, 8171, 1, 8058); (8172, 8172, 1, 8165);
   (8184, 8185, 1, 8056); (8186, 8187, 1, 8060); (8188, 8188, 1, 8179); (8486, 8486, 1, 969);
   (8490, 8490, 1, 107); (8491, 8491, 1, 229); (8498, 8498, 1, 8526); (8544, 8559, 1, 8560);
   (8579, 8579, 1, 8580); (9398, 9423, 1, 9424); (11264, 11311, 1, 11312); (11360, 11360, 1, 11361);
   (11362, 11362, 1, 619); (11363, 11363, 1, 7549); (11364, 11364, 1, 637); (11367, 11371, 2, 11368);
   (11373, 11373, 1, 593); (11374, 11374, 1, 625); (11375, 11375, 1, 592); (11376, 11376, 1, 594);
   (11378, 11378, 1, 11379); (11381, 11381, 1, 11382); (11390, 11391, 1, 575); (11392, 11490, 2, 11393);
   (11499, 11501, 2, 11500); (11506, 11506, 1, 11507); (42560, 42604, 2, 42561); (42624, 42650, 2, 42625);
   (42786, 42798, 2, 42787); (42802, 42862, 2, 42803); (42873, 42875, 2, 42874); (42877, 42877, 1, 7545);
   (42878, 42886, 2, 42879); (42891, 42891, 1, 42892); (42893, 42893, 1, 613); (42896, 42898, 2, 42897);
   (42902, 42920, 2, 42903); (42922, 42922, 1, 614); (42923, 42923, 1, 604); (42924, 42924, 1, 609);
   (42925, 42925, 1, 620); (42926, 42926, 1, 618); (42928, 42928, 1, 670); (42929, 42929, 1, 647);
   (42930, 42930, 1, 669); (42931, 42931, 1, 43859); (42932, 42946, 2, 42933); (42948, 42948, 1, 42900);
   (42949, 42949, 1, 642); (42950, 42950, 1, 7566); (42951, 42953, 2, 42952); (42960, 42960, 1, 42961);
   (42966, 42968, 2, 42967); (42997, 42997, 1, 42998); (65313, 65338, 1, 65345); (66560, 66599, 1, 66600);
   (66736, 66771, 1, 66776); (66928, 66938, 1, 66967); (66940, 66954, 1, 66979); (66956, 66962, 1, 66995);
   (66964, 66965, 1, 67003); (68736, 68786, 1, 68800); (71840, 71871, 1, 71872); (93760, 93791, 1, 93792);
   (125184, 125217, 1, 125218)]%N.

Definition casedRanges : list (N * N) :=
  [
   (65, 90); (97, 122); (170, 170); (181, 181); (186, 186); (192, 214);
   (216, 246); (248, 442); (444, 447); (452, 659); (661, 696); (704, 705);
   (736, 740); (837, 837); (880, 883); (886, 887); (890, 893); (895, 895);
   (902, 902); (904, 906); (908, 908); (910, 929); (931, 1013); (1015, 1153);
   (1162, 1327); (1329, 1366); (1376, 1416); (4256, 4293); (4295, 4295); (4301, 4301);
   (4304, 4346); (4349, 4351); (5024, 5109); (5112, 5117); (7296, 7304); (7312, 7354);
   (7357, 7359); (7424, 7615); (7680, 7957); (7960, 7965); (7968, 8005); (8008, 8013);
   (8016, 8023); (8025, 8025); (8027, 8027); (8029, 8029); (8031, 8061); (8064, 8116);
   (8118, 8124); (8126, 8126); (8130, 8132); (8134, 8140); (8144, 8147); (8150, 8155);
   (8160, 8172); (8178, 8180); (8182, 8188); (8305, 8305); (8319, 8319); (8336, 8348);
   (8450, 8450); (8455, 8455); (8458, 8467); (8469, 8469); (8473, 8477); (8484, 8484);
   (8486, 8486); (8488, 8488); (8490, 8493); (8495, 8500); (8505, 8505); (8508, 8511);
   (8517, 8521); (8526, 8526); (8544, 8575); (8579, 8580); (9398, 9449); (11264, 11492);
   (11499, 11502); (11506, 11507); (11520, 11557); (11559, 11559); (11565, 11565); (42560, 42605);
   (42624, 42653); (42786, 42887); (42891, 42894); (42896, 42954); (42960, 42961); (42963, 42963);
   (42965, 42969); (42997, 42998); (43000, 43002); (43824, 43866); (43868, 43880); (43888, 43967);
   (64256, 64262); (64275, 64279); (65313, 65338); (65345, 65370); (66560, 66639); (66736, 66771);
   (66776, 66811); (66928, 66938); (66940, 66954); (66956, 66962); (66964, 66965); (66967, 66977);
   (66979, 66993); (66995, 67001); (67003, 67004); (67456, 67456); (67459, 67461); (67463, 67504);
   (67506, 67514); (68736, 68786); (68800, 68850); (71840, 71903); (93760, 93823); (119808, 119892);
   (119894, 119964); (119966, 119967); (119970, 119970); (119973, 119974); (119977, 119980); (119982, 119993);
   (119995, 119995); (119997, 120003); (120005, 120069); (120071, 120074); (120077, 120084); (120086, 120092);
   (120094, 120121); (120123, 120126); (120128, 120132); (120134, 120134); (120138, 120144); (120146, 120485);
   (120488, 120512); (120514, 120538); (120540, 120570); (120572, 120596); (120598, 120628); (120630, 120654);
   (120656, 120686); (120688, 120712); (120714, 120744); (120746, 120770); (120772, 120779); (122624, 122633);
   (122635, 122654); (125184, 125251); (127280, 127305); (127312, 127337); (127344, 127369)]%N.

Definition caseIgnorableRanges : list (N * N) :=
  [
   (39, 39); (46, 46); (58, 58); (94, 94); (96, 96); (168, 168);
   (173, 173); (175, 175); (180, 180); (183, 184); (688, 879); (884, 885);
   (890, 890); (900, 901); (903, 903); (1155, 1161); (1369, 1369); (1375, 1375);
   (1425, 1469); (1471, 1471); (1473, 1474); (1476, 1477); (1479, 1479); (1524, 1524);
   (1536, 1541); (1552, 1562); (1564, 1564); (1600, 1600); (1611, 1631); (1648, 1648);
   (1750, 1757); (1759, 1768); (1770, 1773); (1807, 1807); (1809, 1809); (1840, 1866);
   (1958, 1968); (2027, 2037); (2042, 2042); (2045, 2045); (2070, 2093); (2137, 2139);
   (2184, 2184); (2192, 2193); (2200, 2207); (2249, 2306); (2362, 2362); (2364, 2364);
   (2369, 2376); (2381, 2381); (2385, 2391); (2402, 2403); (2417, 2417); (2433, 2433);
   (2492, 2492); (2497, 2500); (2509, 2509); (2530, 2531); (2558, 2558); (2561, 2562);
   (2620, 2620); (2625, 2626); (2631, 2632); (2635, 2637); (2641, 2641); (2672, 2673);
   (2677, 2677); (2689, 2690); (2748, 2748); (2753, 2757); (2759, 2760); (2765, 2765);
   (2786, 2787); (2810, 2815); (2817, 2817); (2876, 2876); (2879, 2879); (2881, 2884);
   (2893, 2893); (2901, 2902); (2914, 2915); (2946, 2946); (3008, 3008); (3021, 3021);
   (3072, 3072); (3076, 3076); (3132, 3132); (3134, 3136); (3142, 3144); (3146, 3149);
   (3157, 3158); (3170, 3171); (3201, 3201); (3260, 3260); (3263, 3263); (3270, 3270);
   (3276, 3277); (3298, 3299); (3328, 3329); (3387, 3388); (3393, 3396); (3405, 3405);
   (3426, 3427); (3457, 3457); (3530, 3530); (3538, 3540); (3542, 3542); (3633, 3633);
   (3636, 3642); (3654, 3662); (3761, 3761); (3764, 3772); (3782, 3782); (3784, 3789);
   (3864, 3865); (3893, 3893); (3895, 3895); (3897, 3897); (3953, 3966); (3968, 3972);
   (3974, 3975); (3981, 3991); (3993, 4028); (4038, 4038); (4141, 4144); (4146, 4151);
   (4153, 4154); (4157, 4158); (4184, 4185); (4190, 4192); (4209, 4212); (4226, 4226);
   (4229, 4230); (4237, 4237); (4253, 4253); (4348, 4348); (4957, 4959); (5906, 5908);
   (5938, 5939); (5970, 5971); (6002, 6003); (6068, 6069); (6071, 6077); (6086, 6086);
   (6089, 6099); (6103, 6103); (6109, 6109); (6155, 6159); (6211, 6211); (6277, 6278);
   (6313, 6313); (6432, 6434); (6439, 6440); (6450, 6450); (6457, 6459); (6679, 6680);
   (6683, 6683); (6742, 6742); (6744, 6750); (6752, 6752); (6754, 6754); (6757, 6764);
   (6771, 6780); (6783, 6783); (6823, 6823); (6832, 6862); (6912, 6915); (6964, 6964);
   (6966, 6970); (6972, 6972); (6978, 6978); (7019, 7027); (7040, 7041); (7074, 7077);
   (7080, 7081); (7083, 7085); (7142, 7142); (7144, 7145); (7149, 7149); (7151, 7153);
   (7212, 7219); (7222, 7223); (7288, 7293); (7376, 7378); (7380, 7392); (7394, 7400);
   (7405, 7405); (7412, 7412); (7416, 7417); (7468, 7530); (7544, 7544); (7579, 7679);
   (8125, 8125); (8127, 8129); (8141, 8143); (8157, 8159); (8173, 8175); (8189, 8190);
   (8203, 8207); (8216, 8217); (8228, 8228); (8231, 8231); (8234, 8238); (8288, 8292);
   (8294, 8303); (8305, 8305); (8319, 8319); (8336, 8348); (8400, 8432); (11388, 11389);
   (11503, 11505); (11631, 11631); (11647, 11647); (11744, 11775); (11823, 11823); (12293, 12293);
   (12330, 12333); (12337, 12341); (12347, 12347); (12441, 12446); (12540, 12542); (40981, 40981);
   (42232, 42237); (42508, 42508); (42607, 42610); (42612, 42621); (42623, 42623); (42652, 42655);
   (42736, 42737); (42752, 42785); (42864, 42864); (42888, 42890); (42994, 42996); (43000, 43001);
   (43010, 43010); (43014, 43014); (43019, 43019); (43045, 43046); (43052, 43052); (43204, 43205);
   (43232, 43249); (43263, 43263); (43302, 43309); (43335, 43345); (43392, 43394); (43443, 43443);
   (43446, 43449); (43452, 43453); (43471, 43471); (43493, 43494); (43561, 43566); (43569, 43570);
   (43573, 43574); (43587, 43587); (43596, 43596); (43632, 43632); (43644, 43644); (43696, 43696);
   (43698, 43700); (43703, 43704); (43710, 43711); (43713, 43713); (43741, 43741); (43756, 43757);
   (43763, 43764); (43766, 43766); (43867, 43871); (43881, 43883); (44005, 44005); (44008, 44008);
   (44013, 44013); (64286, 64286); (64434, 64450); (65024, 65039); (65043, 65043); (65056, 65071);
   (65106, 65106); (65109, 65109); (65279, 65279); (65287, 65287); (65294, 65294); (65306, 65306);
   (65342, 65342); (65344, 65344); (65392, 65392); (65438, 65439); (65507, 65507); (65529, 65531);
   (66045, 66045); (66272, 66272); (66422, 66426); (67456, 67461); (67463, 67504); (67506, 67514);
   (68097, 68099); (68101, 68102); (68108, 68111); (68152, 68154); (68159, 68159); (68325, 68326);
   (68900, 68903); (69291, 69292); (69446, 69456); (69506, 69509); (69633, 69633); (69688, 69702);
   (69744, 69744); (69747, 69748); (69759, 69761); (69811, 69814); (69817, 69818); (69821, 69821);
   (69826, 69826); (69837, 69837); (69888, 69890); (69927, 69931); (69933, 69940); (70003, 70003);
   (70016, 70017); (70070, 70078); (70089, 70092); (70095, 70095); (70191, 70193); (70196, 70196);
   (70198, 70199); (70206, 70206); (70367, 70367); (70371, 70378); (70400, 70401); (70459, 70460);
   (70464, 70464); (70502, 70508); (70512, 70516); (70712, 70719); (70722, 70724); (70726, 70726);
   (70750, 70750); (70835, 70840); (70842, 70842); (70847, 70848); (70850, 70851); (71090, 71093);
   (71100, 71101); (71103, 71104); (71132, 71133); (71219, 71226); (71229, 71229); (71231, 71232);
   (71339, 71339); (71341, 71341); (71344, 71349); (71351, 71351); (71453, 71455); (71458, 71461);
   (71463, 71467); (71727, 71735); (71737, 71738); (71995, 71996); (71998, 71998); (72003, 72003);
   (72148, 72151); (72154, 72155); (72160, 72160); (72193, 72202); (72243, 72248); (72251, 72254);
   (72263, 72263); (72273, 72278); (72281, 72283); (72330, 72342); (72344, 72345); (72752, 72758);
   (72760, 72765); (72767, 72767); (72850, 72871); (72874, 72880); (72882, 72883); (72885, 72886);
   (73009, 73014); (73018, 73018); (73020, 73021); (73023, 73029); (73031, 73031); (73104, 73105);
   (73109, 73109); (73111, 73111); (73459, 73460); (78896, 78904); (92912, 92916); (92976, 92982);
   (92992, 92995); (94031, 94031); (94095, 94111); (94176, 94177); (94179, 94180); (110576, 110579);
   (110581, 110587); (110589, 110590); (113821, 113822); (113824, 113827); (118528, 118573); (118576, 118598);
   (119143, 119145); (119155, 119170); (119173, 119179); (119210, 119213); (119362, 119364); (121344, 121398);
   (121403, 121452); (121461, 121461); (121476, 121476); (121499, 121503); (121505, 121519); (122880, 122886);
   (122888, 122904); (122907, 122913); (122915, 122916); (122918, 122922); (123184, 123197); (123566, 123566);
   (123628, 123631); (125136, 125142); (125252, 125259); (127995, 127999); (917505, 917505); (917536, 917631);
   (917760, 917999)]%N.

Definition isHighSurrogate (c : N) : bool := between 55296 56319 c.
Definition isLowSurrogate (c : N) : bool := between 56320 57343 c.

(** The code points of a string: a surrogate pair is one code point, any
    other code unit stands for itself. *)
Fixpoint codePoints (s : jsstring) : list N :=
  match s with
  | [] => []
  | c :: s' =>
      match s' with
      | d :: s'' =>
          if isHighSurrogate c && isLowSurrogate d
          then (65536 + (c - 55296) * 1024 + (d - 56320))%N :: codePoints s''
          else c :: codePoints s'
      | [] => [c]
      end
  end.

Definition codeUnits (cp : N) : jsstring :=
  if (cp <? 65536)%N then [cp]
  else [(55296 + (cp - 65536) / 1024)%N; (56320 + (cp - 65536) mod 1024)%N].

Definition inRanges (rs : list (N * N)) (cp : N) : bool :=
  existsb (fun r => between (fst r) (snd r) cp) rs.

Definition lowerEntry (cp : N) (e : N * N * N * N) : bool :=
  let '(lo, hi, step, _) := e in
  between lo hi cp && ((cp - lo) mod step =? 0)%N.

Definition lowerCP (cp : N) : N :=
  match List.find (lowerEntry cp) lowerTable with
  | Some (lo, _, _, lo') => (lo' + (cp - lo))%N
  | None => cp
  end.

(** The next code point that is not case-ignorable is a cased letter. *)
Fixpoint casedNext (cps : list N) : bool :=
  match cps with
  | [] => false
  | c :: rest =>
      if inRanges caseIgnorableRanges c then casedNext rest
      else inRanges casedRanges c
  end.

(** The condition [Final_Sigma]: a cased letter before, none after, case-
    ignorable code points being skipped on either side; [before] is in
    reverse order. *)
Definition finalSigma (before after : list N) : bool :=
  casedNext before && negb (casedNext after).

Fixpoint lowerFrom (before cps : list N) : list N :=
  match cps with
  | [] => []
  | c :: rest =>
      (if (c =? 931)%N then [if finalSigma before rest then 962%N else 963%N]
       else if (c =? 304)%N then [105%N; 775%N]
       else [lowerCP c])
      ++ lowerFrom (c :: before) rest
  end.

Definition toLowerCase (s : jsstring) : jsstring :=
  flat_map codeUnits (lowerFrom [] (codePoints s)).

(** ** String methods *)

Fixpoint startsWith (s pre : jsstring) : bool :=
  match pre, s with
  | [], _ => true
  | p :: pre', c :: s' => (p =? c)%N && startsWith s' pre'
  | _ :: _, [] => false
  end.

(** [s.includes(sub)] *)
Fixpoint includes (s sub : jsstring) : bool :=
  startsWith s sub ||
  match s with
  | [] => false
  | _ :: s' => includes s' sub
  end.

Fixpoint trimStart (s : jsstring) : jsstring :=
  match s with
  | c :: s' => if isWhiteSpace c then trimStart s' else s
  | [] => []
  end.

Definition trim (s : jsstring) : jsstring :=
  rev (trimStart (rev (trimStart s))).

(** [s.split(/\s+/)] : the pieces between maximal runs of white space; a
    separator at either end yields an empty piece there. *)
Fixpoint splitWs (cur : jsstring) (inSep : bool) (s : jsstring)
  : list jsstring :=
  match s with
  | [] => [rev cur]
  | c :: s' =>
      if isWhiteSpace c then
        if inSep then splitWs cur true s'
        else rev cur :: splitWs [] true s'
      else splitWs (c :: cur) false s'
  end.

Definition split_ws (s : jsstring) : list jsstring := splitWs [] false s.

(** [arr.join(sep)] *)
Fixpoint join (sep : jsstring) (l : list jsstring) : jsstring :=
  match l with
  | [] => []
  | [x] => x
  | x :: l' => x ++ sep ++ join sep l'
  end.

(** [[...new Set(xs)]] : first occurrences, in insertion order. *)
Definition setStep (acc : list jsstring) (w : jsstring) : list jsstring :=
  if existsb (streq w) acc then acc else acc ++ [w].

Definition setOf (xs : list jsstring) : list jsstring :=
  fold_left setStep xs [].

(** ** Regular expressions

    The two-level matcher used for [RegExp.prototype.test]: Brzozowski
    derivatives over character classes. *)

Inductive regex :=
| Never
| Eps
| Cls (p : N -> bool)
| Cat (r1 r2 : regex)
| Alt (r1 r2 : regex)
| Star (r : regex).

Definition Plus (r : regex) : regex := Cat r (Star r).

Fixpoint nullable (r : regex) : bool :=
  match r with
  | Never => false
  | Eps => true
  | Cls _ => false
  | Cat r1 r2 => nullable r1 && nullable r2
  | Alt r1 r2 => nullable r1 || nullable r2
  | Star _ => true
  end.

Fixpoint deriv (c : N) (r : regex) : regex :=
  match r with
  | Never => Never
  | Eps => Never
  | Cls p => if p c then Eps else Never
  | Cat r1 r2 =>
      if nullable r1 then Alt (Cat (deriv c r1) r2) (deriv c r2)
      else Cat (deriv c r1) r2
  | Alt r1 r2 => Alt (deriv c r1) (deriv c r2)
  | Star r1 => Cat (deriv c r1) (Star r1)
  end.

(** Some prefix of [s] matches [r]. *)
Fixpoint matchesPrefix (r : regex) (s : jsstring) : bool :=
  nullable r ||
  match s with
  | [] => false
  | c :: s' => matchesPrefix (deriv c r) s'
  end.

(** [r.test(s)] : a match starts at some position of [s]. *)
Fixpoint test (r : regex) (s : jsstring) : bool :=
  matchesPrefix r s ||
  match s with
  | [] => false
  | _ :: s' => test r s'
  end.

(** ** Numbers

    [fl q] is the double nearest to [q]: with [e] the binary exponent of
    [q], the multiple of [2^(e - 52)] (of [2^-1074] in the subnormal range)
    nearest to [q], the one with an even mantissa of two equally near. *)

Definition Qltb (x y : Q) : bool := negb (Qle_bool y x).

Definition pow2 (e : Z) : Q := 2 ^ e.

(** The binary exponent of [q <> 0]: [2^e <= |q| < 2^(e + 1)]. *)
Definition ilog2 (q : Q) : Z :=
  let e := (Z.log2 (Z.abs (Qnum q)) - Z.log2 (Zpos (Qden q)))%Z in
  if Qle_bool (pow2 e) (Qabs q) then e else (e - 1)%Z.

(** The integer nearest to [q], the even one of two equally near. *)
Definition roundEven (q : Q) : Z :=
  let f := Qfloor q in
  match Qcompare (q - inject_Z f) (1 # 2) with
  | Lt => f
  | Gt => (f + 1)%Z
  | Eq => if Z.even f then f else (f + 1)%Z
  end.

(** The exponent of the unit in the last place of the doubles around [q]. *)
Definition ulpExp (q : Q) : Z := Z.max (ilog2 q - 52) (-1074).

Definition fl (q : Q) : number :=
  if Qeq_bool q 0 then 0
  else Qred (inject_Z (roundEven (q / pow2 (ulpExp q))) * pow2 (ulpExp q)).

(** A decimal literal of the source, such as [0.7]. *)
Definition num (q : Q) : number := fl q.

(** The arithmetic operators [+], [-], [*] and [/] on numbers. *)
Definition fadd (x y : number) : number := fl (x + y).
Definition fsub (x y : number) : number := fl (x - y).
Definition fmul (x y : number) : number := fl (x * y).
Definition fdiv (x y : number) : number := fl (x / y).

Infix "⊕" := fadd (at level 50, left associativity).
Infix "⊖" := fsub (at level 50, left associativity).
Infix "⊗" := fmul (at level 40, left associativity).
Infix "⊘" := fdiv (at level 40, left associativity).

(** Decimal digits of a natural number, most significant first. *)
Fixpoint digitsFuel (fuel : nat) (n : N) (acc : jsstring) : jsstring :=
  match fuel with
  | O => acc
  | S fuel' =>
      let acc' := (48 + n mod 10)%N :: acc in
      if (n / 10 =? 0)%N then acc' else digitsFuel fuel' (n / 10)%N acc'
  end.

(** [String(n)] for a non-negative integer [n]. *)
Definition decimal (n : N) : jsstring :=
  digitsFuel (S (N.to_nat (N.log2 n))) n [].

Definition digitsVal (ds : jsstring) : N :=
  fold_left (fun acc c => (10 * acc + (c - 48))%N) ds 0%N.

Definition pow10 (f : nat) : Q := inject_Z (10 ^ Z.of_nat f).

(** [x.toFixed(f)] : with [n] the integer for which [n / 10^f - |x|] is as
    close to zero as possible (the larger one of two), the digits of [n]
    with a point before the last [f] of them, after a minus sign when
    [x < 0].  The rounding is that of the exact value of the double [x].
    The exponent notation that JavaScript switches to from [1e21] on is not
    reproduced. *)
Definition toFixed (x : number) (f : nat) : jsstring :=
  let n := Z.to_N (Qfloor (Qabs x * pow10 f + (1 # 2))) in
  let m := decimal n in
  let m :=
    match f with
    | O => m
    | _ =>
        let k := length m in
        let m := if (k <=? f)%nat then repeat 48%N (f + 1 - k) ++ m else m in
        let k := length m in
        firstn (k - f) m ++ 46%N :: skipn (k - f) m
    end in
  if Qltb x 0 then 45%N :: m else m.

Fixpoint spanDigits (s : jsstring) : jsstring * jsstring :=
  match s with
  | c :: s' =>
      if isDigit c then let '(ds, r) := spanDigits s' in (c :: ds, r)
      else ([], s)
  | [] => ([], [])
  end.

(** The value of a decimal literal [-ddd.ddd] without exponent, the
    longest such prefix of [s] being read. *)
Definition decimalValue (s : jsstring) : Q :=
  let '(neg, s1) :=
    match s with
    | c :: r => if (c =? 45)%N then (true, r) else (false, s)
    | [] => (false, s)
    end in
  let '(ip, rest) := spanDigits s1 in
  let fp :=
    match rest with
    | c :: r => if (c =? 46)%N then fst (spanDigits r) else []
    | [] => []
    end in
  let v := inject_Z (Z.of_N (digitsVal ip))
           + inject_Z (Z.of_N (digitsVal fp)) / pow10 (length fp) in
  if neg then - v else v.

(** [parseFloat(s)] : the double nearest to the value of the literal. *)
Definition parseFloat (s : jsstring) : number := fl (decimalValue s).

(** [Math.min(a, b)] and [Math.max(a, b)] *)
Definition Math_min (a b : number) : number := if Qle_bool a b then a else b.
Definition Math_max (a b : number) : number := if Qle_bool a b then b else a.

(** ** Arrays *)

(** [arr.slice(0, end)] for an integer [end]. *)
Definition slice0 {A} (l : list A) (e : Z) : list A :=
  let len := Z.of_nat (length l) in
  let final := if (e <? 0)%Z then Z.max (len + e) 0 else Z.min e len in
  firstn (Z.to_nat final) l.

(** [arr.sort(comparefn)].  The sort is stable: [a] is placed after [b] only
    when [comparefn a b > 0].  The comparators of the program are
    differences of two numbers; only the sign of the difference is used,
    and rounding a difference of two doubles keeps its sign, so the
    comparators carry the exact difference. *)
Section Sort.
Context {A : Type} (comparefn : A -> A -> number).

Fixpoint insert (x : A) (l : list A) : list A :=
  match l with
  | [] => [x]
  | y :: l' =>
      if Qltb 0 (comparefn x y) then y :: insert x l' else x :: y :: l'
  end.

Fixpoint sort (l : list A) : list A :=
  match l with
  | [] => []
  | x :: l' => insert x (sort l')
  end.
End Sort.

(** [arr.map((x, index) => f x index)] *)
Fixpoint mapi_from {A B} (f : A -> Z -> B) (i : Z) (l : list A) : list B :=
  match l with
  | [] => []
  | x :: l' => f x i :: mapi_from f (i + 1)%Z l'
  end.

Definition mapi {A B} (f : A -> Z -> B) (l : list A) : list B :=
  mapi_from f 0%Z l.

(** A thrown [Error]. *)
Inductive exn :=
| Error (message : jsstring)
| TypeError (message : jsstring).

End JS.

Import JS.


(** Completion of a call that may throw. *)
Inductive completion (A : Type) :=
| Return (a : A)
| Throw (e : exn).
Arguments Return {A} a.
Arguments Throw {A} e.

#[export] Instance completion_bind : MBind completion :=
  fun A B (k : A -> completion B) (c : completion A) =>
    match c with
    | Return a => k a
    | Throw e => Throw e
    end.

(** [arr.map(f)] where [f] may throw: the first exception aborts the map. *)
Fixpoint mapM {A B} (f : A -> completion B) (l : list A)
  : completion (list B) :=
  match l with
  | [] => Return []
  | x :: l' => y ← f x; ys ← mapM f l'; Return (y :: ys)
  end.

(* ===================================================================== *)
(** * lib/similarity.ts *)
(* ===================================================================== *)

Record Metadata := {
  position : Z;
  totalChunks : Z;
}.

Record EmbeddedItem := {
  item_id : jsstring;
  item_text : jsstring;
  item_source : jsstring;
  embedding : list number;
  item_metadata : option Metadata;
}.

Record SearchResult := {
  id : jsstring;
  text : jsstring;
  source : jsstring;
  score : number;
  metadata : option Metadata;
}.

(** The body of the [for] loop: [dotProduct += vec1[i] * vec2[i]]. *)
Definition dotStep (vec1 vec2 : list number) (dotProduct : number) (i : nat)
  : number :=
  dotProduct ⊕ nth i vec1 0 ⊗ nth i vec2 0.

Definition cosineSimilarity (vec1 vec2 : list number) : completion number :=
  if negb (length vec1 =? length vec2)%nat then
    Throw (Error (lit "Векторы должны иметь одинаковую размерность"))
  else
    Return (fold_left (dotStep vec1 vec2) (seq 0 (length vec1)) 0).

Definition toSearchResult (queryEmbedding : list number) (item : EmbeddedItem)
  : completion SearchResult :=
  s ← cosineSimilarity queryEmbedding (embedding item);
  Return {| id := item_id item;
            text := item_text item;
            source := item_source item;
            score := s;
            metadata := item_metadata item |}.

Definition byScoreDesc (a b : SearchResult) : number := score b - score a.

Definition findMostSimilar (queryEmbedding : list number)
    (items : list EmbeddedItem) (topK : Z) : completion (list SearchResult) :=
  results ← mapM (toSearchResult queryEmbedding) items;
  Return (slice0 (sort byScoreDesc results) topK).

(* ===================================================================== *)
(** * The reranker module *)
(* ===================================================================== *)

Record QualityThresholds := {
  qt_high : number;
  qt_medium : number;
  qt_low : number;
}.

(** [rerank_method] is a string at run time; the declared type admits
    ['keyword-boost'], ['semantic-deep'], ['hybrid'], ['llm'] and ['none']. *)
Record RerankerConfig := {
  min_similarity : number;
  min_rerank_score : number;
  top_k_for_rerank : number;
  final_top_k : number;
  cfg_rerank_method : jsstring;
  quality_thresholds : QualityThresholds;
}.

(** [RankedResult extends SearchResult]: [result] holds the inherited
    fields, copied by the spread [...result]. *)
Record RankedResult := {
  result : SearchResult;
  rerank_score : number;
  rerank_method : jsstring;
  original_rank : Z;
  boost_reason : option jsstring;
}.

Definition DEFAULT_RERANKER_CONFIG : RerankerConfig := {|
  min_similarity := num (3 # 10);
  min_rerank_score := num (5 # 10);
  top_k_for_rerank := 20;
  final_top_k := 5;
  cfg_rerank_method := lit "hybrid";
  quality_thresholds := {| qt_high := num (7 # 10); qt_medium := num (5 # 10);
                           qt_low := num (3 # 10) |};
|}.

Definition stopWords : list jsstring :=
  List.map lit
    ["и"; "в"; "на"; "с"; "по"; "для"; "от"; "до"; "из"; "к"; "о"; "у";
     "the"; "is"; "at"; "which"; "on"; "a"; "an"; "as"; "are"; "was"; "were";
     "это"; "этот"; "эта"; "быть"; "был"; "была"; "были"; "есть"]%string.

(** The class [[\wа-яё\s]] under the [i] flag: a code unit belongs to it
    when its upper-case form is that of a member.  Besides the members and
    their capitals these are U+1C80..U+1C86, old forms of Cyrillic letters
    whose capitals are in [[А-Я]]. *)
Definition keptByCleanup (c : N) : bool :=
  isWordChar c || isCyrLower c || isCyrUpper c
  || (c =? 1105)%N || (c =? 1025)%N || between 7296 7302 c
  || isWhiteSpace c.

(** [s.replace(/[^\wа-яё\s]/gi, ' ')] *)
Definition cleanup (s : jsstring) : jsstring :=
  List.map (fun c => if keptByCleanup c then c else 32%N) s.

Definition extractKeywords (text : jsstring) : list jsstring :=
  let words :=
    List.filter
      (fun word => (2 <? length word)%nat
                   && negb (existsb (streq word) stopWords))
      (split_ws (cleanup (toLowerCase text))) in
  setOf words.

Definition byRerankDesc (a b : RankedResult) : number :=
  rerank_score b - rerank_score a.

Definition ofNat (n : nat) : number := inject_Z (Z.of_nat n).

Definition matchingKeywords (queryKeywords docKeywords : list jsstring)
  : list jsstring :=
  List.filter
    (fun kw => existsb (fun dk => includes dk kw || includes kw dk)
                       docKeywords)
    queryKeywords.

Definition keywordResult (queryKeywords : list jsstring)
    (result : SearchResult) (index : Z) : RankedResult :=
  let docKeywords := extractKeywords (text result) in
  let matching := matchingKeywords queryKeywords docKeywords in
  let keywordBoost :=
    ofNat (length matching) ⊘ Math_max (ofNat (length queryKeywords)) 1 in
  let rerank_score :=
    score result ⊗ num (7 # 10) ⊕ keywordBoost ⊗ num (3 # 10) in
  {| result := result;
     rerank_score := parseFloat (toFixed rerank_score 4);
     rerank_method := lit "keyword-boost";
     original_rank := (index + 1)%Z;
     boost_reason :=
       if (0 <? length matching)%nat
       then Some (lit "Найдено " ++ decimal (N.of_nat (length matching))
                  ++ lit " ключевых слов")
       else None |}.

Definition rerankByKeywords (query : jsstring) (results : list SearchResult)
  : list RankedResult :=
  let queryKeywords := extractKeywords query in
  sort byRerankDesc (mapi (keywordResult queryKeywords) results).

(** [/\d+|[A-ZА-Я][a-zа-я]+\s+[A-ZА-Я][a-zа-я]+/] *)
Definition specificData : regex :=
  let upper := Cls (fun c => isAsciiUpper c || isCyrUpper c) in
  let lower := Cls (fun c => isAsciiLower c || isCyrLower c) in
  Alt (Plus (Cls isDigit))
      (Cat upper (Cat (Plus lower)
         (Cat (Plus (Cls isWhiteSpace)) (Cat upper (Plus lower))))).

Definition semanticResult (query : jsstring) (result : SearchResult)
    (index : Z) : RankedResult :=
  let rerank_score := score result in
  let positionBoost :=
    match metadata result with
    | Some m => if (position m =? 0)%Z then num (1 # 10) else 0
    | None => 0
    end in
  let textLength := length (text result) in
  let lengthBoost :=
    if (200 <=? textLength)%nat && (textLength <=? 500)%nat
    then num (5 # 100) else 0 in
  let hasSpecificData := test specificData (text result) in
  let dataBoost := if hasSpecificData then num (5 # 100) else 0 in
  let queryWords := split_ws (toLowerCase query) in
  let directMatches :=
    length (List.filter
              (fun word => (3 <? length word)%nat
                           && includes (toLowerCase (text result)) word)
              queryWords) in
  let directMatchBoost :=
    Math_min (ofNat directMatches ⊗ num (5 # 100)) (num (15 # 100)) in
  let rerank_score :=
    Math_min (rerank_score ⊕ positionBoost ⊕ lengthBoost ⊕ dataBoost
              ⊕ directMatchBoost) 1 in
  let boostFactors :=
    (if Qltb 0 positionBoost then [lit "первый чанк"] else [])
    ++ (if Qltb 0 lengthBoost then [lit "оптимальная длина"] else [])
    ++ (if Qltb 0 dataBoost then [lit "конкретные данные"] else [])
    ++ (if Qltb 0 directMatchBoost
        then [decimal (N.of_nat directMatches) ++ lit " прямых совпадений"]
        else []) in
  let boost_reason :=
    if (0 <? length boostFactors)%nat
    then Some (join (lit ", ") boostFactors) else None in
  {| result := result;
     rerank_score := parseFloat (toFixed rerank_score 4);
     rerank_method := lit "semantic-deep";
     original_rank := (index + 1)%Z;
     boost_reason := boost_reason |}.

Definition rerankBySemantic (query : jsstring) (results : list SearchResult)
  : list RankedResult :=
  sort byRerankDesc (mapi (semanticResult query) results).

(** [new Map(semanticResults.map(r => [r.id, r.rerank_score]))]: a later
    entry with the same key replaces an earlier one. *)
Definition scoreMap (semanticResults : list RankedResult)
  : gmap (list N) number :=
  fold_left (fun m r => <[id (result r) := rerank_score r]> m)
            semanticResults ∅.

(** [semanticMap.get(result.id) || result.score]: the right operand is
    taken when the left one is [undefined] or [0]. *)
Definition semanticOr (semanticMap : gmap (list N) number)
    (r : RankedResult) : number :=
  match semanticMap !! id (result r) with
  | Some s => if Qeq_bool s 0 then score (result r) else s
  | None => score (result r)
  end.

Definition hybridResult (semanticMap : gmap (list N) number)
    (r : RankedResult) : RankedResult :=
  let semanticScore := semanticOr semanticMap r in
  let hybridScore :=
    rerank_score r ⊗ num (5 # 10) ⊕ semanticScore ⊗ num (5 # 10) in
  {| result := result r;
     rerank_score := parseFloat (toFixed hybridScore 4);
     rerank_method := lit "hybrid";
     original_rank := original_rank r;
     boost_reason := boost_reason r |}.

(** The combination step of [rerankHybrid], with the results of the two
    passes as parameters. *)
Definition combineHybrid (keywordResults semanticResults : list RankedResult)
  : list RankedResult :=
  let semanticMap := scoreMap semanticResults in
  sort byRerankDesc (List.map (hybridResult semanticMap) keywordResults).

Definition rerankHybrid (query : jsstring) (results : list SearchResult)
  : list RankedResult :=
  let keywordResults := rerankByKeywords query results in
  let semanticResults := rerankBySemantic query results in
  combineHybrid keywordResults semanticResults.

Definition noneResult (result : SearchResult) (index : Z) : RankedResult :=
  {| result := result;
     rerank_score := score result;
     rerank_method := lit "none";
     original_rank := (index + 1)%Z;
     boost_reason := None |}.

(** [rerankResults] is [async]; its value is the value the promise
    resolves to.  The [switch] compares [config.rerank_method] with [===]. *)
Definition rerankResults (query : jsstring)
    (searchResults : list SearchResult) (config : RerankerConfig)
  : list RankedResult :=
  if (length searchResults =? 0)%nat then []
  else
    let m := cfg_rerank_method config in
    if streq m (lit "keyword-boost") then rerankByKeywords query searchResults
    else if streq m (lit "semantic-deep")
    then rerankBySemantic query searchResults
    else if streq m (lit "hybrid") then rerankHybrid query searchResults
    else if streq m (lit "none") then mapi noneResult searchResults
    else rerankHybrid query searchResults.

(* ===================================================================== *)
(** * lib/rag.ts *)
(* ===================================================================== *)

(** An element of [SearchResult[] | RankedResult[]]; [Ranked] is the case
    ['rerank_score' in chunk]. *)
Inductive chunk :=
| Plain (r : SearchResult)
| Ranked (r : RankedResult).

Definition fields (c : chunk) : SearchResult :=
  match c with
  | Plain r => r
  | Ranked r => result r
  end.

Definition NL : jsstring := [10%N].

(** ** The object [bySource]

    An object created by [{}] is the list of its own properties in creation
    order; reading a name that is not an own property finds the members of
    [Object.prototype]. *)

Definition objectPrototypeNames : list jsstring :=
  List.map lit
    ["constructor"; "__defineGetter__"; "__defineSetter__";
     "hasOwnProperty"; "__lookupGetter__"; "__lookupSetter__";
     "isPrototypeOf"; "propertyIsEnumerable"; "toString"; "valueOf";
     "__proto__"; "toLocaleString"]%string.

Definition object (V : Type) := list (jsstring * V).

Definition hasOwn {V} (o : object V) (k : jsstring) : bool :=
  existsb (fun kv => streq (fst kv) k) o.

(** [o[k].push(x)] for an own property [k]. *)
Fixpoint pushAt {V} (o : object (list V)) (k : jsstring) (x : V)
  : object (list V) :=
  match o with
  | [] => []
  | (k', xs) :: o' =>
      if streq k' k then (k', xs ++ [x]) :: o' else (k', xs) :: pushAt o' k x
  end.

(** A canonical array index: the decimal string of an integer below
    [2^32 - 1]. *)
Definition arrayIndex (k : jsstring) : option N :=
  let n := digitsVal k in
  if forallb isDigit k && streq (decimal n) k && (n <? 4294967295)%N
  then Some n else None.

Definition byIndex {V} (a b : jsstring * V) : number :=
  match arrayIndex (fst a), arrayIndex (fst b) with
  | Some i, Some j => inject_Z (Z.of_N i) - inject_Z (Z.of_N j)
  | _, _ => 0
  end.

(** [Object.entries(o)]: array indices in ascending order, then the other
    names in creation order. *)
Definition isIndex (k : jsstring) : bool :=
  match arrayIndex k with
  | Some _ => true
  | None => false
  end.

Definition entries {V} (o : object V) : list (jsstring * V) :=
  sort byIndex (List.filter (fun kv => isIndex (fst kv)) o)
  ++ List.filter (fun kv => negb (isIndex (fst kv))) o.

(** One step of the [reduce] that groups by source.  When [result.source]
    names a member of [Object.prototype], [acc[result.source]] is that
    member, [!acc[...]] is false and the call of [push] on it throws. *)
Definition groupStep (acc : object (list chunk)) (c : chunk)
  : completion (object (list chunk)) :=
  let k := source (fields c) in
  if hasOwn acc k then Return (pushAt acc k c)
  else if existsb (streq k) objectPrototypeNames
  then Throw (TypeError (lit "acc[result.source].push is not a function"))
  else Return (acc ++ [(k, [c])]).

Fixpoint reduceM {A B} (f : B -> A -> completion B) (l : list A) (acc : B)
  : completion B :=
  match l with
  | [] => Return acc
  | x :: l' => acc' ← f acc x; reduceM f l' acc'
  end.

Definition relevance (x : number) : jsstring :=
  lit "релевантность: " ++ toFixed (x ⊗ 100) 1 ++ lit "%".

Definition formatChunk (c : chunk) (chunkIndex : Z) : jsstring :=
  let scoreText :=
    match c with
    | Ranked r => relevance (rerank_score r)
    | Plain r => relevance (score r)
    end in
  NL ++ lit "[Фрагмент " ++ decimal (Z.to_N (chunkIndex + 1)) ++ lit ", "
     ++ scoreText ++ lit "]" ++ NL
  ++ text (fields c)
  ++ NL
  ++ match c with
     | Ranked r =>
         match boost_reason r with
         | Some ((_ :: _) as reason) =>
             lit "(+буст: " ++ reason ++ lit ")" ++ NL
         | _ => []
         end
     | Plain _ => []
     end.

Definition formatSource (entry : jsstring * list chunk) (index : Z)
  : jsstring :=
  let '(source, chunks) := entry in
  NL ++ lit "--- ДОКУМЕНТ " ++ decimal (Z.to_N (index + 1)) ++ lit ": "
     ++ source ++ lit " ---" ++ NL
  ++ concat (mapi formatChunk chunks).

Definition formatContextForLLM (results : list chunk)
  : completion jsstring :=
  if (length results =? 0)%nat then
    Return (lit "Релевантной информации в документах не найдено.")
  else
    bySource ← reduceM groupStep results [];
    Return (trim (concat (mapi formatSource (entries bySource)))).

(** The budget test of the loop, on [\n[source]\ntext\n]. *)
Definition chunkText (c : chunk) : jsstring :=
  NL ++ lit "[" ++ source (fields c) ++ lit "]" ++ NL ++ text (fields c)
     ++ NL.

(** The [for ... of] loop with its [break]: [selectedResults] after the
    loop, from [currentLength] on. *)
Fixpoint selectResults (maxChars : number) (currentLength : Z)
    (results : list chunk) : list chunk :=
  match results with
  | [] => []
  | c :: rest =>
      let len := Z.of_nat (length (chunkText c)) in
      if Qle_bool (inject_Z (currentLength + len)) maxChars
      then c :: selectResults maxChars (currentLength + len) rest
      else []
  end.

Definition prepareContextWithLimit (results : list chunk) (maxChars : number)
  : completion jsstring :=
  let selectedResults := selectResults maxChars 0 results in
  formatContextForLLM selectedResults.

Inductive Quality := none | low | medium | high.

Record QualityAssessment := {
  quality : Quality;
  confidence : number;
  recommendation : jsstring;
  avgScore : option number;
  maxScore : option number;
  qa_totalChunks : option Z;
}.

(** [Math.max(...xs)] of a non-empty array [x :: xs]. *)
Definition Math_max_of (x : number) (xs : list number) : number :=
  fold_left Math_max xs x.

Definition evaluateContextQuality (results : list SearchResult)
  : QualityAssessment :=
  match results with
  | [] =>
      {| quality := none;
         confidence := 0;
         recommendation :=
           lit "Релевантной информации не найдено. Модель ответит из общих знаний.";
         avgScore := None; maxScore := None; qa_totalChunks := None |}
  | r :: rest =>
      let avg :=
        fold_left (fun sum r => sum ⊕ score r) results 0
        ⊘ ofNat (length results) in
      let mx := Math_max_of (score r) (List.map score rest) in
      let '(q, c, rec) :=
        if Qltb (num (7 # 10)) mx && Qltb (num (5 # 10)) avg then
          (high, num (9 # 10),
           lit "Найдена высокорелевантная информация. Ответ будет точным.")
        else if Qltb (num (5 # 10)) mx && Qltb (num (3 # 10)) avg then
          (medium, num (6 # 10),
           lit "Найдена частично релевантная информация. Ответ может быть неполным.")
        else
          (low, num (3 # 10),
           lit "Релевантность низкая. Рекомендуется режим без RAG или уточните запрос.")
      in
      {| quality := q;
         confidence := c;
         recommendation := rec;
         avgScore := Some (parseFloat (toFixed avg 4));
         maxScore := Some (parseFloat (toFixed mx 4));
         qa_totalChunks := Some (Z.of_nat (length results)) |}
  end.

(* ===================================================================== *)
(** * Notions used to state the properties *)
(* ===================================================================== *)

(** Every comparator of the program has the form
    [(a, b) => key(b) - key(a)]. *)
Section ByKey.
Context {A : Type} (key : A -> number).

Definition keyDesc (a b : A) : number := key b - key a.
Definition keyIs (v : number) (a : A) : bool := Qeq_bool (key a) v.

(** Non-increasing keys. *)
Definition descending (a b : A) : Prop := key b <= key a.

Context (rank : A -> Z).

(** Decreasing keys, and increasing ranks among equal keys. *)
Definition keyThenRank (a b : A) : Prop :=
  key b < key a \/ (key a == key b /\ (rank a < rank b)%Z).

Definition rankIncreasing (a b : A) : Prop := (rank a < rank b)%Z.
End ByKey.

Definition digitStep (acc c : N) : N := (10 * acc + (c - 48))%N.

(** [x] rounded to [f] decimals, halves away from zero. *)
Definition roundDecimal (x : number) (f : nat) : Q :=
  let v := inject_Z (Qfloor (Qabs x * pow10 f + (1 # 2))) / pow10 f in
  if Qltb x 0 then - v else v.

(** [x] rounded to [f] decimals, as a number: the double nearest to that
    decimal, which is what [parseFloat(x.toFixed(f))] returns. *)
Definition roundFixed (x : number) (f : nat) : number :=
  fl (roundDecimal x f).

(** [x] is the exact value of a double. *)
Definition isDouble (x : Q) : Prop := fl x == x.

(** The dot product: the sum of the pointwise products, added one after
    the other in double arithmetic. *)
Fixpoint dotFrom (acc : number) (v1 v2 : list number) : number :=
  match v1, v2 with
  | a :: v1', b :: v2' => dotFrom (acc ⊕ a ⊗ b) v1' v2'
  | _, _ => acc
  end.

Definition dotProduct (v1 v2 : list number) : number := dotFrom 0 v1 v2.

(** [r] is the search result of [item] for the query vector [q]. *)
Definition scoredAs (q : list number) (item : EmbeddedItem)
    (r : SearchResult) : Prop :=
  id r = item_id item /\ text r = item_text item
  /\ source r = item_source item /\ metadata r = item_metadata item
  /\ score r == dotProduct q (embedding item).

Definition idOf (r : RankedResult) : jsstring := id (result r).

(** ** Quality classification, in the words of the specification *)

Definition sumOf (xs : list number) : number := fold_right Qplus 0 xs.

(** [a] is the arithmetic mean of [xs]. *)
Definition isMean (xs : list number) (a : number) : Prop :=
  a * ofNat (length xs) == sumOf xs.

(** [m] is the maximum of [xs]. *)
Definition isMax (xs : list number) (m : number) : Prop :=
  In m xs /\ Forall (fun x => x <= m) xs.

(** The order [none < low < medium < high]. *)
Definition tier (q : Quality) : nat :=
  match q with
  | none => 0
  | low => 1
  | medium => 2
  | high => 3
  end.

(** The sum of [xs] as a loop computes it: from 0, from left to right,
    each addition rounded; and the mean computed from that sum. *)
Definition floatSum (xs : list number) : number := fold_left fadd xs 0.

Definition floatMean (xs : list number) : number :=
  floatSum xs ⊘ ofNat (length xs).

(** The classification policy on [maxScore] and [avgScore]. *)
Definition policy (mx avg : number) : Quality :=
  if Qltb (num (7 # 10)) mx && Qltb (num (5 # 10)) avg then high
  else if Qltb (num (5 # 10)) mx && Qltb (num (3 # 10)) avg then medium
  else low.

(** ** The budget of the context assembler *)

Definition blockLen (c : chunk) : Z := Z.of_nat (length (chunkText c)).

(** Total length of the tagged blocks of [cs]. *)
Definition blocks (cs : list chunk) : Z :=
  fold_right (fun c total => (blockLen c + total)%Z) 0%Z cs.

(** ** Sample inputs *)

Definition unitItem (name : String.string) (e : list number)
  : EmbeddedItem :=
  {| item_id := lit name; item_text := lit name; item_source := lit "doc";
     embedding := e; item_metadata := None |}.

Definition sample (name body : String.string) (s : number)
    (m : option Metadata) : SearchResult :=
  {| id := lit name; text := lit body; source := lit "doc"; score := s;
     metadata := m |}.

Definition withMethod (m : String.string) : RerankerConfig :=
  {| min_similarity := min_similarity DEFAULT_RERANKER_CONFIG;
     min_rerank_score := min_rerank_score DEFAULT_RERANKER_CONFIG;
     top_k_for_rerank := top_k_for_rerank DEFAULT_RERANKER_CONFIG;
     final_top_k := final_top_k DEFAULT_RERANKER_CONFIG;
     cfg_rerank_method := lit m;
     quality_thresholds := quality_thresholds DEFAULT_RERANKER_CONFIG |}.

(** ** Keyword overlap, in the words of the specification *)













(** [a => key(a) >= m], the predicate of the threshold filters. *)
Definition atLeast {A} (key : A -> number) (m : number) (a : A) : bool :=
  Qle_bool m (key a).

(* ===================================================================== *)
(** * Further functions of the three modules *)
(* ===================================================================== *)

(** ** lib/similarity.ts *)

(** [results.filter(result => result.score >= minScore)] *)
Definition filterByMinScore (results : list SearchResult) (minScore : number)
  : list SearchResult :=
  List.filter (fun result => Qle_bool minScore (score result)) results.

(** The grouping step of [groupBySource]; it is the step of the [reduce] in
    [formatContextForLLM], for any way [key] of reading the source. *)
Definition groupStepBy {A} (key : A -> jsstring) (acc : object (list A))
    (x : A) : completion (object (list A)) :=
  let k := key x in
  if hasOwn acc k then Return (pushAt acc k x)
  else if existsb (streq k) objectPrototypeNames
  then Throw (TypeError (lit "acc[result.source].push is not a function"))
  else Return (acc ++ [(k, [x])]).

Definition groupBySource (results : list SearchResult)
  : completion (object (list SearchResult)) :=
  reduceM (groupStepBy source) results [].

Record SearchStats := {
  count : Z;
  stats_avgScore : number;
  stats_maxScore : number;
  stats_minScore : number;
}.

(** [Math.min(...xs)] of a non-empty array [x :: xs]. *)
Definition Math_min_of (x : number) (xs : list number) : number :=
  fold_left Math_min xs x.

Definition getSearchStats (results : list SearchResult) : SearchStats :=
  match results with
  | [] =>
      {| count := 0; stats_avgScore := 0; stats_maxScore := 0;
         stats_minScore := 0 |}
  | r :: rest =>
      let scores := List.map score results in
      let sum := fold_left (fun a b => a ⊕ b) scores 0 in
      {| count := Z.of_nat (length results);
         stats_avgScore := sum ⊘ ofNat (length results);
         stats_maxScore := Math_max_of (score r) (List.map score rest);
         stats_minScore := Math_min_of (score r) (List.map score rest) |}
  end.

(** ** The reranker module *)

(** [results.filter(r => r.rerank_score >= threshold)] *)
Definition filterByQuality (results : list RankedResult) (threshold : number)
  : list RankedResult :=
  List.filter (fun r => Qle_bool threshold (rerank_score r)) results.

Record Distribution := {
  d_high : Z;
  d_medium : Z;
  d_low : Z;
}.

(** The body of the [forEach] of [analyzeQuality], on the counters. *)
Definition analyzeStep (thresholds : QualityThresholds)
    (distribution : Distribution) (r : RankedResult) : Distribution :=
  if Qle_bool (qt_high thresholds) (rerank_score r) then
    {| d_high := d_high distribution + 1; d_medium := d_medium distribution;
       d_low := d_low distribution |}
  else if Qle_bool (qt_medium thresholds) (rerank_score r) then
    {| d_high := d_high distribution; d_medium := d_medium distribution + 1;
       d_low := d_low distribution |}
  else if Qle_bool (qt_low thresholds) (rerank_score r) then
    {| d_high := d_high distribution; d_medium := d_medium distribution;
       d_low := d_low distribution + 1 |}
  else distribution.

Definition analyzeQuality (results : list RankedResult)
    (thresholds : QualityThresholds) : Distribution :=
  fold_left (analyzeStep thresholds) results
            {| d_high := 0; d_medium := 0; d_low := 0 |}.

(** [minScore] is an optional parameter. *)
Definition getTopRanked (results : list RankedResult) (topK : Z)
    (minScore : option number) : list RankedResult :=
  let filtered :=
    match minScore with
    | Some m => List.filter (fun r => Qle_bool m (rerank_score r)) results
    | None => results
    end in
  slice0 filtered topK.

Record Comparison := {
  cmp_none : list RankedResult;
  cmp_keyword : list RankedResult;
  cmp_semantic : list RankedResult;
  cmp_hybrid : list RankedResult;
}.

Definition compareRankingMethods (query : jsstring)
    (results : list SearchResult) : Comparison :=
  {| cmp_none := mapi noneResult results;
     cmp_keyword := rerankByKeywords query results;
     cmp_semantic := rerankBySemantic query results;
     cmp_hybrid := rerankHybrid query results |}.

Record OriginalEntry := {
  oe_id : jsstring;
  oe_score : number;
  oe_rank : Z;
}.

Record RerankedEntry := {
  re_id : jsstring;
  re_score : number;
  re_rerank_score : number;
  re_rank : Z;
}.

(** [avg_score_improvement] is [None] where the source computes [NaN]. *)
Record RerankingStats := {
  original_results : list OriginalEntry;
  reranked_results : list RerankedEntry;
  filtered_count : Z;
  avg_score_improvement : option number;
  stats_rerank_method : jsstring;
  rerank_time_ms : number;
  quality_distribution : Distribution;
}.

(** [rr.rerank_score - original.score] for the first original result with
    the id of [rr], and [0] when there is none. *)
Definition scoreImprovement (originalResults : list SearchResult)
    (rr : RankedResult) : number :=
  match List.find (fun or => streq (id or) (id (result rr))) originalResults
  with
  | Some original => rerank_score rr ⊖ score original
  | None => 0
  end.

(** [xs.reduce((a, b) => a + b, 0) / xs.length], then
    [parseFloat(x.toFixed(f))]; an empty [xs] gives [0 / 0], which is
    [NaN], and [NaN] goes through [toFixed] and [parseFloat] unchanged. *)
Definition roundedMean (xs : list number) (f : nat) : option number :=
  if (length xs =? 0)%nat then None
  else
    Some (parseFloat
            (toFixed (fold_left (fun a b => a ⊕ b) xs 0 ⊘ ofNat (length xs))
                     f)).

Definition createRerankingStats (originalResults : list SearchResult)
    (rerankedResults : list RankedResult) (rerankTimeMs : number)
    (config : RerankerConfig) : RerankingStats :=
  let scoreImprovements :=
    List.map (scoreImprovement originalResults) rerankedResults in
  let qualityDist :=
    analyzeQuality rerankedResults (quality_thresholds config) in
  {| original_results :=
       mapi (fun r idx => {| oe_id := id r; oe_score := score r;
                             oe_rank := (idx + 1)%Z |})
            originalResults;
     reranked_results :=
       mapi (fun r idx => {| re_id := id (result r);
                             re_score := score (result r);
                             re_rerank_score := rerank_score r;
                             re_rank := (idx + 1)%Z |})
            rerankedResults;
     filtered_count :=
       (Z.of_nat (length originalResults)
        - Z.of_nat (length rerankedResults))%Z;
     avg_score_improvement := roundedMean scoreImprovements 4;
     stats_rerank_method := cfg_rerank_method config;
     rerank_time_ms := rerankTimeMs;
     quality_distribution := qualityDist |}.

(** ** lib/rag.ts *)

(** [avg_relevance] and [max_relevance] are [None] where the source would
    compute [NaN] or [-Infinity], on an empty [sourceChunks]. *)
Record SourceStat := {
  filename : jsstring;
  chunks_used : Z;
  avg_relevance : option number;
  max_relevance : option number;
}.

Record SourcesInfo := {
  total_sources : Z;
  total_chunks : Z;
  sources : list SourceStat;
}.

Definition sourceStat (results : list SearchResult) (source' : jsstring)
  : SourceStat :=
  let sourceChunks :=
    List.filter (fun r => streq (source r) source') results in
  let avgScore :=
    if (length sourceChunks =? 0)%nat then None
    else Some (fold_left (fun sum r => sum ⊕ score r) sourceChunks 0
               ⊘ ofNat (length sourceChunks)) in
  let maxScore :=
    match List.map score sourceChunks with
    | [] => None
    | x :: xs => Some (Math_max_of x xs)
    end in
  {| filename := source';
     chunks_used := Z.of_nat (length sourceChunks);
     avg_relevance := option_map (fun x => parseFloat (toFixed x 4)) avgScore;
     max_relevance := option_map (fun x => parseFloat (toFixed x 4)) maxScore
  |}.

Definition extractSourcesInfo (results : list SearchResult) : SourcesInfo :=
  let sources := setOf (List.map source results) in
  let sourceStats := List.map (sourceStat results) sources in
  {| total_sources := Z.of_nat (length sources);
     total_chunks := Z.of_nat (length results);
     sources := sourceStats |}.

Record SummaryEntry := {
  se_id : jsstring;
  se_source : jsstring;
  se_text : jsstring;
  se_score : number;
}.

(** [r.text.substring(0, 150) + (r.text.length > 150 ? '...' : '')] *)
Definition preview (text : jsstring) : jsstring :=
  firstn 150 text ++ (if (150 <? length text)%nat then lit "..." else []).

Definition createSourcesSummary (results : list SearchResult)
  : list SummaryEntry :=
  List.map (fun r => {| se_id := id r;
                        se_source := source r;
                        se_text := preview (text r);
                        se_score := parseFloat (toFixed (score r ⊗ 100) 1) |})
           results.

(** [arr.findIndex(p)], [-1] when no element satisfies [p]. *)
Fixpoint findIndexFrom {A} (p : A -> bool) (i : Z) (l : list A) : Z :=
  match l with
  | [] => (-1)%Z
  | x :: l' => if p x then i else findIndexFrom p (i + 1)%Z l'
  end.

Definition findIndex {A} (p : A -> bool) (l : list A) : Z :=
  findIndexFrom p 0%Z l.

(** [improvement] is [None] where the source computes [NaN]. *)
Record RankingQuality := {
  improvement : option number;
  top_changed : bool;
  avg_position_change : number;
}.

(** The array [positionChanges] after the [forEach], from index [newIdx]
    on. *)
Fixpoint positionChangesFrom (originalResults : list SearchResult)
    (newIdx : Z) (rerankedResults : list RankedResult) : list number :=
  match rerankedResults with
  | [] => []
  | reranked :: rest =>
      let oldIdx :=
        findIndex (fun r => streq (id r) (id (result reranked)))
                  originalResults in
      (if (0 <=? oldIdx)%Z
       then [inject_Z (Z.abs (oldIdx - newIdx))] else [])
      ++ positionChangesFrom originalResults (newIdx + 1)%Z rest
  end.

Definition analyzeRankingQuality (originalResults : list SearchResult)
    (rerankedResults : list RankedResult) : RankingQuality :=
  let topChanged :=
    negb (bool_decide (option_map id (head originalResults)
                       = option_map (fun r => id (result r))
                                    (head rerankedResults))) in
  let positionChanges :=
    positionChangesFrom originalResults 0 rerankedResults in
  let avgPositionChange :=
    if (0 <? length positionChanges)%nat
    then fold_left (fun a b => a ⊕ b) positionChanges 0
         ⊘ ofNat (length positionChanges)
    else 0 in
  let scoreImprovements :=
    List.map (scoreImprovement originalResults) rerankedResults in
  {| improvement := roundedMean scoreImprovements 4;
     top_changed := topChanged;
     avg_position_change := parseFloat (toFixed avgPositionChange 2) |}.

(** ** app/api/rag/compare/route.ts *)

(** [getRecommendation(withRAG, withoutRAG)] reads
    [withRAG.context_quality] only, which is absent when the retrieval
    branch failed. *)
(** [withRAG.context_quality?.quality === q] *)
Definition qualityIs (q : Quality) (context_quality : option QualityAssessment)
  : bool :=
  match context_quality with
  | Some qa =>
      match quality qa, q with
      | none, none | low, low | medium, medium | high, high => true
      | _, _ => false
      end
  | None => false
  end.

Definition getRecommendation (context_quality : option QualityAssessment)
  : jsstring :=
  let confidence :=
    match context_quality with
    | Some qa => confidence qa
    | None => 0
    end in
  if qualityIs high context_quality && Qltb (num (7 # 10)) confidence
  then lit "RAG значительно улучшил ответ. Используйте режим с RAG для этого типа вопросов."
  else if qualityIs medium context_quality && Qltb (num (5 # 10)) confidence
  then lit "RAG частично помог. Сравните оба ответа и выберите подходящий."
  else if qualityIs low context_quality || Qltb confidence (num (4 # 10))
  then lit "RAG не помог или даже ухудшил ответ. Используйте режим без RAG для общих вопросов."
  else lit "Оба режима дали похожие результаты. Выберите любой.".

(** ** Grouping, in closed form *)

(** The groups of [l] by [key]: the distinct keys in order of first
    occurrence, each with the elements of that key in their order. *)
Definition groupsOf {A} (key : A -> jsstring) (l : list A)
  : object (list A) :=
  List.map (fun k => (k, List.filter (fun x => streq (key x) k) l))
           (setOf (List.map key l)).

(** The number that an array index [k] denotes. *)
Definition indexValue (k : jsstring) : N := default 0%N (arrayIndex k).

(** [k] names a member of [Object.prototype]. *)
Definition inherited (k : jsstring) : Prop := In k objectPrototypeNames.

Definition pushError : exn :=
  TypeError (lit "acc[result.source].push is not a function").

(** [s] neither starts nor ends with white space. *)
Definition trimmed (s : jsstring) : Prop :=
  match s with
  | c :: _ => isWhiteSpace c = false
  | [] => True
  end
  /\ match rev s with
     | c :: _ => isWhiteSpace c = false
     | [] => True
     end.

Definition sourceOf (c : chunk) : jsstring := source (fields c).

Definition notFound : jsstring :=
  lit "Релевантной информации в документах не найдено.".

(** [m] is the minimum of [xs]. *)
Definition isMin (xs : list number) (m : number) : Prop :=
  In m xs /\ Forall (fun x => m <= x) xs.

(** [r] carries the input result at position [original_rank r], counted
    from 1. *)
Definition atOriginalRank (searchResults : list SearchResult)
    (r : RankedResult) : Prop :=
  (1 <= original_rank r <= Z.of_nat (length searchResults))%Z
  /\ nth_error searchResults (Z.to_nat (original_rank r - 1))
     = Some (result r).

(** The four recommendations of [getRecommendation]. *)
Definition recommendRAG : jsstring :=
  lit "RAG значительно улучшил ответ. Используйте режим с RAG для этого типа вопросов.".
Definition recommendCompare : jsstring :=
  lit "RAG частично помог. Сравните оба ответа и выберите подходящий.".
Definition recommendNoRAG : jsstring :=
  lit "RAG не помог или даже ухудшил ответ. Используйте режим без RAG для общих вопросов.".
Definition recommendEither : jsstring :=
  lit "Оба режима дали похожие результаты. Выберите любой.".

Definition sumZ (xs : list Z) : Z := fold_right Z.add 0%Z xs.

(* ===================================================================== *)
(** * Properties of the JavaScript primitives *)
(* ===================================================================== *)

Lemma Qltb_lt (x y : Q) : Qltb x y = true <-> x < y.
Proof.
  unfold Qltb. rewrite negb_true_iff.
  split.
  - intros H. apply Qnot_le_lt. intros Hle.
    apply Qle_bool_iff in Hle. congruence.
  - intros H. destruct (Qle_bool y x) eqn:E; [|reflexivity].
    apply Qle_bool_iff in E. exfalso. apply (Qlt_not_le _ _ H E).
Qed.

Lemma Qltb_ge (x y : Q) : Qltb x y = false <-> y <= x.
Proof.
  unfold Qltb. rewrite negb_false_iff. apply Qle_bool_iff.
Qed.

Section SortFacts.
Context {A : Type} (comparefn : A -> A -> number).

Lemma insert_Permutation (x : A) (l : list A) :
  Permutation (insert comparefn x l) (x :: l).
Proof.
  induction l as [|y l IH]; simpl; [reflexivity|].
  destruct (Qltb 0 (comparefn x y)); [|reflexivity].
  rewrite IH. apply perm_swap.
Qed.

Lemma sort_Permutation (l : list A) : Permutation (sort comparefn l) l.
Proof.
  induction l as [|x l IH]; simpl; [reflexivity|].
  rewrite insert_Permutation. now constructor.
Qed.

Lemma length_sort (l : list A) : length (sort comparefn l) = length l.
Proof. apply Permutation_length, sort_Permutation. Qed.
End SortFacts.

(** Sorting on a numeric key in descending order, as every comparator of the
    program does: [(a, b) => key(b) - key(a)]. *)
Section SortByKey.
Context {A : Type} (key : A -> number).
Local Abbreviation keyDesc := (keyDesc key).
Local Abbreviation keyIs := (keyIs key).
Local Abbreviation descending := (descending key).

Lemma keyDesc_after (x y : A) :
  Qltb 0 (keyDesc x y) = true <-> key x < key y.
Proof. rewrite Qltb_lt. unfold keyDesc. split; intros; lra. Qed.

Lemma insert_descending (x : A) (l : list A) :
  StronglySorted descending l ->
  StronglySorted descending (insert keyDesc x l).
Proof.
  induction l as [|y l IH]; simpl; intros Hs.
  - repeat constructor.
  - inversion Hs as [|? ? Hl Hy]; subst.
    destruct (Qltb 0 (keyDesc x y)) eqn:E.
    + apply keyDesc_after in E.
      constructor; [auto|].
      eapply Permutation_Forall; [symmetry; apply insert_Permutation|].
      constructor; [unfold descending; lra | exact Hy].
    + apply Qltb_ge in E. unfold keyDesc in E.
      constructor; [exact Hs|].
      constructor; [unfold descending; lra|].
      eapply Forall_impl; [exact Hy|].
      unfold descending. intros z Hz. simpl in Hz. lra.
Qed.

Lemma sort_descending (l : list A) :
  StronglySorted descending (sort keyDesc l).
Proof.
  induction l as [|x l IH]; simpl; [constructor|].
  now apply insert_descending.
Qed.

Lemma filter_insert (v : number) (x : A) (l : list A) :
  List.filter (keyIs v) (insert keyDesc x l)
  = List.filter (keyIs v) (x :: l).
Proof.
  induction l as [|y l IH]; [reflexivity|].
  cbn [insert]. destruct (Qltb 0 (keyDesc x y)) eqn:E; [|reflexivity].
  apply keyDesc_after in E.
  cbn [List.filter] in *. rewrite IH.
  destruct (keyIs v x) eqn:Ex; [|reflexivity].
  destruct (keyIs v y) eqn:Ey; [|reflexivity].
  unfold keyIs in *. apply Qeq_bool_iff in Ex, Ey. lra.
Qed.

(** Stability: the elements with any given key keep their order. *)
Lemma sort_stable (v : number) (l : list A) :
  List.filter (keyIs v) (sort keyDesc l) = List.filter (keyIs v) l.
Proof.
  induction l as [|x l IH]; [reflexivity|].
  cbn [sort]. rewrite filter_insert. cbn [List.filter]. now rewrite IH.
Qed.

(** With a rank that increases along the input, the output is ordered by
    key, and by rank among equal keys. *)
Context (rank : A -> Z).
Local Abbreviation keyThenRank := (keyThenRank key rank).
Local Abbreviation rankIncreasing := (rankIncreasing rank).

Lemma insert_keyThenRank (x : A) (l : list A) :
  Forall (rankIncreasing x) l ->
  StronglySorted keyThenRank l ->
  StronglySorted keyThenRank (insert keyDesc x l).
Proof.
  induction l as [|y l IH]; simpl; intros Hr Hs.
  - repeat constructor.
  - inversion Hs as [|? ? Hl Hy]; subst.
    inversion Hr as [|? ? Hxy Hxl]; subst.
    destruct (Qltb 0 (keyDesc x y)) eqn:E.
    + apply keyDesc_after in E.
      constructor; [auto|].
      eapply Permutation_Forall; [symmetry; apply insert_Permutation|].
      constructor; [left; exact E | exact Hy].
    + apply Qltb_ge in E. unfold keyDesc in E.
      constructor; [exact Hs|].
      assert (Hx : keyThenRank x y).
      { destruct (Qlt_le_dec (key y) (key x)) as [Hlt|Hle];
          [left; exact Hlt | right; split; [lra | exact Hxy]]. }
      constructor; [exact Hx|].
      rewrite Forall_forall in Hy, Hxl. apply Forall_forall.
      intros z Hz. specialize (Hy z Hz). specialize (Hxl z Hz).
      unfold keyThenRank, rankIncreasing in *.
      destruct (Qlt_le_dec (key z) (key x)) as [Hlt|Hle]; [left; exact Hlt|].
      right. split; [|exact Hxl].
      destruct Hx as [Hx|[Hx _]], Hy as [Hy|[Hy _]]; lra.
Qed.

Lemma sort_keyThenRank (l : list A) :
  StronglySorted rankIncreasing l ->
  StronglySorted keyThenRank (sort keyDesc l).
Proof.
  induction l as [|x l IH]; simpl; intros Hs; [constructor|].
  inversion Hs as [|? ? Hl Hx]; subst.
  apply insert_keyThenRank; [|auto].
  eapply Permutation_Forall; [symmetry; apply sort_Permutation | exact Hx].
Qed.
End SortByKey.

(** ** Rounding to the nearest double *)

Lemma pow2_pos (e : Z) : 0 < pow2 e.
Proof. apply Qpower_0_lt. reflexivity. Qed.

Lemma pow2_add (a b : Z) : pow2 (a + b) == pow2 a * pow2 b.
Proof. apply Qpower_plus. discriminate. Qed.

Lemma pow2_le (a b : Z) : (a <= b)%Z -> pow2 a <= pow2 b.
Proof. intros H. apply Qpower_le_compat_l; [exact H | discriminate]. Qed.

Lemma pow2_lt (a b : Z) : (a < b)%Z -> pow2 a < pow2 b.
Proof. intros H. apply Qpower_lt_compat_l; [exact H | reflexivity]. Qed.

Lemma pow2_lt_inv (a b : Z) : pow2 a < pow2 b -> (a < b)%Z.
Proof. intros H. eapply Qpower_lt_compat_l_inv; [exact H | reflexivity]. Qed.

Lemma pow2_Z (e : Z) : (0 <= e)%Z -> pow2 e == inject_Z (2 ^ e).
Proof. intros H. unfold pow2. now rewrite Zpower_Qpower. Qed.

Lemma Qfloor_unique (x : Q) (z : Z) :
  inject_Z z <= x -> x < inject_Z (z + 1) -> Qfloor x = z.
Proof.
  intros Hlo Hhi.
  pose proof (Qfloor_le x) as H1. pose proof (Qlt_floor x) as H2.
  assert (inject_Z (Qfloor x) < inject_Z (z + 1)) as H3 by lra.
  assert (inject_Z z < inject_Z (Qfloor x + 1)) as H4 by lra.
  rewrite <- Zlt_Qlt in H3, H4. lia.
Qed.

Lemma ilog2_spec (q : Q) :
  ~ q == 0 -> pow2 (ilog2 q) <= Qabs q /\ Qabs q < pow2 (ilog2 q + 1).
Proof.
  intros Hq. unfold ilog2.
  set (n := Z.abs (Qnum q)). set (d := Zpos (Qden q)).
  set (a := Z.log2 n). set (b := Z.log2 d).
  assert (Hn : (0 < n)%Z).
  { subst n. destruct q as [[|p|p] dq]; cbn; try lia.
    exfalso. apply Hq. reflexivity. }
  assert (Hd : (0 < d)%Z) by (subst d; lia).
  pose proof (Z.log2_spec n Hn) as [Hn1 Hn2].
  pose proof (Z.log2_spec d Hd) as [Hd1 Hd2].
  fold a in Hn1, Hn2. fold b in Hd1, Hd2.
  pose proof (Z.log2_nonneg n) as Ha. pose proof (Z.log2_nonneg d) as Hb.
  fold a in Ha. fold b in Hb.
  assert (Hval : Qabs q * inject_Z d == inject_Z n).
  { subst n d. destruct q as [nq dq]. unfold Qabs, Qeq, Qmult, inject_Z. cbn.
    lia. }
  rewrite Zle_Qle in Hn1, Hd1. rewrite Zlt_Qlt in Hn2, Hd2.
  rewrite <- pow2_Z in Hn1, Hn2, Hd1, Hd2 by lia.
  pose proof (Qabs_nonneg q) as Hq0.
  assert (Hup : Qabs q < pow2 (a - b + 1)).
  { apply (Qmult_lt_r _ _ (pow2 b)); [apply pow2_pos|].
    rewrite <- pow2_add. replace (a - b + 1 + b)%Z with (Z.succ a) by lia.
    assert (Qabs q * pow2 b <= Qabs q * inject_Z d)
      by (rewrite !(Qmult_comm (Qabs q)); apply Qmult_le_compat_r; lra).
    lra. }
  assert (Hlo : pow2 (a - b - 1) <= Qabs q).
  { apply (Qmult_le_r _ _ (pow2 (Z.succ b))); [apply pow2_pos|].
    rewrite <- pow2_add. replace (a - b - 1 + Z.succ b)%Z with a by lia.
    assert (Qabs q * inject_Z d <= Qabs q * pow2 (Z.succ b))
      by (rewrite !(Qmult_comm (Qabs q)); apply Qmult_le_compat_r; lra).
    lra. }
  destruct (Qle_bool (pow2 (a - b)) (Qabs q)) eqn:E.
  - apply Qle_bool_iff in E. split; assumption.
  - assert (Qabs q < pow2 (a - b)).
    { apply Qnot_le_lt. intros H. apply Qle_bool_iff in H. congruence. }
    replace (a - b - 1 + 1)%Z with (a - b)%Z by lia. split; assumption.
Qed.

Lemma ilog2_unique (q : Q) (e : Z) :
  pow2 e <= Qabs q -> Qabs q < pow2 (e + 1) -> ilog2 q = e.
Proof.
  intros Hlo Hhi.
  assert (Hq : ~ q == 0).
  { intros H. rewrite H in Hlo. pose proof (pow2_pos e).
    change (Qabs 0) with 0 in Hlo. lra. }
  destruct (ilog2_spec q Hq) as [H1 H2].
  assert (pow2 e < pow2 (ilog2 q + 1)) as A by lra.
  assert (pow2 (ilog2 q) < pow2 (e + 1)) as B by lra.
  apply pow2_lt_inv in A, B. lia.
Qed.

Lemma ilog2_comp (x y : Q) : ~ x == 0 -> x == y -> ilog2 x = ilog2 y.
Proof.
  intros Hx Hxy. destruct (ilog2_spec x Hx) as [H1 H2].
  symmetry. apply ilog2_unique; rewrite <- Hxy; assumption.
Qed.

Lemma ilog2_le (x y : Q) : 0 < x -> x <= y -> (ilog2 x <= ilog2 y)%Z.
Proof.
  intros Hx Hxy.
  destruct (ilog2_spec x) as [H1 _]; [lra|].
  destruct (ilog2_spec y) as [_ H2]; [lra|].
  rewrite Qabs_pos in H1, H2 by lra.
  assert (pow2 (ilog2 x) < pow2 (ilog2 y + 1)) as A by lra.
  apply pow2_lt_inv in A. lia.
Qed.

Lemma roundEven_floor (q : Q) :
  roundEven q = Qfloor q \/ roundEven q = (Qfloor q + 1)%Z.
Proof.
  unfold roundEven. destruct (Qcompare _ _); [destruct (Z.even _)|..]; auto.
Qed.

Lemma roundEven_comp (x y : Q) : x == y -> roundEven x = roundEven y.
Proof.
  intros H. unfold roundEven. rewrite (Qfloor_comp x y H).
  assert (Hc : Qcompare (x - inject_Z (Qfloor y)) (1 # 2)
               = Qcompare (y - inject_Z (Qfloor y)) (1 # 2))
    by (apply Qcompare_comp; [rewrite H; reflexivity | reflexivity]).
  now rewrite Hc.
Qed.

Lemma roundEven_Z (z : Z) : roundEven (inject_Z z) = z.
Proof.
  unfold roundEven. rewrite Qfloor_Z.
  replace (Qcompare (inject_Z z - inject_Z z) (1 # 2)) with Lt; [reflexivity|].
  symmetry. apply (proj1 (Qlt_alt _ _)).
  assert (H : inject_Z z - inject_Z z == 0) by ring.
  rewrite H. reflexivity.
Qed.

Lemma roundEven_le (x y : Q) : x <= y -> (roundEven x <= roundEven y)%Z.
Proof.
  intros Hxy. pose proof (Qfloor_resp_le x y Hxy) as Hf.
  destruct (Z.eq_dec (Qfloor x) (Qfloor y)) as [E|E].
  - unfold roundEven. rewrite <- E.
    destruct (Qcompare_spec (x - inject_Z (Qfloor x)) (1 # 2)),
             (Qcompare_spec (y - inject_Z (Qfloor x)) (1 # 2));
      try destruct (Z.even (Qfloor x)); try lia; exfalso; lra.
  - destruct (roundEven_floor x) as [-> | ->],
             (roundEven_floor y) as [-> | ->]; lia.
Qed.

Lemma roundEven_opp (q : Q) : roundEven (- q) = (- roundEven q)%Z.
Proof.
  pose proof (Qfloor_le q) as H1. pose proof (Qlt_floor q) as H2.
  rewrite inject_Z_plus in H2. change (inject_Z 1) with 1 in H2.
  destruct (Qeq_dec q (inject_Z (Qfloor q))) as [E|E].
  - rewrite (roundEven_comp (- q) (inject_Z (- Qfloor q))).
    + rewrite (roundEven_comp q _ E). now rewrite !roundEven_Z.
    + rewrite inject_Z_opp. now rewrite <- E.
  - assert (Hf : Qfloor (- q) = (- Qfloor q - 1)%Z).
    { apply Qfloor_unique.
      - unfold Z.sub. rewrite inject_Z_plus, !inject_Z_opp.
        change (inject_Z 1) with 1. lra.
      - replace (- Qfloor q - 1 + 1)%Z with (- Qfloor q)%Z by lia.
        rewrite inject_Z_opp.
        assert (inject_Z (Qfloor q) < q).
        { apply Qle_lteq in H1. destruct H1 as [H1|H1]; [exact H1|].
          exfalso. apply E. now symmetry. }
        lra. }
    unfold roundEven. rewrite Hf.
    unfold Z.sub. rewrite inject_Z_plus, !inject_Z_opp.
    change (inject_Z 1) with 1.
    rewrite Z.even_add, !Z.even_opp. cbn [Z.even].
    destruct (Qcompare_spec (q - inject_Z (Qfloor q)) (1 # 2)),
             (Qcompare_spec (- q - (- inject_Z (Qfloor q) + - (1))) (1 # 2));
      try (exfalso; lra); destruct (Z.even (Qfloor q)); cbn; lia.
Qed.

Lemma ulpExp_opp (q : Q) : ulpExp (- q) = ulpExp q.
Proof.
  unfold ulpExp, ilog2. destruct q as [n d]. unfold Qopp, Qabs.
  cbn [Qnum Qden]. now rewrite Z.abs_opp.
Qed.

Lemma Qeq_bool_comp (x y z : Q) : x == y -> Qeq_bool x z = Qeq_bool y z.
Proof.
  intros H. destruct (Qeq_bool x z) eqn:E1, (Qeq_bool y z) eqn:E2;
    try reflexivity.
  - apply Qeq_bool_iff in E1. rewrite H in E1. apply Qeq_bool_iff in E1.
    congruence.
  - apply Qeq_bool_iff in E2. rewrite <- H in E2. apply Qeq_bool_iff in E2.
    congruence.
Qed.

Lemma fl_comp (x y : Q) : x == y -> fl x = fl y.
Proof.
  intros H. unfold fl. rewrite (Qeq_bool_comp x y 0 H).
  destruct (Qeq_bool y 0) eqn:E; [reflexivity|].
  assert (Hx : ~ x == 0).
  { intros Hx. rewrite H in Hx. apply Qeq_bool_iff in Hx. congruence. }
  unfold ulpExp. rewrite (ilog2_comp x y Hx H).
  apply Qred_complete.
  rewrite (roundEven_comp (x / _) (y / pow2 (Z.max (ilog2 y - 52) (-1074)))).
  - reflexivity.
  - now rewrite H.
Qed.

Lemma fl_0 : fl 0 = 0.
Proof. reflexivity. Qed.

Lemma fl_zero (x : Q) : x == 0 -> fl x = 0.
Proof. intros H. now rewrite (fl_comp x 0 H). Qed.

(** The value of [fl x] for [x <> 0]. *)
Lemma fl_value (x : Q) :
  ~ x == 0 ->
  fl x == inject_Z (roundEven (x / pow2 (ulpExp x))) * pow2 (ulpExp x).
Proof.
  intros H. unfold fl.
  destruct (Qeq_bool x 0) eqn:E; [apply Qeq_bool_iff in E; contradiction|].
  apply Qred_correct.
Qed.

Lemma fl_opp (x : Q) : fl (- x) == - fl x.
Proof.
  destruct (Qeq_dec x 0) as [E|E].
  - rewrite (fl_zero x E), (fl_zero (- x)); [reflexivity|]. lra.
  - rewrite !fl_value by lra. rewrite ulpExp_opp.
    rewrite (roundEven_comp (- x / pow2 (ulpExp x)) (- (x / pow2 (ulpExp x)))).
    + rewrite roundEven_opp, inject_Z_opp. ring.
    + pose proof (pow2_pos (ulpExp x)). field. lra.
Qed.

Lemma fl_nonneg (x : Q) : 0 <= x -> 0 <= fl x.
Proof.
  intros H. destruct (Qeq_dec x 0) as [E|E]; [now rewrite (fl_zero x E)|].
  rewrite fl_value by exact E. pose proof (pow2_pos (ulpExp x)) as Hp.
  apply Qmult_le_0_compat; [|lra].
  change 0 with (inject_Z 0). rewrite <- Zle_Qle.
  rewrite <- (roundEven_Z 0). apply roundEven_le.
  change (inject_Z 0) with 0. apply Qle_shift_div_l; lra.
Qed.

Lemma ulpExp_le (x y : Q) : 0 < x -> x <= y -> (ulpExp x <= ulpExp y)%Z.
Proof.
  intros Hx Hxy. unfold ulpExp. pose proof (ilog2_le x y Hx Hxy). lia.
Qed.

Lemma div_pow2 (a b : Z) : pow2 a / pow2 b == pow2 (a - b).
Proof. unfold pow2. rewrite Qpower_minus; [reflexivity | discriminate]. Qed.

Lemma fl_le_pos (x y : Q) : 0 < x -> x <= y -> fl x <= fl y.
Proof.
  intros Hx Hxy.
  rewrite !fl_value by lra.
  pose proof (ulpExp_le x y Hx Hxy) as Hu.
  pose proof (pow2_pos (ulpExp x)) as Hpx.
  pose proof (pow2_pos (ulpExp y)) as Hpy.
  destruct (Z.eq_dec (ulpExp x) (ulpExp y)) as [E|E].
  - rewrite <- E. apply Qmult_le_compat_r; [|lra].
    rewrite <- Zle_Qle. apply roundEven_le.
    apply Qmult_le_compat_r; [exact Hxy|].
    apply Qlt_le_weak, Qinv_lt_0_compat. exact Hpx.
  - assert (Hlt : (ulpExp x < ulpExp y)%Z) by lia.
    destruct (ilog2_spec x) as [_ Hx2]; [lra|].
    destruct (ilog2_spec y) as [Hy1 _]; [lra|].
    rewrite Qabs_pos in Hx2, Hy1 by lra.
    assert (Huy : ulpExp y = (ilog2 y - 52)%Z) by (unfold ulpExp in *; lia).
    assert (Hex : (ilog2 x + 1 <= ilog2 y)%Z) by (unfold ulpExp in *; lia).
    pose proof (pow2_le _ _ Hex) as Hb.
    apply (Qle_trans _ (pow2 (ilog2 y))).
    + (* fl x <= B *)
      assert (Hk : (0 <= ilog2 y - ulpExp x)%Z) by lia.
      assert (Hr : (roundEven (x / pow2 (ulpExp x))
                    <= 2 ^ (ilog2 y - ulpExp x))%Z).
      { rewrite <- (roundEven_Z (2 ^ (ilog2 y - ulpExp x))).
        apply roundEven_le. rewrite <- pow2_Z by exact Hk.
        rewrite <- div_pow2. apply Qmult_le_compat_r; [lra|].
        apply Qlt_le_weak, Qinv_lt_0_compat. exact Hpx. }
      rewrite Zle_Qle in Hr. rewrite <- pow2_Z in Hr by exact Hk.
      rewrite <- div_pow2 in Hr.
      apply (Qmult_le_compat_r _ _ (pow2 (ulpExp x))) in Hr; [|lra].
      eapply Qle_trans; [exact Hr|]. apply Qle_lteq. right. field. lra.
    + (* B <= fl y *)
      assert (Hr : (2 ^ 52 <= roundEven (y / pow2 (ulpExp y)))%Z).
      { rewrite <- (roundEven_Z (2 ^ 52)) at 1.
        apply roundEven_le. rewrite <- pow2_Z by lia.
        replace 52%Z with (ilog2 y - ulpExp y)%Z by lia.
        rewrite <- div_pow2. apply Qmult_le_compat_r; [lra|].
        apply Qlt_le_weak, Qinv_lt_0_compat. exact Hpy. }
      rewrite Zle_Qle in Hr. rewrite <- pow2_Z in Hr by lia.
      apply (Qmult_le_compat_r _ _ (pow2 (ulpExp y))) in Hr; [|lra].
      eapply Qle_trans; [|exact Hr]. apply Qle_lteq. right.
      rewrite <- pow2_add. now replace (52 + ulpExp y)%Z with (ilog2 y) by lia.
Qed.

(** Rounding is monotone. *)
Lemma fl_le (x y : Q) : x <= y -> fl x <= fl y.
Proof.
  intros Hxy. destruct (Qlt_le_dec 0 x) as [Hx|Hx].
  - now apply fl_le_pos.
  - destruct (Qlt_le_dec y 0) as [Hy|Hy].
    + assert (H : fl (- y) <= fl (- x)) by (apply fl_le_pos; lra).
      rewrite !fl_opp in H. lra.
    + assert (H1 : 0 <= fl (- x)) by (apply fl_nonneg; lra).
      pose proof (fl_nonneg y Hy) as H2. rewrite fl_opp in H1. lra.
Qed.

(** A multiple [m * 2^k] with [|m| <= 2^53] and [k >= -1074] is a double. *)
Lemma fl_exact (m k : Z) :
  (Z.abs m <= 2 ^ 53)%Z -> (-1074 <= k)%Z ->
  fl (inject_Z m * pow2 k) == inject_Z m * pow2 k.
Proof.
  intros Hm Hk. set (x := inject_Z m * pow2 k).
  pose proof (pow2_pos k) as Hpk.
  destruct (Z.eq_dec m 0) as [->|Hm0].
  { rewrite (fl_zero x); subst x; ring. }
  assert (Hx : ~ x == 0).
  { subst x. intros H. apply Qmult_integral in H as [H|H].
    - change 0 with (inject_Z 0) in H.
      apply (proj1 (inject_Z_injective _ _)) in H. lia.
    - lra. }
  rewrite fl_value by exact Hx.
  set (a := Z.log2 (Z.abs m)).
  assert (Ha : (0 < Z.abs m)%Z) by lia.
  pose proof (Z.log2_spec _ Ha) as [Ha1 Ha2]. fold a in Ha1, Ha2.
  pose proof (Z.log2_nonneg (Z.abs m)) as Ha0. fold a in Ha0.
  assert (Habs : Qabs x == inject_Z (Z.abs m) * pow2 k).
  { subst x. rewrite Qabs_Qmult, (Qabs_pos (pow2 k)) by lra.
    reflexivity. }
  assert (He : ilog2 x = (a + k)%Z).
  { apply ilog2_unique; rewrite Habs.
    - rewrite pow2_add. apply Qmult_le_compat_r; [|lra].
      rewrite pow2_Z by lia. now rewrite <- Zle_Qle.
    - replace (a + k + 1)%Z with (Z.succ a + k)%Z by lia.
      rewrite pow2_add. apply Qmult_lt_compat_r; [lra|].
      rewrite pow2_Z by lia. now rewrite <- Zlt_Qlt. }
  assert (Ha53 : (a <= 53)%Z).
  { destruct (Z.le_gt_cases a 53) as [H|H]; [exact H|].
    exfalso. assert (2 ^ 54 <= 2 ^ a)%Z by (apply Z.pow_le_mono_r; lia).
    assert (2 ^ 53 < 2 ^ 54)%Z by reflexivity. lia. }
  set (u := ulpExp x).
  assert (Hu : u = Z.max (a + k - 52) (-1074)) by (subst u; unfold ulpExp; now rewrite He).
  pose proof (pow2_pos u) as Hpu.
  assert (Hint : exists z, x / pow2 u == inject_Z z).
  { destruct (Z.le_gt_cases u k) as [Hle|Hgt].
    - exists (m * 2 ^ (k - u))%Z. subst x.
      rewrite inject_Z_mult, <- pow2_Z by lia. rewrite <- div_pow2.
      field. lra.
    - assert (Ha' : a = 53%Z) by lia.
      assert (Hm53 : Z.abs m = (2 ^ 53)%Z).
      { rewrite Ha' in Ha1. lia. }
      assert (Hu1 : u = (k + 1)%Z) by lia.
      exists (m / 2)%Z. subst x. rewrite Hu1, pow2_add.
      assert (m = 2 * (m / 2))%Z as Hm2.
      { destruct (Z.abs_eq_or_opp m) as [E|E]; rewrite Hm53 in E.
        - rewrite <- E. reflexivity.
        - replace m with (- 2 ^ 53)%Z by lia. reflexivity. }
      rewrite Hm2 at 1. rewrite inject_Z_mult.
      change (pow2 1) with 2. change (inject_Z 2) with 2. field. lra. }
  destruct Hint as (z & Hz).
  rewrite (roundEven_comp _ _ Hz), roundEven_Z, <- Hz. field. lra.
Qed.

Lemma roundEven_bound (q : Q) (b : Z) :
  Qabs q <= inject_Z b -> (Z.abs (roundEven q) <= b)%Z.
Proof.
  intros H. apply Qabs_Qle_condition in H as [H1 H2].
  rewrite <- inject_Z_opp in H1.
  apply roundEven_le in H1, H2. rewrite roundEven_Z in H1, H2. lia.
Qed.

Lemma fl_canon (x : Q) : Qred (fl x) = fl x.
Proof.
  unfold fl. destruct (Qeq_bool x 0); [reflexivity|].
  apply Qred_complete, Qred_correct.
Qed.

Lemma fl_eq (x y : Q) : fl x == fl y -> fl x = fl y.
Proof.
  intros H. rewrite <- (fl_canon x), <- (fl_canon y).
  now apply Qred_complete.
Qed.

(** The result of a rounding is a double. *)
Lemma fl_idem (x : Q) : fl (fl x) = fl x.
Proof.
  destruct (Qeq_dec x 0) as [E|E]; [now rewrite (fl_zero x E)|].
  apply fl_eq.
  pose proof (fl_value x E) as Hv.
  rewrite (fl_comp _ _ Hv).
  set (u := ulpExp x) in *. pose proof (pow2_pos u) as Hpu.
  assert (Hm : (Z.abs (roundEven (x / pow2 u)) <= 2 ^ 53)%Z).
  { apply roundEven_bound.
    destruct (ilog2_spec x E) as [_ H2].
    unfold Qdiv. rewrite Qabs_Qmult, (Qabs_pos (/ pow2 u))
      by (apply Qlt_le_weak, Qinv_lt_0_compat; exact Hpu).
    rewrite <- pow2_Z by lia.
    apply Qle_shift_div_r; [exact Hpu|]. rewrite <- pow2_add.
    eapply Qle_trans; [apply Qlt_le_weak; exact H2|].
    apply pow2_le. subst u. unfold ulpExp. lia. }
  assert (Hk : (-1074 <= u)%Z) by (subst u; unfold ulpExp; lia).
  rewrite (fl_exact _ _ Hm Hk). now rewrite Hv.
Qed.

Lemma fl_Z (z : Z) : (Z.abs z <= 2 ^ 53)%Z -> fl (inject_Z z) == inject_Z z.
Proof.
  intros H. pose proof (fl_exact z 0 H ltac:(lia)) as E.
  change (pow2 0) with 1 in E.
  rewrite (fl_comp (inject_Z z) (inject_Z z * 1)) by ring.
  rewrite E. ring.
Qed.

Lemma fl_1 : fl 1 == 1.
Proof. vm_compute. reflexivity. Qed.

Lemma fl_unit (x : Q) : 0 <= x -> x <= 1 -> 0 <= fl x /\ fl x <= 1.
Proof.
  intros H0 H1. split; [now apply fl_nonneg|].
  rewrite <- fl_1. now apply fl_le.
Qed.

(** ** Decimal digits *)

Lemma digitsVal_from (v : N) (ds : jsstring) :
  fold_left digitStep ds v
  = (v * 10 ^ N.of_nat (length ds) + digitsVal ds)%N.
Proof.
  unfold digitsVal. fold digitStep.
  revert v. induction ds as [|c ds IH]; intros v.
  - simpl. lia.
  - cbn [fold_left length]. rewrite IH, (IH (digitStep 0 c)).
    rewrite Nat2N.inj_succ, N.pow_succ_r'. unfold digitStep.
    generalize (c - 48)%N (10 ^ N.of_nat (length ds))%N (digitsVal ds).
    intros d p w. ring.
Qed.

Lemma digitsVal_app (a b : jsstring) :
  digitsVal (a ++ b)
  = (digitsVal a * 10 ^ N.of_nat (length b) + digitsVal b)%N.
Proof.
  unfold digitsVal at 1. fold digitStep.
  rewrite fold_left_app. apply digitsVal_from.
Qed.

Lemma digitsVal_zeros (k : nat) (m : jsstring) :
  digitsVal (repeat 48%N k ++ m) = digitsVal m.
Proof.
  induction k as [|k IH]; [reflexivity|].
  cbn [repeat app]. unfold digitsVal in *. cbn [fold_left]. exact IH.
Qed.

Lemma isDigit_mod10 (n : N) : isDigit (48 + n mod 10) = true.
Proof.
  pose proof (N.mod_upper_bound n 10 ltac:(discriminate)) as H.
  revert H. generalize (n mod 10)%N. intros r H.
  unfold isDigit, between. apply andb_true_iff.
  split; apply N.leb_le; lia.
Qed.

Lemma digitsFuel_spec (fuel : nat) (n : N) (acc : jsstring) :
  exists ds,
    digitsFuel (S fuel) n acc = ds ++ acc
    /\ Forall (fun c => isDigit c = true) ds
    /\ ds <> []
    /\ ((n < 10 ^ N.of_nat (S fuel))%N -> digitsVal ds = n).
Proof.
  revert n acc. induction fuel as [|fuel IH]; intros n acc.
  - exists [(48 + n mod 10)%N]. cbn [digitsFuel].
    split; [destruct (n / 10 =? 0)%N; reflexivity|].
    split; [repeat constructor; apply isDigit_mod10|].
    split; [discriminate|].
    intros Hn. change (10 ^ N.of_nat 1)%N with 10%N in Hn.
    unfold digitsVal. cbn [fold_left].
    rewrite N.mod_small by exact Hn. lia.
  - remember (S fuel) as fuel1 eqn:Hf.
    cbn [digitsFuel].
    destruct (n / 10 =? 0)%N eqn:E.
    + exists [(48 + n mod 10)%N].
      split; [reflexivity|].
      split; [repeat constructor; apply isDigit_mod10|].
      split; [discriminate|].
      intros _. apply N.eqb_eq in E.
      unfold digitsVal. cbn [fold_left].
      pose proof (N.div_mod n 10 ltac:(lia)). lia.
    + subst fuel1.
      destruct (IH (n / 10)%N ((48 + n mod 10)%N :: acc))
        as (ds & Heq & Hd & Hne & Hv).
      exists (ds ++ [(48 + n mod 10)%N]).
      split; [rewrite Heq, <- app_assoc; reflexivity|].
      split; [apply Forall_app; split;
              [exact Hd | repeat constructor; apply isDigit_mod10]|].
      split; [destruct ds; discriminate|].
      intros Hn. rewrite digitsVal_app. rewrite Hv.
      * unfold digitsVal. cbn [fold_left length].
        change (10 ^ N.of_nat 1)%N with 10%N.
        pose proof (N.div_mod n 10 ltac:(discriminate)) as Hdm.
        clear -Hdm. revert Hdm.
        generalize (n / 10)%N (n mod 10)%N. intros q r Hdm. lia.
      * rewrite Nat2N.inj_succ, N.pow_succ_r' in Hn.
        apply N.Div0.div_lt_upper_bound. lia.
Qed.

Lemma decimal_spec (n : N) :
  Forall (fun c => isDigit c = true) (decimal n)
  /\ decimal n <> []
  /\ digitsVal (decimal n) = n.
Proof.
  unfold decimal.
  destruct (digitsFuel_spec (N.to_nat (N.log2 n)) n [])
    as (ds & Heq & Hd & Hne & Hv).
  rewrite app_nil_r in Heq. rewrite Heq.
  split; [exact Hd|]. split; [exact Hne|].
  apply Hv. rewrite Nat2N.inj_succ, N2Nat.id.
  destruct (N.eq_dec n 0) as [->|Hn0]; [reflexivity|].
  pose proof (N.log2_spec n ltac:(lia)) as [_ Hlt].
  eapply N.lt_le_trans; [exact Hlt|].
  apply N.pow_le_mono_l. lia.
Qed.

(** ** [toFixed] and [parseFloat] *)

Lemma pow10_pos (f : nat) : 0 < pow10 f.
Proof.
  unfold pow10. change 0 with (inject_Z 0). rewrite <- Zlt_Qlt.
  apply Z.pow_pos_nonneg; lia.
Qed.

Lemma spanDigits_digits (ds rest : jsstring) :
  Forall (fun c => isDigit c = true) ds ->
  match rest with c :: _ => isDigit c = false | [] => True end ->
  spanDigits (ds ++ rest) = (ds, rest).
Proof.
  intros Hd Hr. induction Hd as [|c ds Hc Hd IH]; cbn [app spanDigits].
  - destruct rest as [|c r]; [reflexivity|].
    cbn [spanDigits]. now rewrite Hr.
  - now rewrite Hc, IH.
Qed.

Lemma isDigit_not_minus (c : N) : isDigit c = true -> (c =? 45)%N = false.
Proof.
  unfold isDigit, between. intros H. apply andb_true_iff in H as [H1 H2].
  apply N.leb_le in H1. apply N.eqb_neq. lia.
Qed.

(** The digits that [toFixed] splits around the point. *)
Lemma toFixed_digits (n : N) (f : nat) :
  let m := decimal n in
  let k := length m in
  let m' := if (k <=? S f)%nat then repeat 48%N (S f + 1 - k) ++ m else m in
  Forall (fun c => isDigit c = true) m'
  /\ digitsVal m' = n
  /\ (S f < length m')%nat.
Proof.
  intros m k m'. destruct (decimal_spec n) as (Hd & Hne & Hv).
  subst m'. destruct (k <=? S f)%nat eqn:E.
  - apply Nat.leb_le in E.
    split; [apply Forall_app; split; [|exact Hd];
            induction (S f + 1 - k)%nat; simpl; constructor; auto|].
    split; [rewrite digitsVal_zeros; exact Hv|].
    rewrite length_app, repeat_length. fold m k. lia.
  - apply Nat.leb_gt in E. fold m. auto.
Qed.

Lemma decimalValue_point (neg : bool) (a b : jsstring) :
  Forall (fun c => isDigit c = true) a ->
  Forall (fun c => isDigit c = true) b ->
  a <> [] ->
  decimalValue ((if neg then [45%N] else []) ++ a ++ 46%N :: b)
  == (if neg then -1 else 1)
     * (inject_Z (Z.of_N (digitsVal (a ++ b))) / pow10 (length b)).
Proof.
  intros Ha Hb Hne.
  assert (Hsa : spanDigits (a ++ 46%N :: b) = (a, 46%N :: b))
    by (apply spanDigits_digits; [exact Ha | reflexivity]).
  assert (Hsb : spanDigits b = (b, [])).
  { rewrite <- (app_nil_r b) at 1. now apply spanDigits_digits. }
  assert (Hv : inject_Z (Z.of_N (digitsVal a))
               + inject_Z (Z.of_N (digitsVal b)) / pow10 (length b)
               == inject_Z (Z.of_N (digitsVal (a ++ b))) / pow10 (length b)).
  { rewrite digitsVal_app, N2Z.inj_add, N2Z.inj_mul, N2Z.inj_pow.
    rewrite nat_N_Z, inject_Z_plus, inject_Z_mult.
    change (Z.of_N 10) with 10%Z. fold (pow10 (length b)).
    pose proof (pow10_pos (length b)) as Hp. revert Hp.
    generalize (pow10 (length b)) (inject_Z (Z.of_N (digitsVal a)))
               (inject_Z (Z.of_N (digitsVal b))).
    intros p u w Hp. field. lra. }
  unfold decimalValue. destruct neg; cbn [app].
  - cbn [N.eqb Pos.eqb]. rewrite Hsa. cbn [N.eqb Pos.eqb].
    rewrite Hsb. cbn [fst]. rewrite Hv.
    generalize (inject_Z (Z.of_N (digitsVal (a ++ b))) / pow10 (length b)).
    intros t. ring.
  - destruct a as [|c a']; [congruence|].
    cbn [app]. inversion Ha as [|? ? Hc Ha']; subst.
    rewrite (isDigit_not_minus c Hc).
    change (c :: a' ++ 46%N :: b) with ((c :: a') ++ 46%N :: b).
    rewrite Hsa. cbn [N.eqb Pos.eqb]. rewrite Hsb. cbn [fst].
    rewrite Hv.
    rewrite Qmult_1_l. reflexivity.
Qed.

(** The literal [x.toFixed(f)] denotes [x] rounded to [f] decimals. *)
Lemma decimalValue_toFixed (x : number) (f : nat) :
  (0 < f)%nat -> decimalValue (toFixed x f) == roundDecimal x f.
Proof.
  intros Hf. destruct f as [|f]; [lia|]. clear Hf.
  unfold toFixed, roundDecimal.
  set (z := Qfloor (Qabs x * pow10 (S f) + (1 # 2))).
  assert (Hz : (0 <= z)%Z).
  { subst z. change 0%Z with (Qfloor 0). apply Qfloor_resp_le.
    pose proof (Qabs_nonneg x). pose proof (pow10_pos (S f)).
    assert (0 <= Qabs x * pow10 (S f)) by (apply Qmult_le_0_compat; lra).
    lra. }
  destruct (toFixed_digits (Z.to_N z) f) as (Hd & Hv & Hlen).
  cbv zeta in Hd, Hv, Hlen.
  set (m := if (length (decimal (Z.to_N z)) <=? S f)%nat
            then repeat 48%N (S f + 1 - length (decimal (Z.to_N z)))
                 ++ decimal (Z.to_N z)
            else decimal (Z.to_N z)) in *.
  cbv zeta.
  set (a := firstn (length m - S f) m).
  set (b := skipn (length m - S f) m).
  assert (Hab : a ++ b = m) by apply firstn_skipn.
  assert (Hlb : length b = S f) by (subst b; rewrite length_skipn; lia).
  assert (Hla : a <> []).
  { intros Ha. apply (f_equal (@length N)) in Ha. subst a.
    rewrite length_firstn in Ha. simpl in Ha. lia. }
  assert (Hda : Forall (fun c => isDigit c = true) a)
    by (rewrite <- Hab in Hd; apply Forall_app in Hd; tauto).
  assert (Hdb : Forall (fun c => isDigit c = true) b)
    by (rewrite <- Hab in Hd; apply Forall_app in Hd; tauto).
  pose proof (decimalValue_point (Qltb x 0) a b Hda Hdb Hla) as Hp.
  rewrite Hab, Hv, Hlb, Z2N.id in Hp by exact Hz.
  destruct (Qltb x 0); cbn [app] in Hp; rewrite Hp; ring.
Qed.

(** [parseFloat(x.toFixed(f))] is the double nearest to [x] rounded to [f]
    decimals. *)
Lemma parseFloat_toFixed (x : number) (f : nat) :
  (0 < f)%nat -> parseFloat (toFixed x f) = roundFixed x f.
Proof.
  intros Hf. unfold parseFloat, roundFixed.
  now apply fl_comp, decimalValue_toFixed.
Qed.

(* ===================================================================== *)
(** * lib/similarity.ts : properties *)
(* ===================================================================== *)

Lemma dotLoop_shift (a b : number) (v1 v2 : list number) (n s : nat)
    (acc : number) :
  fold_left (dotStep (a :: v1) (b :: v2)) (seq (S s) n) acc
  = fold_left (dotStep v1 v2) (seq s n) acc.
Proof.
  revert s acc. induction n as [|n IH]; intros s acc; [reflexivity|].
  cbn [seq fold_left]. rewrite IH. reflexivity.
Qed.

Lemma dotLoop_dotProduct (v1 v2 : list number) (acc : number) :
  length v1 = length v2 ->
  fold_left (dotStep v1 v2) (seq 0 (length v1)) acc
  = dotFrom acc v1 v2.
Proof.
  revert v2 acc. induction v1 as [|a v1 IH]; intros [|b v2] acc Hlen;
    try discriminate.
  - reflexivity.
  - cbn [length seq fold_left]. rewrite dotLoop_shift.
    rewrite IH by (simpl in Hlen; congruence).
    reflexivity.
Qed.

(** C9. For two vectors of equal length [cosineSimilarity] returns their
    dot product, the plain sum of the pointwise products; it throws, with
    an [Error], exactly when the lengths differ. *)
Theorem cosineSimilarity_dot_or_error (vec1 vec2 : list number) :
  (length vec1 = length vec2 ->
   exists d, cosineSimilarity vec1 vec2 = Return d
             /\ d == dotProduct vec1 vec2)
  /\ ((exists e, cosineSimilarity vec1 vec2 = Throw e)
      <-> length vec1 <> length vec2)
  /\ (length vec1 <> length vec2 ->
      exists message, cosineSimilarity vec1 vec2 = Throw (Error message)).
Proof.
  unfold cosineSimilarity.
  destruct (length vec1 =? length vec2)%nat eqn:E; cbn [negb].
  - apply Nat.eqb_eq in E. split; [|split].
    + intros _. eexists. split; [reflexivity|].
      rewrite dotLoop_dotProduct by exact E. reflexivity.
    + split; [intros [e He]; discriminate | intros H; contradiction].
    + intros H; contradiction.
  - apply Nat.eqb_neq in E. split; [|split].
    + intros H; contradiction.
    + split; [intros _; exact E | intros _; eexists; reflexivity].
    + intros _. eexists. reflexivity.
Qed.

Lemma mapM_toSearchResult (q : list number) (items : list EmbeddedItem) :
  Forall (fun item => length (embedding item) = length q) items ->
  exists scored,
    mapM (toSearchResult q) items = Return scored
    /\ Forall2 (scoredAs q) items scored.
Proof.
  induction 1 as [|item items Hd _ (scored & Hm & Hs)].
  - exists []. split; [reflexivity | constructor].
  - assert (Hok : exists d, cosineSimilarity q (embedding item) = Return d
                            /\ d == dotProduct q (embedding item)).
    { unfold cosineSimilarity.
      replace (length q =? length (embedding item))%nat with true
        by (symmetry; apply Nat.eqb_eq; now symmetry).
      cbn [negb]. eexists. split; [reflexivity|].
      rewrite dotLoop_dotProduct by (now symmetry). reflexivity. }
    destruct Hok as (d & Hc & Hdot).
    assert (Ht : toSearchResult q item
                 = Return {| id := item_id item; text := item_text item;
                             source := item_source item; score := d;
                             metadata := item_metadata item |})
      by (unfold toSearchResult; rewrite Hc; reflexivity).
    eexists. cbn [mapM]. rewrite Ht, Hm. split; [reflexivity|].
    constructor; [|exact Hs].
    repeat split; assumption.
Qed.

Lemma StronglySorted_firstn {A} (R : A -> A -> Prop) (n : nat) (l : list A) :
  StronglySorted R l -> StronglySorted R (firstn n l).
Proof.
  intros Hs. revert n. induction Hs as [|x l Hs IH Hx]; intros [|n];
    cbn [firstn]; try constructor; [apply IH|].
  rewrite <- (firstn_skipn n l) in Hx. apply Forall_app in Hx. tauto.
Qed.

Lemma slice0_firstn {A} (l : list A) (e : Z) :
  (0 <= e)%Z -> slice0 l e = firstn (Z.to_nat (Z.min e (Z.of_nat (length l)))) l.
Proof.
  intros He. unfold slice0.
  destruct (e <? 0)%Z eqn:E; [apply Z.ltb_lt in E; lia | reflexivity].
Qed.

(** C3. When every embedding of the corpus has the dimension of the query
    vector and [topK >= 0], [findMostSimilar] returns a list of length
    [min(topK, |corpus|)], in non-increasing order of score, in which the
    results of any one score are the first results of that score in corpus
    order. *)
Theorem findMostSimilar_topK (queryEmbedding : list number)
    (items : list EmbeddedItem) (topK : Z) :
  (0 <= topK)%Z ->
  Forall (fun item => length (embedding item) = length queryEmbedding)
         items ->
  exists scored out,
    Forall2 (scoredAs queryEmbedding) items scored
    /\ findMostSimilar queryEmbedding items topK = Return out
    /\ Z.of_nat (length out) = Z.min topK (Z.of_nat (length items))
    /\ StronglySorted (descending score) out
    /\ forall v, exists later,
         List.filter (keyIs score v) scored
         = List.filter (keyIs score v) out ++ later.
Proof.
  intros Hk Hdim.
  destruct (mapM_toSearchResult queryEmbedding items Hdim)
    as (scored & Hm & Hs).
  exists scored. eexists. split; [exact Hs|].
  unfold findMostSimilar. rewrite Hm. cbn.
  split; [reflexivity|].
  change byScoreDesc with (keyDesc score).
  rewrite slice0_firstn by exact Hk.
  rewrite length_sort, <- (Forall2_length _ _ _ Hs).
  set (n := Z.to_nat (Z.min topK (Z.of_nat (length items)))).
  split; [|split].
  - rewrite length_firstn, length_sort, <- (Forall2_length _ _ _ Hs).
    subst n. lia.
  - apply StronglySorted_firstn, sort_descending.
  - intros v. exists (List.filter (keyIs score v)
                        (skipn n (sort (keyDesc score) scored))).
    rewrite <- List.filter_app, firstn_skipn. symmetry. apply sort_stable.
Qed.

Lemma findMostSimilar_topK_witness :
  exists scored out,
    Forall2 (scoredAs [1; 0])
            [unitItem "a" [0; 1]; unitItem "b" [1; 0]; unitItem "c" [1; 0]]
            scored
    /\ findMostSimilar [1; 0]
         [unitItem "a" [0; 1]; unitItem "b" [1; 0]; unitItem "c" [1; 0]] 2
       = Return out
    /\ Z.of_nat (length out) = Z.min 2 (Z.of_nat 3)
    /\ StronglySorted (descending score) out
    /\ forall v, exists later,
         List.filter (keyIs score v) scored
         = List.filter (keyIs score v) out ++ later.
Proof.
  apply (findMostSimilar_topK [1; 0]
           [unitItem "a" [0; 1]; unitItem "b" [1; 0]; unitItem "c" [1; 0]] 2).
  - lia.
  - repeat constructor.
Defined.

(* ===================================================================== *)
(** * The reranker module : properties *)
(* ===================================================================== *)

Section Mapi.
Context {A B : Type} (f : A -> Z -> B).

Lemma map_mapi_from {C} (g : B -> C) (h : A -> C) (i : Z) (l : list A) :
  (forall x j, g (f x j) = h x) ->
  List.map g (mapi_from f i l) = List.map h l.
Proof.
  intros Hg. revert i. induction l as [|x l IH]; intros i; [reflexivity|].
  cbn [mapi_from List.map]. now rewrite Hg, IH.
Qed.

Lemma Forall_mapi_from (P : B -> Prop) (i : Z) (l : list A) :
  (forall x j, P (f x j)) -> Forall P (mapi_from f i l).
Proof.
  intros HP. revert i. induction l as [|x l IH]; intros i;
    cbn [mapi_from]; constructor; auto.
Qed.

Lemma length_mapi_from (i : Z) (l : list A) :
  length (mapi_from f i l) = length l.
Proof.
  revert i. induction l as [|x l IH]; intros i; [reflexivity|].
  cbn [mapi_from length]. now rewrite IH.
Qed.

(** A rank set to [index + 1] increases along the mapped array. *)
Lemma mapi_from_ranked (rank : B -> Z) (i : Z) (l : list A) :
  (forall x j, rank (f x j) = (j + 1)%Z) ->
  Forall (fun b => (i < rank b)%Z) (mapi_from f i l)
  /\ StronglySorted (rankIncreasing rank) (mapi_from f i l).
Proof.
  intros Hr. revert i. induction l as [|x l IH]; intros i; cbn [mapi_from].
  - split; constructor.
  - destruct (IH (i + 1)%Z) as [Hlt Hs]. split.
    + constructor; [rewrite Hr; lia|].
      eapply Forall_impl; [exact Hlt|]. intros b Hb. simpl in Hb. lia.
    + constructor; [exact Hs|].
      eapply Forall_impl; [exact Hlt|]. intros b Hb.
      unfold rankIncreasing. rewrite Hr. exact Hb.
Qed.
End Mapi.

Lemma result_rerankByKeywords (query : jsstring) (results : list SearchResult) :
  Permutation (List.map result (rerankByKeywords query results)) results.
Proof.
  unfold rerankByKeywords, mapi. cbv zeta.
  rewrite sort_Permutation.
  erewrite map_mapi_from; [rewrite List.map_id; reflexivity|].
  reflexivity.
Qed.

Lemma result_rerankBySemantic (query : jsstring) (results : list SearchResult) :
  Permutation (List.map result (rerankBySemantic query results)) results.
Proof.
  unfold rerankBySemantic, mapi.
  rewrite sort_Permutation.
  erewrite map_mapi_from; [rewrite List.map_id; reflexivity|].
  reflexivity.
Qed.

Lemma result_combineHybrid (keywordResults semanticResults : list RankedResult) :
  Permutation (List.map result (combineHybrid keywordResults semanticResults))
              (List.map result keywordResults).
Proof.
  unfold combineHybrid. cbv zeta. rewrite sort_Permutation.
  rewrite List.map_map. reflexivity.
Qed.

Lemma result_rerankHybrid (query : jsstring) (results : list SearchResult) :
  Permutation (List.map result (rerankHybrid query results)) results.
Proof.
  unfold rerankHybrid. cbv zeta.
  rewrite result_combineHybrid. apply result_rerankByKeywords.
Qed.

Lemma result_noneResult (results : list SearchResult) :
  List.map result (mapi noneResult results) = results.
Proof.
  unfold mapi. erewrite map_mapi_from; [apply List.map_id | reflexivity].
Qed.

Lemma result_rerankResults (query : jsstring)
    (searchResults : list SearchResult) (config : RerankerConfig) :
  Permutation (List.map result (rerankResults query searchResults config))
              searchResults.
Proof.
  unfold rerankResults.
  destruct searchResults as [|r rs]; [reflexivity|].
  cbn [length Nat.eqb].
  repeat match goal with
         | |- context [if ?b then _ else _] => destruct b
         end;
    auto using result_rerankByKeywords, result_rerankBySemantic,
               result_rerankHybrid.
  rewrite result_noneResult. reflexivity.
Qed.

(** C2. Whatever the method, the ids of the reranked list are the ids of
    the input list, each as often as in the input; in particular the two
    lists have the same length. *)
Theorem rerankResults_same_ids (query : jsstring)
    (searchResults : list SearchResult) (config : RerankerConfig) :
  Permutation
    (List.map (fun r => id (result r))
              (rerankResults query searchResults config))
    (List.map id searchResults)
  /\ length (rerankResults query searchResults config)
     = length searchResults.
Proof.
  pose proof (result_rerankResults query searchResults config) as Hp.
  split.
  - rewrite <- (List.map_map result id). now apply Permutation_map.
  - rewrite <- (length_map result). now apply Permutation_length.
Qed.

Lemma streq_false (a b : jsstring) : a <> b -> streq a b = false.
Proof. intros H. unfold streq. now apply bool_decide_eq_false. Qed.

Lemma streq_true (a b : jsstring) : a = b -> streq a b = true.
Proof. intros H. unfold streq. now apply bool_decide_eq_true. Qed.

Lemma method_combineHybrid (keywordResults semanticResults : list RankedResult) :
  Forall (fun r => rerank_method r = lit "hybrid")
         (combineHybrid keywordResults semanticResults).
Proof.
  unfold combineHybrid. cbv zeta.
  eapply Permutation_Forall; [symmetry; apply sort_Permutation|].
  apply List.Forall_map. apply Forall_true. reflexivity.
Qed.

(** C10. With a method other than the four that the [switch] names, ['llm']
    among them, [rerankResults] returns what [rerankHybrid] returns, and
    every result is labelled ['hybrid']. *)
Theorem rerankResults_unrecognized_method (query : jsstring)
    (searchResults : list SearchResult) (config : RerankerConfig) :
  cfg_rerank_method config <> lit "keyword-boost" ->
  cfg_rerank_method config <> lit "semantic-deep" ->
  cfg_rerank_method config <> lit "hybrid" ->
  cfg_rerank_method config <> lit "none" ->
  rerankResults query searchResults config
  = rerankHybrid query searchResults
  /\ Forall (fun r => rerank_method r = lit "hybrid")
            (rerankResults query searchResults config).
Proof.
  intros Hk Hs Hh Hn.
  assert (E : rerankResults query searchResults config
              = rerankHybrid query searchResults).
  { unfold rerankResults.
    rewrite !streq_false by assumption.
    destruct searchResults; reflexivity. }
  split; [exact E|].
  rewrite E. apply method_combineHybrid.
Qed.

Lemma rerankResults_unrecognized_method_witness :
  rerankResults (lit "cat dog")
    [sample "A" "7" (1 # 2) None; sample "B" "cat" (1 # 2) None]
    (withMethod "llm")
  = rerankHybrid (lit "cat dog")
      [sample "A" "7" (1 # 2) None; sample "B" "cat" (1 # 2) None]
  /\ Forall (fun r => rerank_method r = lit "hybrid")
       (rerankResults (lit "cat dog")
          [sample "A" "7" (1 # 2) None; sample "B" "cat" (1 # 2) None]
          (withMethod "llm")).
Proof.
  apply (rerankResults_unrecognized_method (lit "cat dog")
           [sample "A" "7" (1 # 2) None; sample "B" "cat" (1 # 2) None]
           (withMethod "llm"));
    vm_compute; discriminate.
Defined.

Lemma sorted_rerankByKeywords (query : jsstring) (results : list SearchResult) :
  StronglySorted (keyThenRank rerank_score original_rank)
                 (rerankByKeywords query results).
Proof.
  unfold rerankByKeywords, mapi. cbv zeta.
  change byRerankDesc with (keyDesc rerank_score).
  apply sort_keyThenRank.
  apply (mapi_from_ranked _ original_rank). reflexivity.
Qed.

Lemma sorted_rerankBySemantic (query : jsstring) (results : list SearchResult) :
  StronglySorted (keyThenRank rerank_score original_rank)
                 (rerankBySemantic query results).
Proof.
  unfold rerankBySemantic, mapi.
  change byRerankDesc with (keyDesc rerank_score).
  apply sort_keyThenRank.
  apply (mapi_from_ranked _ original_rank). reflexivity.
Qed.

Lemma keyThenRank_descending {A} (key : A -> number) (rank : A -> Z)
    (l : list A) :
  StronglySorted (keyThenRank key rank) l ->
  StronglySorted (descending key) l.
Proof.
  induction 1 as [|x l Hs IH Hx]; constructor; [exact IH|].
  eapply Forall_impl; [exact Hx|].
  intros y [Hy|[Hy _]]; unfold descending; lra.
Qed.

Lemma sorted_rerankHybrid (query : jsstring) (results : list SearchResult) :
  StronglySorted (descending rerank_score) (rerankHybrid query results).
Proof.
  unfold rerankHybrid, combineHybrid. cbv zeta.
  change byRerankDesc with (keyDesc rerank_score).
  apply sort_descending.
Qed.

(** C6, as the code has it.  The three scoring methods, and the hybrid
    method taken for an unrecognized one, return their results in
    non-increasing order of [rerank_score]; ['keyword-boost'] and
    ['semantic-deep'] keep results of equal [rerank_score] in the order of
    their [original_rank].  The ['none'] method performs no sort: it returns
    the input in its own order with [rerank_score = score]. *)
Theorem rerankResults_order (query : jsstring)
    (searchResults : list SearchResult) (config : RerankerConfig) :
  let out := rerankResults query searchResults config in
  (cfg_rerank_method config = lit "none" ->
   out = mapi noneResult searchResults)
  /\ (cfg_rerank_method config <> lit "none" ->
      StronglySorted (descending rerank_score) out)
  /\ (cfg_rerank_method config = lit "keyword-boost"
      \/ cfg_rerank_method config = lit "semantic-deep" ->
      StronglySorted (keyThenRank rerank_score original_rank) out).
Proof.
  cbv zeta. unfold rerankResults.
  destruct searchResults as [|r rs].
  - cbn [length Nat.eqb]. repeat split; intros; constructor.
  - cbn [length Nat.eqb]. split; [|split].
    + intros ->. reflexivity.
    + intros Hn. rewrite (streq_false _ (lit "none")) by exact Hn.
      destruct (streq _ (lit "keyword-boost"));
        [apply (keyThenRank_descending _ original_rank),
           sorted_rerankByKeywords|].
      destruct (streq _ (lit "semantic-deep"));
        [apply (keyThenRank_descending _ original_rank),
           sorted_rerankBySemantic|].
      destruct (streq _ (lit "hybrid")); apply sorted_rerankHybrid.
    + intros [-> | ->]; [apply sorted_rerankByKeywords
                        | apply sorted_rerankBySemantic].
Qed.

(** C6 as stated fails for the ['none'] passthrough: an input that is not
    in score order comes back in the same order. *)
Lemma rerankResults_none_unsorted :
  ~ StronglySorted (descending rerank_score)
      (rerankResults (lit "cat")
         [sample "A" "cat" (num (1 # 10)) None;
          sample "B" "dog" (num (9 # 10)) None]
         (withMethod "none")).
Proof.
  intros H.
  apply StronglySorted_inv in H as [_ H]. apply Forall_inv in H.
  vm_compute in H. apply H. reflexivity.
Qed.

(** In the hybrid method two results of equal [rerank_score] come in the
    order of the keyword pass, here the second input before the first. *)
Example rerankHybrid_tie :
  List.map (fun r => (id (result r), original_rank r))
           (rerankHybrid (lit "cat dog")
              [sample "A" "7" (1 # 2)
                 (Some {| position := 0; totalChunks := 2 |});
               sample "B" "cat" (1 # 2) None])
  = [(lit "B", 2%Z); (lit "A", 1%Z)]
  /\ Forall (fun r => rerank_score r == 1 # 2)
       (rerankHybrid (lit "cat dog")
          [sample "A" "7" (1 # 2)
             (Some {| position := 0; totalChunks := 2 |});
           sample "B" "cat" (1 # 2) None]).
Proof.
  split; [vm_compute; reflexivity|].
  remember (rerankHybrid _ _) as out eqn:E.
  vm_compute in E. subst out.
  repeat constructor.
Qed.

(** ** Keyword extraction *)



Lemma existsb_streq (w : jsstring) (l : list jsstring) :
  existsb (streq w) l = true <-> In w l.
Proof.
  rewrite existsb_exists. unfold streq. split.
  - intros (x & Hx & E). apply bool_decide_eq_true in E. now subst.
  - intros H. exists w. split; [exact H | now apply bool_decide_eq_true].
Qed.

Lemma setFold_spec (xs acc : list jsstring) :
  List.NoDup acc ->
  List.NoDup (fold_left setStep xs acc)
  /\ forall w, In w (fold_left setStep xs acc) <-> In w acc \/ In w xs.
Proof.
  revert acc. induction xs as [|x xs IH]; intros acc Hnd; cbn [fold_left].
  - split; [exact Hnd | intros w; simpl; tauto].
  - assert (Hs : List.NoDup (setStep acc x)
                 /\ forall w, In w (setStep acc x) <-> In w acc \/ w = x).
    { unfold setStep. destruct (existsb (streq x) acc) eqn:E.
      - apply existsb_streq in E. split; [exact Hnd|].
        intros w. split; [tauto | intros [H| ->]; assumption].
      - assert (Hx : ~ In x acc)
          by (rewrite <- existsb_streq; congruence).
        split.
        + apply List.NoDup_app; [exact Hnd | repeat constructor; intros []|].
          intros y Hy [<-|[]]. contradiction.
        + intros w. rewrite in_app_iff. simpl. split.
          * intros [H|[H|[]]]; auto.
          * intros [H|H]; auto. } 
    destruct Hs as [Hnd' Hin'].
    destruct (IH _ Hnd') as [Hnd'' Hin'']. split; [exact Hnd''|].
    intros w. rewrite Hin'', Hin'. simpl. split.
    + intros [[H|H]|H]; auto.
    + intros [H|[H|H]]; auto.
Qed.

Lemma setOf_spec (xs : list jsstring) :
  List.NoDup (setOf xs) /\ forall w, In w (setOf xs) <-> In w xs.
Proof.
  unfold setOf.
  destruct (setFold_spec xs [] (List.NoDup_nil _)) as [Hnd Hin].
  split; [exact Hnd|]. intros w. rewrite Hin. simpl. tauto.
Qed.













(** ** Words *)








Lemma Forall_sort {A} (comparefn : A -> A -> number) (P : A -> Prop)
    (l : list A) :
  Forall P l -> Forall P (sort comparefn l).
Proof.
  apply Permutation_Forall. symmetry. apply sort_Permutation.
Qed.



(** The product by [0.7] is rounded before the result is: with score
    [0.4005] and no matching token the keyword score is [0.2803], where the
    exact product [0.28035] would be rounded to [0.2804]. *)
Example rerankByKeywords_below_tie :
  match rerankByKeywords (lit "database")
          [sample "A" "notes" (num (4005 # 10000)) None] with
  | [r] =>
      rerank_score r == num (2803 # 10000)
      /\ roundDecimal (score (result r) * (7 # 10)) 4 == 2804 # 10000
  | _ => False
  end.
Proof. vm_compute. repeat split. Qed.

(** ** The hybrid method *)

Lemma scoreMap_fold (semanticResults : list RankedResult)
    (m : gmap (list N) number) (i : jsstring) :
  (~ In i (List.map idOf semanticResults) ->
   fold_left (fun m r => <[id (result r) := rerank_score r]> m)
             semanticResults m !! i = m !! i)
  /\ (In i (List.map idOf semanticResults) ->
      exists s, In s semanticResults /\ idOf s = i
                /\ fold_left (fun m r => <[id (result r) := rerank_score r]> m)
                             semanticResults m !! i
                   = Some (rerank_score s)).
Proof.
  revert m. induction semanticResults as [|s l IH]; intros m;
    cbn [fold_left List.map In].
  - split; [reflexivity | intros []].
  - destruct (IH (<[id (result s) := rerank_score s]> m)) as [IH1 IH2].
    destruct (List.in_dec (fun a b : list N => decide (a = b)) i
                          (List.map idOf l)) as [Hin|Hnin].
    + split; [tauto|]. intros _.
      destruct (IH2 Hin) as (s' & Hs' & Hid & Hl). eauto 6.
    + split.
      * intros Hn. rewrite (IH1 Hnin).
        apply lookup_insert_ne. unfold idOf in Hn. tauto.
      * intros [He|H]; [|contradiction].
        exists s. split; [now left|]. split; [exact He|].
        rewrite (IH1 Hnin). unfold idOf in He. rewrite He.
        apply lookup_insert_eq.
Qed.

Lemma scoreMap_lookup (semanticResults : list RankedResult) (i : jsstring) :
  (~ In i (List.map idOf semanticResults) ->
   scoreMap semanticResults !! i = None)
  /\ (In i (List.map idOf semanticResults) ->
      exists s, In s semanticResults /\ idOf s = i
                /\ scoreMap semanticResults !! i = Some (rerank_score s)).
Proof.
  unfold scoreMap.
  destruct (scoreMap_fold semanticResults ∅ i) as [H1 H2].
  split; [|exact H2]. intros H. rewrite (H1 H). apply lookup_empty.
Qed.

Lemma Qeq_bool_false (x y : Q) : ~ x == y -> Qeq_bool x y = false.
Proof.
  intros H. destruct (Qeq_bool x y) eqn:E; [|reflexivity].
  apply Qeq_bool_iff in E. contradiction.
Qed.

(** C4, as the code has it.  A hybrid result carries the candidate of a
    keyword result, and its [rerank_score] is the equal-weighted average of
    that keyword score and of the semantic score found under the same id,
    computed in double arithmetic and rounded to four decimals, when that
    semantic score is not zero.  In the
    combination step an id that is absent from the semantic results never
    aborts the computation: the candidate's own [score] stands in for the
    semantic half. *)
Theorem rerankHybrid_average (query : jsstring)
    (results : list SearchResult) :
  Forall
    (fun h =>
       exists k s,
         In k (rerankByKeywords query results)
         /\ In s (rerankBySemantic query results)
         /\ result k = result h
         /\ id (result s) = id (result h)
         /\ (~ rerank_score s == 0 ->
             rerank_score h
             == roundFixed (rerank_score k ⊗ num (5 # 10)
                            ⊕ rerank_score s ⊗ num (5 # 10)) 4))
    (rerankHybrid query results)
  /\ forall keywordResults semanticResults,
       length (combineHybrid keywordResults semanticResults)
       = length keywordResults
       /\ Forall
            (fun h =>
               exists k,
                 In k keywordResults
                 /\ result k = result h
                 /\ (~ In (id (result h)) (List.map idOf semanticResults) ->
                     rerank_score h
                     == roundFixed (rerank_score k ⊗ num (5 # 10)
                                    ⊕ score (result h) ⊗ num (5 # 10)) 4))
            (combineHybrid keywordResults semanticResults).
Proof.
  split.
  - unfold rerankHybrid, combineHybrid. cbv zeta.
    apply Forall_sort, List.Forall_map, List.Forall_forall.
    intros k Hk.
    assert (Hid : In (idOf k)
                     (List.map idOf (rerankBySemantic query results))).
    { unfold idOf at 2. rewrite <- (List.map_map result id).
      eapply Permutation_in;
        [apply Permutation_map; symmetry; apply result_rerankBySemantic|].
      eapply Permutation_in;
        [apply Permutation_map; apply (result_rerankByKeywords query)|].
      rewrite List.map_map. apply (List.in_map idOf). exact Hk. }
    destruct (scoreMap_lookup (rerankBySemantic query results) (idOf k))
      as [_ Hsome].
    destruct (Hsome Hid) as (s & Hs & Hids & Hl).
    exists k, s. split; [exact Hk|]. split; [exact Hs|].
    split; [reflexivity|]. split; [exact Hids|].
    intros Hnz. unfold hybridResult. cbn [rerank_score].
    rewrite parseFloat_toFixed by lia.
    unfold semanticOr. unfold idOf in Hl. rewrite Hl.
    rewrite (Qeq_bool_false _ _ Hnz). reflexivity.
  - intros keywordResults semanticResults.
    unfold combineHybrid. cbv zeta. split.
    + now rewrite length_sort, length_map.
    + apply Forall_sort, List.Forall_map, List.Forall_forall.
      intros k Hk. exists k. split; [exact Hk|]. split; [reflexivity|].
      unfold hybridResult. cbn [rerank_score result]. intros Hmiss.
      rewrite parseFloat_toFixed by lia.
      destruct (scoreMap_lookup semanticResults (id (result k)))
        as [Hnone _].
      unfold semanticOr. rewrite (Hnone Hmiss). reflexivity.
Qed.

(** C4 as stated fails: the average is rounded to four decimals.  With
    score [0.03676] and no boost the keyword score is [0.0257], the semantic
    score is [0.0368], and the hybrid score is [0.0313], not [0.03125],
    whether the average is computed exactly or in double arithmetic. *)
Lemma rerankHybrid_rounds :
  match rerankHybrid (lit "database")
          [sample "A" "notes" (num (3676 # 100000)) None],
        rerankByKeywords (lit "database")
          [sample "A" "notes" (num (3676 # 100000)) None],
        rerankBySemantic (lit "database")
          [sample "A" "notes" (num (3676 # 100000)) None]
  with
  | [h], [k], [s] =>
      id (result h) = id (result k) /\ id (result h) = id (result s)
      /\ rerank_score k == num (257 # 10000)
      /\ rerank_score s == num (368 # 10000)
      /\ rerank_score h == num (313 # 10000)
      /\ ~ rerank_score h
           == (5 # 10) * rerank_score k + (5 # 10) * rerank_score s
      /\ ~ rerank_score h
           == rerank_score k ⊗ num (5 # 10) ⊕ rerank_score s ⊗ num (5 # 10)
  | _, _, _ => False
  end.
Proof. vm_compute. repeat split; discriminate. Qed.

(** A semantic score of exactly zero is treated like a missing one: with
    score [-0.05] and a data boost of [0.05] the semantic score is [0] and
    the hybrid score averages the keyword score with [-0.05]. *)
Example rerankHybrid_zero_semantic :
  match rerankHybrid (lit "database")
          [sample "A" "7" (num (-5 # 100)) None],
        rerankByKeywords (lit "database")
          [sample "A" "7" (num (-5 # 100)) None],
        rerankBySemantic (lit "database")
          [sample "A" "7" (num (-5 # 100)) None]
  with
  | [h], [k], [s] =>
      rerank_score k == num (-350 # 10000)
      /\ rerank_score s == 0
      /\ rerank_score h == num (-425 # 10000)
  | _, _, _ => False
  end.
Proof. vm_compute. repeat split. Qed.

(* ===================================================================== *)
(** * lib/rag.ts : properties *)
(* ===================================================================== *)

Lemma sum_loop (results : list SearchResult) (acc : number) :
  fold_left (fun sum r => sum ⊕ score r) results acc
  = fold_left fadd (List.map score results) acc.
Proof.
  revert acc. induction results as [|r l IH]; intros acc; [reflexivity|].
  cbn [fold_left List.map]. apply IH.
Qed.

(** The products and the sum are rounded before the result is: with score
    [0.3002] and no boost the keyword score is [0.2101], the semantic score
    [0.3002] and the hybrid score [0.2551], where the exact average
    [0.25515] would be rounded to [0.2552]. *)
Example rerankHybrid_below_tie :
  match rerankHybrid (lit "database")
          [sample "A" "notes" (num (3002 # 10000)) None],
        rerankByKeywords (lit "database")
          [sample "A" "notes" (num (3002 # 10000)) None],
        rerankBySemantic (lit "database")
          [sample "A" "notes" (num (3002 # 10000)) None]
  with
  | [h], [k], [s] =>
      rerank_score k == num (2101 # 10000)
      /\ rerank_score s == num (3002 # 10000)
      /\ rerank_score h == num (2551 # 10000)
      /\ roundDecimal ((5 # 10) * rerank_score k + (5 # 10) * rerank_score s) 4
         == 2552 # 10000
  | _, _, _ => False
  end.
Proof. vm_compute. repeat split. Qed.

Lemma Math_max_cases (a b : number) :
  (Math_max a b = b /\ a <= b) \/ (Math_max a b = a /\ b <= a).
Proof.
  unfold Math_max. destruct (Qle_bool a b) eqn:E.
  - left. split; [reflexivity | now apply Qle_bool_iff].
  - right. split; [reflexivity|].
    apply Qlt_le_weak, Qltb_lt. unfold Qltb. now rewrite E.
Qed.

Lemma Math_max_of_isMax (x : number) (xs : list number) :
  isMax (x :: xs) (Math_max_of x xs).
Proof.
  unfold Math_max_of, isMax. revert x.
  induction xs as [|y xs IH]; intros x; cbn [fold_left].
  - split; [now left | repeat constructor; lra].
  - destruct (IH (Math_max x y)) as [Hin Hall].
    inversion Hall as [|? ? Hm Hxs]; subst.
    destruct (Math_max_cases x y) as [[E Hle]|[E Hle]]; rewrite E in *.
    + split; [right; exact Hin|].
      constructor; [lra | exact Hall].
    + split; [destruct Hin as [<-|Hin]; [now left | right; now right]|].
      constructor; [exact Hm|]. constructor; [lra | exact Hxs].
Qed.

Lemma isMax_unique (xs : list number) (a b : number) :
  isMax xs a -> isMax xs b -> a == b.
Proof.
  intros [Ha Hall] [Hb Hall'].
  rewrite List.Forall_forall in Hall, Hall'.
  apply Qle_antisym; auto.
Qed.

Lemma Qltb_ext (x y y' : Q) : y == y' -> Qltb x y = Qltb x y'.
Proof.
  intros H. destruct (Qltb x y) eqn:E, (Qltb x y') eqn:E';
    rewrite ?Qltb_lt, ?Qltb_ge in *; try reflexivity; exfalso; lra.
Qed.

Lemma policy_ext (m m' a a' : number) :
  m == m' -> a == a' -> policy m a = policy m' a'.
Proof.
  intros Hm Ha. unfold policy.
  now rewrite !(Qltb_ext _ m m' Hm), !(Qltb_ext _ a a' Ha).
Qed.

Lemma thresholds_ordered :
  num (3 # 10) < num (5 # 10) /\ num (5 # 10) < num (7 # 10).
Proof. split; vm_compute; reflexivity. Qed.

(** What [evaluateContextQuality] computes on a non-empty array. *)
Lemma evaluateContextQuality_policy (results : list SearchResult) :
  results <> [] ->
  exists mx,
    isMax (List.map score results) mx
    /\ quality (evaluateContextQuality results)
       = policy mx (floatMean (List.map score results))
    /\ confidence (evaluateContextQuality results)
       = match policy mx (floatMean (List.map score results)) with
         | high => num (9 # 10)
         | medium => num (6 # 10)
         | low => num (3 # 10)
         | none => 0
         end.
Proof.
  intros Hne. destruct results as [|r rest]; [congruence|].
  exists (Math_max_of (score r) (List.map score rest)).
  split; [apply Math_max_of_isMax|].
  unfold evaluateContextQuality, policy, floatMean, floatSum. cbv zeta.
  rewrite sum_loop, length_map.
  destruct (Qltb (num (7 # 10)) _ && Qltb (num (5 # 10)) _);
    [split; reflexivity|].
  destruct (Qltb (num (5 # 10)) _ && Qltb (num (3 # 10)) _); split; reflexivity.
Qed.

(** C7, as the code has it.  An empty list is classified [none] with
    confidence 0.  For a non-empty list, with [mx] the maximum of the
    scores and [avg] their mean as the function computes it, in double
    arithmetic: [mx > 0.7] and [avg > 0.5] give [high] with confidence 0.9;
    otherwise [mx > 0.5] and [avg > 0.3] give [medium] with confidence 0.6;
    otherwise the list is [low] with confidence 0.3. *)
Theorem evaluateContextQuality_thresholds (results : list SearchResult) :
  let qa := evaluateContextQuality results in
  (results = [] -> quality qa = none /\ confidence qa == 0)
  /\ (results <> [] ->
      exists mx,
        let avg := floatMean (List.map score results) in
        isMax (List.map score results) mx
        /\ (num (7 # 10) < mx /\ num (5 # 10) < avg ->
            quality qa = high /\ confidence qa == num (9 # 10))
        /\ (~ (num (7 # 10) < mx /\ num (5 # 10) < avg) ->
            num (5 # 10) < mx /\ num (3 # 10) < avg ->
            quality qa = medium /\ confidence qa == num (6 # 10))
        /\ (~ (num (7 # 10) < mx /\ num (5 # 10) < avg) ->
            ~ (num (5 # 10) < mx /\ num (3 # 10) < avg) ->
            quality qa = low /\ confidence qa == num (3 # 10))).
Proof.
  cbv zeta. split.
  - intros ->. split; reflexivity.
  - intros Hne.
    destruct (evaluateContextQuality_policy results Hne)
      as (mx & Hmax & Hq & Hc).
    exists mx. split; [exact Hmax|].
    rewrite Hq, Hc. unfold policy.
    generalize (floatMean (List.map score results)). intros avg.
    destruct (Qltb (num (7 # 10)) mx) eqn:E1,
             (Qltb (num (5 # 10)) avg) eqn:E2,
             (Qltb (num (5 # 10)) mx) eqn:E3,
             (Qltb (num (3 # 10)) avg) eqn:E4;
      cbn [andb];
      rewrite ?Qltb_lt, ?Qltb_ge in *;
      repeat split; try reflexivity; intros; exfalso; try tauto; lra.
Qed.

(** C7 as stated fails: the mean that decides is the one computed in
    double arithmetic, not the arithmetic mean.  The scores
    [0.71, 0.62, 0.39, 0.39, 0.39] have the arithmetic mean [0.5] exactly,
    which is not above [0.5], and the maximum [0.71]; the list is
    classified [high], because the computed mean is
    [0.5000000000000001]. *)
Lemma evaluateContextQuality_mean_rounds :
  let results :=
    [sample "A" "a" (num (71 # 100)) None;
     sample "B" "b" (num (62 # 100)) None;
     sample "C" "c" (num (39 # 100)) None;
     sample "D" "d" (num (39 # 100)) None;
     sample "E" "e" (num (39 # 100)) None] in
  isMean (List.map score results) (5 # 10)
  /\ isMax (List.map score results) (num (71 # 100))
  /\ ~ 5 # 10 < 5 # 10
  /\ num (5 # 10) == 5 # 10
  /\ num (5 # 10) < floatMean (List.map score results)
  /\ quality (evaluateContextQuality results) = high.
Proof.
  cbv zeta. split; [vm_compute; reflexivity|].
  split; [split; [now left | repeat constructor; vm_compute; discriminate]|].
  split; [vm_compute; discriminate|].
  split; [vm_compute; reflexivity|].
  split; vm_compute; reflexivity.
Qed.

Lemma policy_monotone (m1 m2 avg : number) :
  m1 <= m2 -> (tier (policy m1 avg) <= tier (policy m2 avg))%nat.
Proof.
  intros Hle. unfold policy. destruct thresholds_ordered as [_ H57].
  destruct (Qltb (num (7 # 10)) m1) eqn:E1, (Qltb (num (7 # 10)) m2) eqn:E2,
           (Qltb (num (5 # 10)) m1) eqn:E3, (Qltb (num (5 # 10)) m2) eqn:E4,
           (Qltb (num (5 # 10)) avg), (Qltb (num (3 # 10)) avg);
    cbn [andb tier]; try lia;
    rewrite ?Qltb_lt, ?Qltb_ge in *; exfalso; lra.
Qed.

(** C8, as the code has it.  For two non-empty lists for which the function
    computes the same mean score, the list whose maximum score is at least
    the other's is classified at least as high in the order
    [none < low < medium < high]; and a list is classified [none] exactly
    when it is empty. *)
Theorem quality_monotone_in_maxScore (l1 l2 : list SearchResult)
    (m1 m2 : number) :
  l1 <> [] -> l2 <> [] ->
  floatMean (List.map score l1) == floatMean (List.map score l2) ->
  isMax (List.map score l1) m1 -> isMax (List.map score l2) m2 ->
  m1 <= m2 ->
  (tier (quality (evaluateContextQuality l1))
   <= tier (quality (evaluateContextQuality l2)))%nat
  /\ forall l, quality (evaluateContextQuality l) = none <-> l = [].
Proof.
  intros Hn1 Hn2 Ha Hm1 Hm2 Hle. split.
  - destruct (evaluateContextQuality_policy l1 Hn1) as (x1 & Hm1' & -> & _).
    destruct (evaluateContextQuality_policy l2 Hn2) as (x2 & Hm2' & -> & _).
    rewrite (policy_ext x1 m1 _ (floatMean (List.map score l2)));
      [|eapply isMax_unique; eassumption | exact Ha].
    rewrite (policy_ext x2 m2 _ (floatMean (List.map score l2)));
      [|eapply isMax_unique; eassumption | reflexivity].
    now apply policy_monotone.
  - intros l. split.
    + destruct l as [|r rest]; [reflexivity|]. intros H. exfalso.
      destruct (evaluateContextQuality_policy (r :: rest) ltac:(discriminate))
        as (x & _ & Hq & _).
      rewrite Hq in H. unfold policy in H.
      destruct (_ && _) in H; [discriminate|].
      destruct (_ && _) in H; discriminate.
    + intros ->. reflexivity.
Qed.

Lemma quality_monotone_in_maxScore_witness :
  (tier (quality (evaluateContextQuality
                    [sample "A" "a" (1 # 2) None;
                     sample "B" "b" (1 # 2) None]))
   <= tier (quality (evaluateContextQuality
                       [sample "C" "c" (3 # 4) None;
                        sample "D" "d" (1 # 4) None])))%nat
  /\ forall l, quality (evaluateContextQuality l) = none <-> l = [].
Proof.
  apply (quality_monotone_in_maxScore
           [sample "A" "a" (1 # 2) None; sample "B" "b" (1 # 2) None]
           [sample "C" "c" (3 # 4) None; sample "D" "d" (1 # 4) None]
           (1 # 2) (3 # 4)).
  - discriminate.
  - discriminate.
  - vm_compute. reflexivity.
  - split; [now left | repeat constructor; discriminate].
  - split; [now left | repeat constructor; discriminate].
  - discriminate.
Defined.

(** C8 as stated fails when the two lists have the same arithmetic mean:
    the scores [0.71, 0.62, 0.39, 0.39, 0.39] and
    [0.75, 0.5, 0.5, 0.5, 0.25] both have the arithmetic mean [0.5], the
    second list has the larger maximum, and the first is classified [high],
    the second [medium]: the means computed in double arithmetic are
    [0.5000000000000001] and [0.5]. *)
Lemma quality_exact_mean_not_monotone :
  let l1 :=
    [sample "A" "a" (num (71 # 100)) None;
     sample "B" "b" (num (62 # 100)) None;
     sample "C" "c" (num (39 # 100)) None;
     sample "D" "d" (num (39 # 100)) None;
     sample "E" "e" (num (39 # 100)) None] in
  let l2 :=
    [sample "A" "a" (num (75 # 100)) None;
     sample "B" "b" (num (5 # 10)) None;
     sample "C" "c" (num (5 # 10)) None;
     sample "D" "d" (num (5 # 10)) None;
     sample "E" "e" (num (25 # 100)) None] in
  isMean (List.map score l1) (5 # 10)
  /\ isMean (List.map score l2) (5 # 10)
  /\ isMax (List.map score l1) (num (71 # 100))
  /\ isMax (List.map score l2) (num (75 # 100))
  /\ num (71 # 100) <= num (75 # 100)
  /\ quality (evaluateContextQuality l1) = high
  /\ quality (evaluateContextQuality l2) = medium
  /\ ~ (tier (quality (evaluateContextQuality l1))
        <= tier (quality (evaluateContextQuality l2)))%nat.
Proof.
  cbv zeta.
  assert (H1 : quality (evaluateContextQuality
                 [sample "A" "a" (num (71 # 100)) None;
                  sample "B" "b" (num (62 # 100)) None;
                  sample "C" "c" (num (39 # 100)) None;
                  sample "D" "d" (num (39 # 100)) None;
                  sample "E" "e" (num (39 # 100)) None]) = high)
    by (vm_compute; reflexivity).
  assert (H2 : quality (evaluateContextQuality
                 [sample "A" "a" (num (75 # 100)) None;
                  sample "B" "b" (num (5 # 10)) None;
                  sample "C" "c" (num (5 # 10)) None;
                  sample "D" "d" (num (5 # 10)) None;
                  sample "E" "e" (num (25 # 100)) None]) = medium)
    by (vm_compute; reflexivity).
  split; [vm_compute; reflexivity|]. split; [vm_compute; reflexivity|].
  split; [split; [now left | repeat constructor; vm_compute; discriminate]|].
  split; [split; [now left | repeat constructor; vm_compute; discriminate]|].
  split; [vm_compute; discriminate|].
  split; [exact H1|]. split; [exact H2|].
  rewrite H1, H2. cbn. lia.
Qed.

(** ** Context assembly *)

Lemma blockLen_nonneg (c : chunk) : (0 <= blockLen c)%Z.
Proof. unfold blockLen. lia. Qed.

Lemma blocks_nonneg (cs : list chunk) : (0 <= blocks cs)%Z.
Proof.
  induction cs as [|c cs IH]; cbn [blocks fold_right]; [lia|].
  fold (blocks cs). pose proof (blockLen_nonneg c). lia.
Qed.

(** The selection loop is greedy: it accepts a prefix of the input, whole
    items only, whose tagged blocks fit the budget; the first item left out
    is one whose block would exceed it; a budget that covers every block
    accepts every item. *)
Lemma selectResults_from (maxChars : number) (currentLength : Z)
    (results : list chunk) :
  let selected := selectResults maxChars currentLength results in
  (exists rest,
     results = selected ++ rest
     /\ match rest with
        | [] => True
        | c :: _ =>
            ~ inject_Z (currentLength + blocks selected + blockLen c)
              <= maxChars
        end)
  /\ (selected <> [] ->
      inject_Z (currentLength + blocks selected) <= maxChars)
  /\ (inject_Z (currentLength + blocks results) <= maxChars ->
      selected = results).
Proof.
  cbv zeta. revert currentLength.
  induction results as [|c rest IH]; intros cur; cbn [selectResults].
  - split; [exists []; split; [reflexivity | exact I]|].
    split; [congruence | reflexivity].
  - fold (blockLen c).
    destruct (Qle_bool (inject_Z (cur + blockLen c)) maxChars) eqn:E.
    + apply Qle_bool_iff in E.
      destruct (IH (cur + blockLen c)%Z) as ((rest' & Hr & Hstop) & Hfit & Hall).
      cbn [blocks fold_right]. fold (blocks (selectResults maxChars (cur + blockLen c) rest)).
      split; [|split].
      * exists rest'. split; [cbn [app]; now rewrite <- Hr|].
        destruct rest' as [|c' ?]; [exact I|].
        now rewrite Z.add_assoc.
      * intros _. rewrite Z.add_assoc.
        destruct (selectResults maxChars (cur + blockLen c) rest) eqn:Es.
        -- cbn [blocks fold_right]. now rewrite Z.add_0_r.
        -- apply Hfit. discriminate.
      * intros Htot. f_equal. apply Hall.
        cbn [blocks fold_right] in Htot. fold (blocks rest) in Htot.
        now rewrite Z.add_assoc in Htot.
    + split; [|split].
      * exists (c :: rest). split; [reflexivity|].
        cbn [blocks fold_right]. rewrite Z.add_0_r.
        intros H. apply Qle_bool_iff in H. congruence.
      * congruence.
      * intros Htot. exfalso.
        cbn [blocks fold_right] in Htot. fold (blocks rest) in Htot.
        pose proof (blocks_nonneg rest) as Hn.
        assert (inject_Z (cur + blockLen c)
                <= inject_Z (cur + (blockLen c + blocks rest)))
          by (rewrite <- Zle_Qle; lia).
        assert (H' : inject_Z (cur + blockLen c) <= maxChars)
          by (eapply Qle_trans; eassumption).
        apply Qle_bool_iff in H'. congruence.
Qed.

(** C1, at a failing input.  A single result whose tagged block
    [\n[doc]\nb\n] has 9 characters is accepted under a budget of 9
    characters, and the context returned for it has 61 characters: the
    budget is checked on the tagged blocks, the context is formatted with
    document and fragment headers. *)
Theorem prepareContextWithLimit_over_budget :
  let c := Plain (sample "A" "b" (1 # 2) None) in
  blockLen c = 9%Z
  /\ selectResults 9 0 [c] = [c]
  /\ prepareContextWithLimit [c] 9
     = Return (lit "--- ДОКУМЕНТ 1: doc ---" ++ NL ++ NL
               ++ lit "[Фрагмент 1, релевантность: 50.0%]" ++ NL ++ lit "b")
  /\ (forall context,
        prepareContextWithLimit [c] 9 = Return context ->
        length context = 61%nat /\ ~ inject_Z (Z.of_nat (length context)) <= 9).
Proof.
  cbv zeta. split; [reflexivity|]. split; [reflexivity|].
  split; [vm_compute; reflexivity|].
  intros context H. vm_compute in H. injection H as <-.
  split; [reflexivity|]. vm_compute. intros H. apply H. reflexivity.
Qed.

(** With no result selected the context is the fixed message, 47
    characters long, whatever the budget. *)
Example prepareContextWithLimit_empty :
  prepareContextWithLimit [] 0
  = Return (lit "Релевантной информации в документах не найдено.")
  /\ length (lit "Релевантной информации в документах не найдено.") = 47%nat.
Proof. split; reflexivity. Qed.

(** A source named like a member of [Object.prototype] makes the grouping
    throw. *)
Example formatContextForLLM_inherited_name :
  formatContextForLLM
    [Plain {| id := lit "A"; text := lit "b"; source := lit "toString";
              score := 1 # 2; metadata := None |}]
  = Throw (TypeError (lit "acc[result.source].push is not a function")).
Proof. reflexivity. Qed.

(* ===================================================================== *)
(** * Further properties *)
(* ===================================================================== *)

(** ** Threshold filters *)

Section ThresholdFilter.
Context {A : Type} (key : A -> number).

Lemma filter_none (p : A -> bool) (l : list A) :
  Forall (fun a => p a = false) l -> List.filter p l = [].
Proof.
  induction 1 as [|a l Ha _ IH]; [reflexivity|].
  cbn [List.filter]. now rewrite Ha.
Qed.

(** On a list in non-increasing key order a threshold filter cuts a
    prefix. *)
Lemma filter_descending_prefix (m : number) (l : list A) :
  StronglySorted (descending key) l ->
  exists dropped,
    l = List.filter (atLeast key m) l ++ dropped
    /\ Forall (fun a => m <= key a) (List.filter (atLeast key m) l)
    /\ Forall (fun a => key a < m) dropped.
Proof.
  induction 1 as [|a l Hs (dropped & Hl & Hk & Hd) Ha].
  - exists []. repeat split; constructor.
  - cbn [List.filter]. destruct (atLeast key m a) eqn:E; unfold atLeast in E.
    + apply Qle_bool_iff in E. exists dropped.
      split; [cbn [app]; now rewrite <- Hl|].
      split; [constructor; assumption | exact Hd].
    + assert (Hlt : key a < m)
        by (apply Qltb_lt; unfold Qltb; now rewrite E).
      assert (Hall : Forall (fun b => key b < m) l).
      { eapply Forall_impl; [exact Ha|]. unfold descending.
        intros b Hb. simpl in Hb. lra. }
      rewrite filter_none.
      * exists (a :: l). split; [reflexivity|].
        split; constructor; assumption.
      * eapply Forall_impl; [exact Hall|]. intros b Hb. simpl in Hb.
        unfold atLeast. apply Qltb_lt in Hb. unfold Qltb in Hb.
        now apply negb_true_iff in Hb.
Qed.
End ThresholdFilter.

(** X1. On results in non-increasing score order, as [findMostSimilar]
    returns them, [filterByMinScore] keeps a prefix: every kept score is at
    least [minScore] and every result after the cut is below it. *)
Theorem filterByMinScore_prefix (results : list SearchResult)
    (minScore : number) :
  StronglySorted (descending score) results ->
  exists dropped,
    results = filterByMinScore results minScore ++ dropped
    /\ Forall (fun r => minScore <= score r)
              (filterByMinScore results minScore)
    /\ Forall (fun r => score r < minScore) dropped.
Proof. apply (filter_descending_prefix score). Qed.

Lemma filterByMinScore_prefix_witness :
  exists dropped,
    [sample "A" "a" (num (9 # 10)) None;
     sample "B" "b" (num (6 # 10)) None;
     sample "C" "c" (num (2 # 10)) None]
    = filterByMinScore
        [sample "A" "a" (num (9 # 10)) None;
         sample "B" "b" (num (6 # 10)) None;
         sample "C" "c" (num (2 # 10)) None] (num (3 # 10)) ++ dropped
    /\ Forall (fun r => num (3 # 10) <= score r)
         (filterByMinScore
            [sample "A" "a" (num (9 # 10)) None;
             sample "B" "b" (num (6 # 10)) None;
             sample "C" "c" (num (2 # 10)) None] (num (3 # 10)))
    /\ Forall (fun r => score r < num (3 # 10)) dropped.
Proof.
  apply (filterByMinScore_prefix
           [sample "A" "a" (num (9 # 10)) None;
            sample "B" "b" (num (6 # 10)) None;
            sample "C" "c" (num (2 # 10)) None] (num (3 # 10))).
  repeat constructor; vm_compute; discriminate.
Defined.

(** ** Grouping by source *)

Lemma streq_sym (a b : jsstring) : streq a b = streq b a.
Proof.
  unfold streq. destruct (bool_decide (a = b)) eqn:E.
  - apply bool_decide_eq_true in E. symmetry. now apply bool_decide_eq_true.
  - apply bool_decide_eq_false in E. symmetry.
    apply bool_decide_eq_false. congruence.
Qed.

Lemma streq_eq (a b : jsstring) : streq a b = true <-> a = b.
Proof. unfold streq. apply bool_decide_eq_true. Qed.

Lemma setOf_snoc (l : list jsstring) (k : jsstring) :
  setOf (l ++ [k]) = setStep (setOf l) k.
Proof. unfold setOf. now rewrite fold_left_app. Qed.

Section Grouping.
Context {A : Type} (key : A -> jsstring).

Lemma hasOwn_groupsOf (pre : list A) (k : jsstring) :
  hasOwn (groupsOf key pre) k = existsb (streq k) (setOf (List.map key pre)).
Proof.
  unfold hasOwn, groupsOf. generalize (setOf (List.map key pre)).
  intros ks. induction ks as [|k' ks IH]; [reflexivity|].
  cbn [List.map existsb fst]. now rewrite IH, (streq_sym k' k).
Qed.

Lemma filter_key_absent (pre : list A) (k : jsstring) :
  ~ In k (List.map key pre) ->
  List.filter (fun x => streq (key x) k) pre = [].
Proof.
  intros H. apply filter_none, List.Forall_forall. intros x Hx.
  apply streq_false. intros E. apply H. rewrite <- E.
  now apply List.in_map.
Qed.

Lemma pushAt_groups (f : jsstring -> list A) (ks : list jsstring)
    (k : jsstring) (x : A) :
  List.NoDup ks -> In k ks ->
  pushAt (List.map (fun k' => (k', f k')) ks) k x
  = List.map (fun k' => (k', f k' ++ (if streq k k' then [x] else []))) ks.
Proof.
  induction ks as [|k' ks IH]; intros Hnd Hin; [destruct Hin|].
  inversion Hnd as [|? ? Hk' Hnd']; subst.
  cbn [List.map pushAt]. rewrite (streq_sym k' k).
  destruct (streq k k') eqn:E.
  - apply streq_eq in E. subst k'. f_equal.
    apply List.map_ext_in. intros k'' Hk''.
    rewrite streq_false by (intros ->; contradiction).
    now rewrite app_nil_r.
  - rewrite app_nil_r. f_equal. apply IH; [exact Hnd'|].
    destruct Hin as [->|Hin]; [|exact Hin].
    rewrite streq_true in E by reflexivity. discriminate.
Qed.

Lemma groupsOf_snoc_filter (pre : list A) (x : A) (k' : jsstring) :
  List.filter (fun y => streq (key y) k') (pre ++ [x])
  = List.filter (fun y => streq (key y) k') pre
    ++ (if streq (key x) k' then [x] else []).
Proof.
  rewrite List.filter_app. cbn [List.filter].
  now destruct (streq (key x) k').
Qed.

(** One step of the grouping, on the groups of the elements seen so far. *)
Lemma groupStepBy_groupsOf (pre : list A) (x : A) :
  ~ inherited (key x) ->
  groupStepBy key (groupsOf key pre) x = Return (groupsOf key (pre ++ [x])).
Proof.
  intros Hok. unfold groupStepBy. cbv zeta. rewrite hasOwn_groupsOf.
  destruct (setOf_spec (List.map key pre)) as [Hnd Hin].
  assert (Hg : groupsOf key (pre ++ [x])
               = List.map
                   (fun k' => (k', List.filter (fun y => streq (key y) k') pre
                                   ++ (if streq (key x) k' then [x] else [])))
                   (setStep (setOf (List.map key pre)) (key x))).
  { unfold groupsOf. rewrite List.map_app. cbn [List.map].
    rewrite setOf_snoc. apply List.map_ext. intros k'.
    now rewrite groupsOf_snoc_filter. }
  rewrite Hg. unfold setStep.
  destruct (existsb (streq (key x)) (setOf (List.map key pre))) eqn:E.
  - f_equal. unfold groupsOf. apply existsb_streq in E.
    now apply pushAt_groups.
  - assert (Hno : ~ In (key x) (setOf (List.map key pre)))
      by (rewrite <- existsb_streq; congruence).
    destruct (existsb (streq (key x)) objectPrototypeNames) eqn:Ei.
    + apply existsb_streq in Ei. contradiction.
    + f_equal. rewrite List.map_app. cbn [List.map].
      rewrite streq_true by reflexivity.
      rewrite filter_key_absent by (now rewrite <- Hin).
      f_equal. unfold groupsOf. apply List.map_ext_in. intros k' Hk'.
      rewrite streq_false by (intros E'; apply Hno; now rewrite E').
      now rewrite app_nil_r.
Qed.

Lemma groupStepBy_inherited (pre : list A) (x : A) :
  Forall (fun y => ~ inherited (key y)) pre ->
  inherited (key x) ->
  groupStepBy key (groupsOf key pre) x = Throw pushError.
Proof.
  intros Hpre Hx. unfold groupStepBy. cbv zeta. rewrite hasOwn_groupsOf.
  destruct (setOf_spec (List.map key pre)) as [_ Hin].
  destruct (existsb (streq (key x)) (setOf (List.map key pre))) eqn:E.
  - exfalso. apply existsb_streq, Hin, List.in_map_iff in E.
    destruct E as (y & Hy & Hyin).
    rewrite List.Forall_forall in Hpre. apply (Hpre y Hyin).
    now rewrite Hy.
  - apply existsb_streq in Hx. unfold inherited in Hx. now rewrite Hx.
Qed.

Lemma inherited_dec (k : jsstring) : {inherited k} + {~ inherited k}.
Proof.
  unfold inherited.
  destruct (existsb (streq k) objectPrototypeNames) eqn:E.
  - left. now apply existsb_streq.
  - right. rewrite <- existsb_streq. congruence.
Qed.

Lemma reduceM_groupsOf (suf pre : list A) :
  Forall (fun y => ~ inherited (key y)) pre ->
  (Forall (fun y => ~ inherited (key y)) suf ->
   reduceM (groupStepBy key) suf (groupsOf key pre)
   = Return (groupsOf key (pre ++ suf)))
  /\ (Exists (fun y => inherited (key y)) suf ->
      reduceM (groupStepBy key) suf (groupsOf key pre) = Throw pushError).
Proof.
  revert pre. induction suf as [|x suf IH]; intros pre Hpre.
  - split; [intros _; cbn; now rewrite app_nil_r | intros H; inversion H].
  - cbn [reduceM]. destruct (inherited_dec (key x)) as [Hx|Hx].
    + rewrite (groupStepBy_inherited pre x Hpre Hx). split.
      * intros H. inversion H; subst. contradiction.
      * intros _. reflexivity.
    + rewrite (groupStepBy_groupsOf pre x Hx).
      assert (Hpre' : Forall (fun y => ~ inherited (key y)) (pre ++ [x]))
        by (apply Forall_app; split; [exact Hpre | now constructor]).
      destruct (IH (pre ++ [x]) Hpre') as [IH1 IH2].
      rewrite <- app_assoc in IH1. cbn [app] in IH1.
      split.
      * intros H. inversion H; subst. now apply IH1.
      * intros H. inversion H; subst; [contradiction|]. now apply IH2.
Qed.
End Grouping.

Section GroupCover.
Context {A : Type} (key : A -> jsstring).

Lemma concat_groups_cons (f : jsstring -> list A) (ks : list jsstring)
    (x : A) :
  List.NoDup ks -> In (key x) ks ->
  Permutation
    (concat (List.map (fun k => (if streq (key x) k then [x] else []) ++ f k)
                      ks))
    (x :: concat (List.map f ks)).
Proof.
  induction ks as [|k ks IH]; intros Hnd Hin; [destruct Hin|].
  inversion Hnd as [|? ? Hk Hnd']; subst.
  cbn [List.map concat]. destruct (streq (key x) k) eqn:E.
  - apply streq_eq in E. subst k. cbn [app]. constructor.
    apply Permutation_app_head.
    erewrite List.map_ext_in; [reflexivity|].
    intros k' Hk'. cbn beta.
    now rewrite streq_false by (intros E; rewrite E in Hk; contradiction).
  - cbn [app]. destruct Hin as [Hin|Hin];
      [rewrite streq_true in E by (now symmetry); discriminate|].
    rewrite (IH Hnd' Hin). symmetry. apply Permutation_middle.
Qed.

Lemma concat_groups (ks : list jsstring) (l : list A) :
  List.NoDup ks ->
  Forall (fun x => In (key x) ks) l ->
  Permutation
    (concat (List.map (fun k => List.filter (fun x => streq (key x) k) l) ks))
    l.
Proof.
  intros Hnd. induction 1 as [|x l Hx _ IH].
  - cbn [List.filter]. induction ks as [|k ks IHk]; [reflexivity|].
    cbn [List.map concat app]. inversion Hnd; subst. auto.
  - transitivity
      (x :: concat (List.map
                      (fun k => List.filter (fun y => streq (key y) k) l) ks));
      [|now constructor].
    rewrite <- (concat_groups_cons
                  (fun k => List.filter (fun y => streq (key y) k) l) ks x
                  Hnd Hx).
    erewrite List.map_ext; [reflexivity|].
    intros k. cbn [List.filter]. now destruct (streq (key x) k).
Qed.
End GroupCover.

(** A sort whose comparator decides a transitive order puts the list in
    that order. *)
Section SortSorted.
Context {A : Type} (comparefn : A -> A -> number).
Context (R : A -> A -> Prop) (P : A -> Prop).
Hypothesis before : forall x y,
  P x -> P y -> Qltb 0 (comparefn x y) = false -> R x y.
Hypothesis after : forall x y,
  P x -> P y -> Qltb 0 (comparefn x y) = true -> R y x.
Hypothesis trans : forall x y z, P x -> P y -> P z -> R x y -> R y z -> R x z.

Lemma insert_sorted (x : A) (l : list A) :
  P x -> Forall P l -> StronglySorted R l ->
  StronglySorted R (insert comparefn x l).
Proof using before after trans.
  intros Hx Hl Hs. induction Hs as [|y l Hs IH Hy]; cbn [insert].
  - repeat constructor.
  - inversion Hl as [|? ? Py Pl]; subst.
    destruct (Qltb 0 (comparefn x y)) eqn:E.
    + constructor; [now apply IH|].
      eapply Permutation_Forall; [symmetry; apply insert_Permutation|].
      constructor; [now apply after | exact Hy].
    + constructor; [now constructor|].
      constructor; [now apply before|].
      rewrite List.Forall_forall in *. intros z Hz.
      apply (trans x y z); auto.
Qed.

Lemma sort_sorted (l : list A) :
  Forall P l -> StronglySorted R (sort comparefn l).
Proof using before after trans.
  induction 1 as [|x l Hx Hl IH]; cbn [sort]; [constructor|].
  apply insert_sorted; [exact Hx | | exact IH].
  eapply Permutation_Forall; [symmetry; apply sort_Permutation | exact Hl].
Qed.
End SortSorted.

Lemma StronglySorted_map {A B} (f : A -> B) (R : B -> B -> Prop)
    (l : list A) :
  StronglySorted (fun a b => R (f a) (f b)) l ->
  StronglySorted R (List.map f l).
Proof.
  induction 1 as [|x l Hs IH Hx]; cbn [List.map]; constructor; [exact IH|].
  apply List.Forall_map. exact Hx.
Qed.

Lemma concat_Permutation {A} (l l' : list (list A)) :
  Permutation l l' -> Permutation (concat l) (concat l').
Proof.
  induction 1 as [|x l l' _ IH|x y l|l l' l'' _ IH1 _ IH2]; cbn [concat].
  - reflexivity.
  - now apply Permutation_app_head.
  - rewrite !app_assoc. apply Permutation_app_tail, Permutation_app_comm.
  - now rewrite IH1.
Qed.

Lemma filter_split {A} (p : A -> bool) (l : list A) :
  Permutation (List.filter p l ++ List.filter (fun a => negb (p a)) l) l.
Proof.
  induction l as [|a l IH]; [reflexivity|].
  cbn [List.filter]. destruct (p a); cbn [negb app].
  - now constructor.
  - rewrite <- Permutation_middle. now constructor.
Qed.

Lemma map_filter_fst {V} (p : jsstring -> bool) (o : object V) :
  List.map fst (List.filter (fun kv => p (fst kv)) o)
  = List.filter p (List.map fst o).
Proof.
  induction o as [|kv o IH]; [reflexivity|].
  cbn [List.filter List.map]. destruct (p (fst kv)); cbn [List.map];
    now rewrite IH.
Qed.

(** The order in which an object is enumerated: the array indices in
    ascending order, then the other names in creation order. *)
Lemma entries_order {V} (o : object V) :
  Permutation (entries o) o
  /\ exists indices,
       List.map fst (entries o)
       = indices
         ++ List.filter (fun k => negb (isIndex k)) (List.map fst o)
       /\ Permutation indices (List.filter isIndex (List.map fst o))
       /\ StronglySorted (fun a b => (indexValue a <= indexValue b)%N)
                         indices.
Proof.
  unfold entries. split.
  - rewrite sort_Permutation. apply filter_split.
  - exists (List.map fst
              (sort byIndex (List.filter (fun kv => isIndex (fst kv)) o))).
    split; [|split].
    + now rewrite List.map_app, (map_filter_fst (fun k => negb (isIndex k))).
    + rewrite <- (map_filter_fst isIndex).
      apply Permutation_map, sort_Permutation.
    + apply StronglySorted_map.
      apply (sort_sorted byIndex _ (fun kv => isIndex (fst kv) = true)).
      * intros x y Hx Hy H. unfold isIndex in Hx, Hy.
        unfold byIndex, indexValue in *.
        destruct (arrayIndex (fst x)) as [i|], (arrayIndex (fst y)) as [j|];
          try discriminate.
        cbn beta iota in H. apply Qltb_ge in H. cbn.
        unfold Qle in H. cbn in H. lia.
      * intros x y Hx Hy H. unfold isIndex in Hx, Hy.
        unfold byIndex, indexValue in *.
        destruct (arrayIndex (fst x)) as [i|], (arrayIndex (fst y)) as [j|];
          try discriminate.
        cbn beta iota in H. apply Qltb_lt in H. cbn.
        unfold Qlt in H. cbn in H. lia.
      * intros x y z _ _ _. lia.
      * apply List.Forall_forall. intros kv Hkv.
        now apply List.filter_In in Hkv.
Qed.

(** X2. [groupBySource] throws a [TypeError] when some result's source
    names a member of [Object.prototype].  Otherwise it returns an object
    with one property per distinct source, holding the results of that
    source in input order, and the properties together hold exactly the
    input results.  The object is enumerated with the sources that are array
    indices first, in ascending numeric order, and then the other sources in
    order of first occurrence. *)
Theorem groupBySource_groups (results : list SearchResult) :
  (Exists (fun r => inherited (source r)) results ->
   groupBySource results = Throw pushError)
  /\ (Forall (fun r => ~ inherited (source r)) results ->
      exists groups,
        groupBySource results = Return groups
        /\ List.NoDup (List.map fst (entries groups))
        /\ (forall k g,
              In (k, g) (entries groups)
              <-> In k (List.map source results)
                  /\ g = List.filter (fun r => streq (source r) k) results)
        /\ Permutation (concat (List.map snd (entries groups))) results
        /\ exists indices,
             List.map fst (entries groups)
             = indices
               ++ List.filter (fun k => negb (isIndex k))
                              (setOf (List.map source results))
             /\ Permutation indices
                  (List.filter isIndex (setOf (List.map source results)))
             /\ StronglySorted
                  (fun a b => (indexValue a <= indexValue b)%N) indices).
Proof.
  unfold groupBySource.
  destruct (reduceM_groupsOf source results [] (List.Forall_nil _))
    as [H1 H2].
  split; [exact H2|]. intros Hok.
  exists (groupsOf source results). split; [exact (H1 Hok)|].
  destruct (setOf_spec (List.map source results)) as [Hnd Hin].
  destruct (entries_order (groupsOf source results))
    as [Hperm (indices & Hkeys & Hidx & Hsorted)].
  assert (Hfst : List.map fst (groupsOf source results)
                 = setOf (List.map source results)).
  { unfold groupsOf. rewrite List.map_map. cbn [fst]. apply List.map_id. }
  rewrite Hfst in Hkeys, Hidx.
  split; [|split; [|split]].
  - eapply Permutation_NoDup;
      [symmetry; apply Permutation_map; exact Hperm|].
    now rewrite Hfst.
  - intros k g. split.
    + intros H. apply (Permutation_in _ Hperm) in H.
      unfold groupsOf in H. apply List.in_map_iff in H as (k' & E & Hk').
      injection E as -> <-. split; [now apply Hin | reflexivity].
    + intros [Hk ->]. apply (Permutation_in _ (Permutation_sym Hperm)).
      unfold groupsOf. apply List.in_map_iff. exists k.
      split; [reflexivity | now apply Hin].
  - rewrite (concat_Permutation _ _ (Permutation_map snd Hperm)).
    unfold groupsOf. rewrite List.map_map. cbn [snd].
    apply concat_groups; [exact Hnd|].
    apply List.Forall_forall. intros r Hr. apply Hin.
    now apply List.in_map.
  - exists indices. auto.
Qed.

(** The sources [b], [10], [9] are enumerated as [9], [10], [b]. *)
Example groupBySource_index_order :
  let from (name : String.string) :=
    {| id := lit name; text := lit "t"; source := lit name; score := 1 # 2;
       metadata := None |} in
  match groupBySource [from "b"%string; from "10"%string; from "9"%string]
  with
  | Return groups =>
      List.map fst groups = [lit "b"; lit "10"; lit "9"]
      /\ List.map fst (entries groups) = [lit "9"; lit "10"; lit "b"]
  | Throw _ => False
  end.
Proof. vm_compute. split; reflexivity. Qed.

(** ** The formatted context *)

Lemma trimStart_suffix (s : jsstring) : exists pre, s = pre ++ trimStart s.
Proof.
  induction s as [|c s (pre & IH)]; [now exists []|].
  cbn [trimStart]. destruct (isWhiteSpace c).
  - exists (c :: pre). cbn [app]. now rewrite <- IH.
  - now exists [].
Qed.

Lemma trimStart_head (s : jsstring) :
  match trimStart s with
  | c :: _ => isWhiteSpace c = false
  | [] => True
  end.
Proof.
  induction s as [|c s IH]; [exact I|].
  cbn [trimStart]. destruct (isWhiteSpace c) eqn:E; [exact IH | exact E].
Qed.

Lemma trim_trimmed (s : jsstring) : trimmed (trim s).
Proof.
  unfold trimmed, trim.
  set (t := trimStart s). set (u := trimStart (rev t)).
  rewrite rev_involutive. split; [|apply trimStart_head].
  destruct (trimStart_suffix (rev t)) as (pre & Hpre). fold u in Hpre.
  apply (f_equal (@rev N)) in Hpre.
  rewrite rev_involutive, rev_app_distr in Hpre.
  pose proof (trimStart_head s) as Ht. fold t in Ht.
  destruct (rev u) as [|d w]; [exact I|].
  rewrite Hpre in Ht. exact Ht.
Qed.

Lemma reduceM_groupStep (results : list chunk) (acc : object (list chunk)) :
  reduceM groupStep results acc = reduceM (groupStepBy sourceOf) results acc.
Proof.
  revert acc. induction results as [|c l IH]; intros acc; [reflexivity|].
  cbn [reduceM]. change (groupStep acc c) with (groupStepBy sourceOf acc c).
  destruct (groupStepBy sourceOf acc c); cbn; [apply IH | reflexivity].
Qed.

(** X3. [formatContextForLLM] throws a [TypeError] when the source of some
    result names a member of [Object.prototype].  Otherwise it returns the
    fixed message for an empty list, and for a non-empty list the document
    blocks of the groups by source, one per distinct source; the returned
    string never starts or ends with white space. *)
Theorem formatContextForLLM_result (results : list chunk) :
  (Exists (fun c => inherited (sourceOf c)) results ->
   formatContextForLLM results = Throw pushError)
  /\ (Forall (fun c => ~ inherited (sourceOf c)) results ->
      exists context,
        formatContextForLLM results = Return context
        /\ (results = [] -> context = notFound)
        /\ (results <> [] ->
            context
            = trim (concat (mapi formatSource
                              (entries (groupsOf sourceOf results)))))
        /\ trimmed context).
Proof.
  destruct (reduceM_groupsOf sourceOf results [] (List.Forall_nil _))
    as [H1 H2].
  change (groupsOf sourceOf []) with (@nil (jsstring * list chunk)) in H1, H2.
  cbn [app] in H1.
  unfold formatContextForLLM. destruct results as [|c l].
  - split; [intros H; inversion H|]. intros _.
    exists notFound. cbn [length Nat.eqb]. unfold notFound.
    split; [reflexivity|]. split; [reflexivity|].
    split; [congruence|]. split; vm_compute; reflexivity.
  - cbn [length Nat.eqb]. rewrite reduceM_groupStep. split.
    + intros Hbad. now rewrite (H2 Hbad).
    + intros Hok. rewrite (H1 Hok). eexists.
      split; [reflexivity|]. split; [discriminate|].
      split; [reflexivity | apply trim_trimmed].
Qed.

(** A ranked chunk is printed with its percentage, [0.3145 * 100] being
    [31.449999999999999] in double arithmetic, and with its boost reason. *)
Example formatContextForLLM_ranked :
  formatContextForLLM
    [Ranked {| result := sample "A" "b" (1 # 2) None;
               rerank_score := num (3145 # 10000);
               rerank_method := lit "hybrid";
               original_rank := 1;
               boost_reason := Some (lit "XYZ") |}]
  = Return (lit "--- ДОКУМЕНТ 1: doc ---" ++ NL ++ NL
            ++ lit "[Фрагмент 1, релевантность: 31.4%]" ++ NL
            ++ lit "b" ++ NL ++ lit "(+буст: XYZ)").
Proof. vm_compute. reflexivity. Qed.

(** ** Search statistics *)

Lemma Math_min_cases (a b : number) :
  (Math_min a b = a /\ a <= b) \/ (Math_min a b = b /\ b <= a).
Proof.
  unfold Math_min. destruct (Qle_bool a b) eqn:E.
  - left. split; [reflexivity | now apply Qle_bool_iff].
  - right. split; [reflexivity|].
    apply Qlt_le_weak, Qltb_lt. unfold Qltb. now rewrite E.
Qed.

Lemma Math_min_of_isMin (x : number) (xs : list number) :
  isMin (x :: xs) (Math_min_of x xs).
Proof.
  unfold Math_min_of, isMin. revert x.
  induction xs as [|y xs IH]; intros x; cbn [fold_left].
  - split; [now left | repeat constructor; lra].
  - destruct (IH (Math_min x y)) as [Hin Hall].
    inversion Hall as [|? ? Hm Hxs]; subst.
    destruct (Math_min_cases x y) as [[E Hle]|[E Hle]]; rewrite E in *.
    + split; [destruct Hin as [<-|Hin]; [now left | right; now right]|].
      constructor; [exact Hm|]. constructor; [lra | exact Hxs].
    + split; [right; exact Hin|].
      constructor; [lra | exact Hall].
Qed.

Lemma isMin_le_isMax (xs : list number) (lo hi : number) :
  isMin xs lo -> isMax xs hi -> lo <= hi.
Proof.
  intros [Hin _] [_ Hall]. rewrite List.Forall_forall in Hall. auto.
Qed.

(** X4. [getSearchStats] returns all zeros for an empty list.  For a
    non-empty list [count] is its length, [maxScore] and [minScore] are the
    maximum and the minimum of the scores, so [minScore <= maxScore], and
    [avgScore] is the mean computed in double arithmetic. *)
Theorem getSearchStats_bounds (results : list SearchResult) :
  let stats := getSearchStats results in
  (results = [] ->
   count stats = 0%Z /\ stats_avgScore stats == 0
   /\ stats_maxScore stats == 0 /\ stats_minScore stats == 0)
  /\ (results <> [] ->
      count stats = Z.of_nat (length results)
      /\ stats_avgScore stats == floatMean (List.map score results)
      /\ isMax (List.map score results) (stats_maxScore stats)
      /\ isMin (List.map score results) (stats_minScore stats)
      /\ stats_minScore stats <= stats_maxScore stats).
Proof.
  cbv zeta. split; [intros ->; repeat split; reflexivity|].
  intros Hne. destruct results as [|r rest]; [congruence|].
  cbn [getSearchStats count stats_avgScore stats_maxScore stats_minScore].
  set (results := r :: rest).
  pose proof (Math_max_of_isMax (score r) (List.map score rest)) as Hmax.
  pose proof (Math_min_of_isMin (score r) (List.map score rest)) as Hmin.
  change (score r :: List.map score rest) with (List.map score results)
    in Hmax, Hmin.
  split; [reflexivity|].
  split; [unfold floatMean, floatSum; now rewrite length_map|].
  split; [exact Hmax|]. split; [exact Hmin|].
  eapply isMin_le_isMax; eassumption.
Qed.

(** The computed mean can leave the range of the scores: for three scores
    [0.1] it is [0.10000000000000002], above the maximum. *)
Example getSearchStats_mean_above_max :
  let stats :=
    getSearchStats [sample "A" "a" (num (1 # 10)) None;
                    sample "B" "b" (num (1 # 10)) None;
                    sample "C" "c" (num (1 # 10)) None] in
  stats_maxScore stats == num (1 # 10)
  /\ stats_maxScore stats < stats_avgScore stats.
Proof. cbv zeta. split; vm_compute; reflexivity. Qed.

(** ** Ranges of the rerank scores *)

Lemma fadd_le (a a' b b' : number) : a <= a' -> b <= b' -> a ⊕ b <= a' ⊕ b'.
Proof. intros H1 H2. apply fl_le. lra. Qed.

Lemma fadd_nonneg (a b : number) : 0 <= a -> 0 <= b -> 0 <= a ⊕ b.
Proof. intros H1 H2. apply fl_nonneg. lra. Qed.

Lemma fmul_nonneg (a b : number) : 0 <= a -> 0 <= b -> 0 <= a ⊗ b.
Proof. intros H1 H2. apply fl_nonneg. now apply Qmult_le_0_compat. Qed.

Lemma fmul_le (a a' c : number) : 0 <= c -> a <= a' -> a ⊗ c <= a' ⊗ c.
Proof. intros Hc H. apply fl_le. now apply Qmult_le_compat_r. Qed.

Lemma fadd_0_r (x : number) : x ⊕ 0 = fl x.
Proof. apply fl_comp. ring. Qed.

Lemma fmul_1_l (x : number) : 1 ⊗ x = fl x.
Proof. apply fl_comp. ring. Qed.

Lemma num_double (q : Q) : fl (num q) = num q.
Proof. apply fl_idem. Qed.

Lemma Qle_eq_r (x y z : Q) : x <= y -> y == z -> x <= z.
Proof. intros H E. lra. Qed.

Lemma Qle_eq_l (x y z : Q) : x == y -> y <= z -> x <= z.
Proof. intros E H. lra. Qed.

(** A share [a <= 1] of a weight is at most the weight. *)
Lemma fmul_share (a : number) (q : Q) :
  0 <= num q -> a <= 1 -> a ⊗ num q <= num q.
Proof.
  intros Hq Ha. apply (Qle_eq_r _ (1 ⊗ num q)); [now apply fmul_le|].
  now rewrite fmul_1_l, num_double.
Qed.

(** Adding a non-negative number to a double does not lower it. *)
Lemma fadd_above (s x b : number) :
  isDouble s -> s <= x -> 0 <= b -> s <= x ⊕ b.
Proof.
  intros Hs Hx Hb. unfold isDouble in Hs. rewrite <- Hs.
  apply fl_le. lra.
Qed.

Lemma roundMagnitude_le (a b : number) (f : nat) :
  0 <= a -> a <= b ->
  0 <= inject_Z (Qfloor (a * pow10 f + (1 # 2))) / pow10 f
  /\ inject_Z (Qfloor (a * pow10 f + (1 # 2))) / pow10 f
     <= inject_Z (Qfloor (b * pow10 f + (1 # 2))) / pow10 f.
Proof.
  intros Ha Hab. pose proof (pow10_pos f) as Hp.
  pose proof (Qinv_lt_0_compat _ Hp) as Hq.
  assert (H0 : 0 <= a * pow10 f) by (apply Qmult_le_0_compat; lra).
  assert (Hm : a * pow10 f <= b * pow10 f)
    by (apply Qmult_le_compat_r; lra).
  assert (Hz : (0 <= Qfloor (a * pow10 f + (1 # 2)))%Z).
  { change 0%Z with (Qfloor 0). apply Qfloor_resp_le. lra. }
  assert (Hf : (Qfloor (a * pow10 f + (1 # 2))
                <= Qfloor (b * pow10 f + (1 # 2)))%Z)
    by (apply Qfloor_resp_le; lra).
  rewrite Zle_Qle in Hz, Hf. change (inject_Z 0) with 0 in Hz.
  unfold Qdiv. split.
  - apply Qmult_le_0_compat; lra.
  - apply Qmult_le_compat_r; lra.
Qed.

(** Rounding to decimals is monotone. *)
Lemma roundDecimal_le (x y : number) (f : nat) :
  x <= y -> roundDecimal x f <= roundDecimal y f.
Proof.
  intros Hxy. unfold roundDecimal. cbv zeta.
  destruct (Qltb x 0) eqn:Ex, (Qltb y 0) eqn:Ey;
    rewrite ?Qltb_lt, ?Qltb_ge in *.
  - rewrite (Qabs_neg x), (Qabs_neg y) by lra.
    destruct (roundMagnitude_le (- y) (- x) f) as [_ H]; lra.
  - rewrite (Qabs_neg x), (Qabs_pos y) by lra.
    destruct (roundMagnitude_le (- x) (- x) f) as [H _]; [lra.. |].
    destruct (roundMagnitude_le y y f) as [H' _]; lra.
  - lra.
  - rewrite (Qabs_pos x), (Qabs_pos y) by lra.
    destruct (roundMagnitude_le x y f) as [_ H]; lra.
Qed.

Lemma roundFixed_le (x y : number) (f : nat) :
  x <= y -> roundFixed x f <= roundFixed y f.
Proof. intros H. apply fl_le, roundDecimal_le, H. Qed.

Lemma roundFixed_ext (x y : number) (f : nat) :
  x == y -> roundFixed x f = roundFixed y f.
Proof.
  intros H. apply fl_comp.
  apply Qle_antisym; apply roundDecimal_le; lra.
Qed.

Lemma roundFixed_0 : roundFixed 0 4 == 0.
Proof. vm_compute. reflexivity. Qed.

Lemma roundFixed_1 : roundFixed 1 4 == 1.
Proof. vm_compute. reflexivity. Qed.

Lemma roundFixed_unit (x : number) :
  0 <= x -> x <= 1 -> 0 <= roundFixed x 4 /\ roundFixed x 4 <= 1.
Proof.
  intros H0 H1. split.
  - apply (Qle_eq_l _ (roundFixed 0 4));
      [symmetry; exact roundFixed_0 | now apply roundFixed_le].
  - apply (Qle_eq_r _ (roundFixed 1 4));
      [now apply roundFixed_le | exact roundFixed_1].
Qed.

Lemma Math_min_le (a b c : number) :
  a <= b -> Math_min a c <= Math_min b c.
Proof.
  intros H.
  destruct (Math_min_cases a c) as [[-> ?]|[-> ?]],
           (Math_min_cases b c) as [[-> ?]|[-> ?]]; lra.
Qed.

Lemma Math_min_bound (a c : number) : Math_min a c <= c.
Proof. destruct (Math_min_cases a c) as [[-> ?]|[-> ?]]; lra. Qed.

Lemma ofNat_nonneg (n : nat) : 0 <= ofNat n.
Proof.
  unfold ofNat. change 0 with (inject_Z 0). rewrite <- Zle_Qle. lia.
Qed.

Lemma ofNat_le (n m : nat) : (n <= m)%nat -> ofNat n <= ofNat m.
Proof. intros H. unfold ofNat. rewrite <- Zle_Qle. lia. Qed.

(** The boosts of the semantic method, each between 0 and its amount. *)
Lemma semanticResult_score (query : jsstring) (r : SearchResult) (j : Z) :
  exists pb lb db mb,
    (0 <= pb /\ pb <= num (1 # 10))
    /\ (0 <= lb /\ lb <= num (5 # 100))
    /\ (0 <= db /\ db <= num (5 # 100))
    /\ (0 <= mb /\ mb <= num (15 # 100))
    /\ rerank_score (semanticResult query r j)
       = roundFixed (Math_min (score r ⊕ pb ⊕ lb ⊕ db ⊕ mb) 1) 4.
Proof.
  unfold semanticResult. cbv zeta. cbn [rerank_score].
  match goal with
  | |- context [Math_min (score r ⊕ ?p ⊕ ?l ⊕ ?d ⊕ ?m) 1] =>
      exists p, l, d, m
  end.
  assert (H1 : 0 <= num (1 # 10)) by (vm_compute; discriminate).
  assert (H5 : 0 <= num (5 # 100)) by (vm_compute; discriminate).
  split; [destruct (metadata r) as [m|]; [destruct (position m =? 0)%Z|];
          split; lra|].
  split; [destruct (_ && _); split; lra|].
  split; [destruct (test _ _); split; lra|].
  split; [|apply parseFloat_toFixed; lia].
  split; [|apply Math_min_bound].
  match goal with |- 0 <= Math_min (ofNat ?n ⊗ _) _ => generalize n end.
  intros n.
  pose proof (fmul_nonneg (ofNat n) (num (5 # 100)) (ofNat_nonneg n) H5).
  assert (0 <= num (15 # 100)) by (vm_compute; discriminate).
  destruct (Math_min_cases (ofNat n ⊗ num (5 # 100)) (num (15 # 100)))
    as [[-> ?]|[-> ?]]; lra.
Qed.

(** X5. The semantic method never returns more than 1, nor more than the
    score with all four boosts added, clamped and rounded to four decimals;
    and it never lowers a score, beyond the clamp at 1 and the rounding:
    the result is at least the double that the score is, clamped and
    rounded. *)
Theorem rerankBySemantic_range (query : jsstring)
    (results : list SearchResult) :
  Forall
    (fun r =>
       rerank_score r <= 1
       /\ rerank_score r
          <= roundFixed
               (Math_min (score (result r) ⊕ num (1 # 10) ⊕ num (5 # 100)
                          ⊕ num (5 # 100) ⊕ num (15 # 100)) 1) 4
       /\ roundFixed (Math_min (fl (score (result r))) 1) 4 <= rerank_score r
       /\ (isDouble (score (result r)) ->
           roundFixed (Math_min (score (result r)) 1) 4 <= rerank_score r))
    (rerankBySemantic query results).
Proof.
  unfold rerankBySemantic, mapi.
  apply Forall_sort, Forall_mapi_from. intros r j.
  destruct (semanticResult_score query r j)
    as (pb & lb & db & mb & [Hp0 Hp1] & [Hl0 Hl1] & [Hd0 Hd1] & [Hm0 Hm1]
        & ->).
  change (result (semanticResult query r j)) with r.
  assert (Hlow : fl (score r) <= score r ⊕ pb ⊕ lb ⊕ db ⊕ mb).
  { assert (Hd : isDouble (fl (score r)))
      by (unfold isDouble; now rewrite fl_idem).
    do 3 (apply fadd_above; [exact Hd | | assumption]).
    apply fl_le. lra. }
  split; [|split; [|split]].
  - apply (Qle_eq_r _ (roundFixed 1 4)); [|exact roundFixed_1].
    apply roundFixed_le, Math_min_bound.
  - apply roundFixed_le, Math_min_le.
    repeat apply fadd_le; try assumption. lra.
  - apply roundFixed_le, Math_min_le, Hlow.
  - intros Hs. unfold isDouble in Hs.
    apply roundFixed_le, Math_min_le.
    apply (Qle_eq_l _ (fl (score r))); [symmetry; exact Hs | exact Hlow].
Qed.

(** With all four boosts the score [0.00035] becomes [0.3504]: the sum
    computed in double arithmetic is [0.35035000000000005]. *)
Example rerankBySemantic_all_boosts :
  match rerankBySemantic (lit "alpha bravo charlie")
          [sample "A"
             ("alpha bravo charlie 7 xxxxxxxxxxxxxxxxxxxxxxxxxxxxxxxxxxxxxxxx"
              ++ "xxxxxxxxxxxxxxxxxxxxxxxxxxxxxxxxxxxxxxxxxxxxxxxxxxxxxxxxxxxx"
              ++ "xxxxxxxxxxxxxxxxxxxxxxxxxxxxxxxxxxxxxxxxxxxxxxxxxxxxxxxxxxxx"
              ++ "xxxxxxxxxxxxxxxxxxxxxxxxxxxxxxxxxxxxxxxxxxxxxxxxxxxxxxxxxxxx")
             (num (35 # 100000))
             (Some {| position := 0; totalChunks := 1 |})] with
  | [r] =>
      rerank_score r == num (3504 # 10000)
      /\ roundDecimal (score (result r) + (35 # 100)) 4 == 3503 # 10000
  | _ => False
  end.
Proof. vm_compute. repeat split. Qed.

(** The overlap ratio of the keyword method lies between 0 and 1. *)
Lemma keywordResult_score (queryKeywords : list jsstring)
    (r : SearchResult) (j : Z) :
  exists ratio,
    0 <= ratio /\ ratio <= 1
    /\ (queryKeywords = [] -> ratio == 0)
    /\ rerank_score (keywordResult queryKeywords r j)
       = roundFixed (score r ⊗ num (7 # 10) ⊕ ratio ⊗ num (3 # 10)) 4.
Proof.
  unfold keywordResult. cbv zeta. cbn [rerank_score].
  set (matching := matchingKeywords queryKeywords (extractKeywords (text r))).
  set (den := Math_max (ofNat (length queryKeywords)) 1).
  assert (Hlen : (length matching <= length queryKeywords)%nat)
    by apply List.filter_length_le.
  pose proof (ofNat_nonneg (length matching)) as Hn.
  pose proof (ofNat_le _ _ Hlen) as Hle.
  assert (Hden : 1 <= den /\ ofNat (length queryKeywords) <= den).
  { subst den.
    destruct (Math_max_cases (ofNat (length queryKeywords)) 1)
      as [[-> ?]|[-> ?]]; split; lra. }
  exists (ofNat (length matching) ⊘ den).
  assert (H0 : 0 <= ofNat (length matching) / den)
    by (apply Qle_shift_div_l; lra).
  assert (H1 : ofNat (length matching) / den <= 1)
    by (apply Qle_shift_div_r; lra).
  destruct (fl_unit _ H0 H1) as [F0 F1].
  split; [exact F0|]. split; [exact F1|].
  split; [|apply parseFloat_toFixed; lia].
  intros ->. subst matching. cbn [matchingKeywords List.filter length].
  unfold fdiv. rewrite (fl_zero (ofNat 0 / den)); [reflexivity|].
  unfold Qdiv. change (ofNat 0) with 0. ring.
Qed.

Lemma keyword_weights : num (7 # 10) ⊕ num (3 # 10) == 1.
Proof. vm_compute. reflexivity. Qed.

(** X6. The keyword method returns between [0.7 * score] and
    [0.7 * score + 0.3], computed in double arithmetic and rounded to four
    decimals; a score in [[0, 1]] stays in [[0, 1]]; and for a query without
    keywords the result is [0.7 * score] rounded. *)
Theorem rerankByKeywords_range (query : jsstring)
    (results : list SearchResult) :
  Forall
    (fun r =>
       roundFixed (score (result r) ⊗ num (7 # 10)) 4 <= rerank_score r
       /\ rerank_score r
          <= roundFixed (score (result r) ⊗ num (7 # 10) ⊕ num (3 # 10)) 4
       /\ (0 <= score (result r) -> score (result r) <= 1 ->
           0 <= rerank_score r /\ rerank_score r <= 1)
       /\ (extractKeywords query = [] ->
           rerank_score r == roundFixed (score (result r) ⊗ num (7 # 10)) 4))
    (rerankByKeywords query results).
Proof.
  unfold rerankByKeywords, mapi. cbv zeta.
  apply Forall_sort, Forall_mapi_from. intros r j.
  destruct (keywordResult_score (extractKeywords query) r j)
    as (ratio & H0 & H1 & Hz & ->).
  change (result (keywordResult (extractKeywords query) r j)) with r.
  assert (H3 : 0 <= num (3 # 10)) by (vm_compute; discriminate).
  assert (H7 : 0 <= num (7 # 10)) by (vm_compute; discriminate).
  assert (Hdbl : score r ⊗ num (7 # 10) ⊕ 0 = score r ⊗ num (7 # 10))
    by (rewrite fadd_0_r; apply fl_idem).
  assert (Hlow : score r ⊗ num (7 # 10)
                 <= score r ⊗ num (7 # 10) ⊕ ratio ⊗ num (3 # 10)).
  { apply (Qle_eq_l _ (score r ⊗ num (7 # 10) ⊕ 0));
      [now rewrite Hdbl|].
    apply fadd_le; [lra|]. now apply fmul_nonneg. }
  pose proof (fmul_share ratio (3 # 10) H3 H1) as Hhigh.
  split; [now apply roundFixed_le|].
  split; [apply roundFixed_le, fadd_le; [lra | exact Hhigh]|].
  split.
  - intros Hlo Hhi. apply roundFixed_unit.
    + apply fadd_nonneg; now apply fmul_nonneg.
    + apply (Qle_eq_r _ (num (7 # 10) ⊕ num (3 # 10)));
        [|exact keyword_weights].
      apply fadd_le; [|exact Hhigh]. now apply fmul_share.
  - intros Hq. specialize (Hz Hq).
    rewrite (roundFixed_ext _ (score r ⊗ num (7 # 10))); [reflexivity|].
    assert (E : ratio ⊗ num (3 # 10) = 0)
      by (apply fl_zero; rewrite Hz; ring).
    rewrite E, Hdbl. reflexivity.
Qed.

Lemma keyword_unit (query : jsstring) (results : list SearchResult) :
  Forall
    (fun k => 0 <= score (result k) -> score (result k) <= 1 ->
              0 <= rerank_score k /\ rerank_score k <= 1)
    (rerankByKeywords query results).
Proof.
  unfold rerankByKeywords, mapi. cbv zeta.
  apply Forall_sort, Forall_mapi_from. intros r j.
  destruct (keywordResult_score (extractKeywords query) r j)
    as (ratio & H0 & H1 & _ & ->).
  change (result (keywordResult (extractKeywords query) r j)) with r.
  assert (H3 : 0 <= num (3 # 10)) by (vm_compute; discriminate).
  assert (H7 : 0 <= num (7 # 10)) by (vm_compute; discriminate).
  intros Hlo Hhi. apply roundFixed_unit.
  - apply fadd_nonneg; now apply fmul_nonneg.
  - apply (Qle_eq_r _ (num (7 # 10) ⊕ num (3 # 10)));
      [|exact keyword_weights].
    apply fadd_le; now apply fmul_share.
Qed.

Lemma semantic_unit (query : jsstring) (results : list SearchResult) :
  Forall
    (fun s => 0 <= score (result s) -> score (result s) <= 1 ->
              0 <= rerank_score s /\ rerank_score s <= 1)
    (rerankBySemantic query results).
Proof.
  unfold rerankBySemantic, mapi.
  apply Forall_sort, Forall_mapi_from. intros r j.
  destruct (semanticResult_score query r j)
    as (pb & lb & db & mb & [Hp0 _] & [Hl0 _] & [Hd0 _] & [Hm0 _] & ->).
  change (result (semanticResult query r j)) with r.
  intros Hlo Hhi. apply roundFixed_unit; [|apply Math_min_bound].
  assert (0 <= score r ⊕ pb ⊕ lb ⊕ db ⊕ mb)
    by (repeat apply fadd_nonneg; assumption).
  destruct (Math_min_cases (score r ⊕ pb ⊕ lb ⊕ db ⊕ mb) 1)
    as [[-> ?]|[-> ?]]; lra.
Qed.

Lemma unit_average (a b : number) :
  0 <= a -> a <= 1 -> 0 <= b -> b <= 1 ->
  0 <= roundFixed (a ⊗ num (5 # 10) ⊕ b ⊗ num (5 # 10)) 4
  /\ roundFixed (a ⊗ num (5 # 10) ⊕ b ⊗ num (5 # 10)) 4 <= 1.
Proof.
  intros Ha0 Ha1 Hb0 Hb1.
  assert (H5 : 0 <= num (5 # 10)) by (vm_compute; discriminate).
  assert (Hh : num (5 # 10) ⊕ num (5 # 10) == 1)
    by (vm_compute; reflexivity).
  apply roundFixed_unit.
  - apply fadd_nonneg; now apply fmul_nonneg.
  - apply (Qle_eq_r _ (num (5 # 10) ⊕ num (5 # 10))); [|exact Hh].
    apply fadd_le; now apply fmul_share.
Qed.

(** X7. When every input score lies in [[0, 1]], so does every hybrid
    [rerank_score]. *)
Theorem rerankHybrid_range (query : jsstring) (results : list SearchResult) :
  Forall (fun r => 0 <= score r /\ score r <= 1) results ->
  Forall (fun r => 0 <= rerank_score r /\ rerank_score r <= 1)
         (rerankHybrid query results).
Proof.
  intros Hin. rewrite List.Forall_forall in Hin.
  assert (Hres : forall k, In k (rerankByKeywords query results) ->
                           In (result k) results).
  { intros k Hk. eapply Permutation_in;
      [apply (result_rerankByKeywords query)|]. now apply List.in_map. }
  assert (Hsem : forall s, In s (rerankBySemantic query results) ->
                           0 <= rerank_score s /\ rerank_score s <= 1).
  { intros s Hs.
    pose proof (semantic_unit query results) as Hr.
    rewrite List.Forall_forall in Hr.
    assert (In (result s) results)
      by (eapply Permutation_in;
          [apply (result_rerankBySemantic query) | now apply List.in_map]).
    destruct (Hin _ H) as [H0 H1]. now apply Hr. }
  pose proof (keyword_unit query results) as Hkw.
  rewrite List.Forall_forall in Hkw.
  unfold rerankHybrid, combineHybrid. cbv zeta.
  apply Forall_sort, List.Forall_map, List.Forall_forall. intros k Hk.
  destruct (Hin _ (Hres k Hk)) as [H0 H1].
  destruct (Hkw k Hk H0 H1) as [Hk0 Hk1].
  unfold hybridResult. cbn [rerank_score].
  rewrite parseFloat_toFixed by lia.
  apply unit_average; try assumption; unfold semanticOr.
  - destruct (scoreMap _ !! _) as [v|] eqn:E; [|exact H0].
    destruct (Qeq_bool v 0); [exact H0|].
    destruct (List.in_dec (fun a b : list N => decide (a = b))
                (id (result k))
                (List.map idOf (rerankBySemantic query results)))
      as [Hi|Hi].
    + destruct (scoreMap_lookup (rerankBySemantic query results)
                  (id (result k))) as [_ Hsome].
      destruct (Hsome Hi) as (s & Hs & _ & Hl).
      rewrite Hl in E. injection E as <-. apply (Hsem s Hs).
    + destruct (scoreMap_lookup (rerankBySemantic query results)
                  (id (result k))) as [Hnone _].
      rewrite (Hnone Hi) in E. discriminate.
  - destruct (scoreMap _ !! _) as [v|] eqn:E; [|exact H1].
    destruct (Qeq_bool v 0); [exact H1|].
    destruct (List.in_dec (fun a b : list N => decide (a = b))
                (id (result k))
                (List.map idOf (rerankBySemantic query results)))
      as [Hi|Hi].
    + destruct (scoreMap_lookup (rerankBySemantic query results)
                  (id (result k))) as [_ Hsome].
      destruct (Hsome Hi) as (s & Hs & _ & Hl).
      rewrite Hl in E. injection E as <-. apply (Hsem s Hs).
    + destruct (scoreMap_lookup (rerankBySemantic query results)
                  (id (result k))) as [Hnone _].
      rewrite (Hnone Hi) in E. discriminate.
Qed.

Lemma rerankHybrid_range_witness :
  Forall (fun r => 0 <= rerank_score r /\ rerank_score r <= 1)
         (rerankHybrid (lit "cat dog")
            [sample "A" "7" (1 # 2) None; sample "B" "cat" (1 # 2) None]).
Proof.
  apply (rerankHybrid_range (lit "cat dog")
           [sample "A" "7" (1 # 2) None; sample "B" "cat" (1 # 2) None]).
  repeat constructor; cbn; discriminate.
Defined.

(** ** The reranking pipeline of the chat route *)

Lemma Forall_filter_atLeast {A} (key : A -> number) (m : number)
    (l : list A) :
  Forall (fun a => m <= key a) (List.filter (atLeast key m) l).
Proof.
  apply List.Forall_forall. intros a Ha.
  apply List.filter_In in Ha as [_ Ha]. now apply Qle_bool_iff in Ha.
Qed.

Lemma Forall_firstn {A} (P : A -> Prop) (n : nat) (l : list A) :
  Forall P l -> Forall P (firstn n l).
Proof.
  intros H. rewrite <- (firstn_skipn n l) in H.
  apply Forall_app in H. tauto.
Qed.

Lemma sorted_rerankResults (query : jsstring)
    (searchResults : list SearchResult) (config : RerankerConfig) :
  cfg_rerank_method config <> lit "none" ->
  StronglySorted (descending rerank_score)
                 (rerankResults query searchResults config).
Proof.
  intros Hn. unfold rerankResults.
  destruct (length searchResults =? 0)%nat; [constructor|].
  rewrite (streq_false _ (lit "none")) by exact Hn.
  destruct (streq _ (lit "keyword-boost"));
    [apply (keyThenRank_descending _ original_rank),
       sorted_rerankByKeywords|].
  destruct (streq _ (lit "semantic-deep"));
    [apply (keyThenRank_descending _ original_rank),
       sorted_rerankBySemantic|].
  destruct (streq _ (lit "hybrid")); apply sorted_rerankHybrid.
Qed.

(** X8. The chat route reranks, filters by [min_rerank_score] and keeps
    the first [final_top_k] results.  For [topK >= 0] at most [topK]
    results remain, each with [rerank_score >= threshold], each the
    reranked form of a different input result; and for a method other than
    ['none'] they are the head of the reranked list. *)
Theorem rerank_filter_top (query : jsstring)
    (searchResults : list SearchResult) (config : RerankerConfig)
    (threshold : number) (topK : Z) :
  (0 <= topK)%Z ->
  let reranked := rerankResults query searchResults config in
  let final := getTopRanked (filterByQuality reranked threshold) topK None in
  (Z.of_nat (length final) <= topK)%Z
  /\ Forall (fun r => threshold <= rerank_score r) final
  /\ (exists others,
        Permutation (List.map result final ++ others) searchResults)
  /\ (cfg_rerank_method config <> lit "none" ->
      exists rest, reranked = final ++ rest).
Proof.
  intros Hk. cbv zeta. unfold getTopRanked, filterByQuality. cbv zeta.
  set (reranked := rerankResults query searchResults config).
  change (fun r => Qle_bool threshold (rerank_score r))
    with (atLeast rerank_score threshold).
  rewrite slice0_firstn by exact Hk.
  set (kept := List.filter (atLeast rerank_score threshold) reranked).
  set (n := Z.to_nat (Z.min topK (Z.of_nat (length kept)))).
  split; [rewrite length_firstn; lia|].
  split; [apply Forall_firstn, Forall_filter_atLeast|].
  split.
  - exists (List.map result
              (skipn n kept
               ++ List.filter
                    (fun a => negb (atLeast rerank_score threshold a))
                    reranked)).
    rewrite <- List.map_app, app_assoc, firstn_skipn.
    subst kept. rewrite filter_split. apply result_rerankResults.
  - intros Hm.
    destruct (filter_descending_prefix rerank_score threshold reranked
                (sorted_rerankResults _ _ _ Hm)) as (dropped & Hd & _ & _).
    fold kept in Hd. exists (skipn n kept ++ dropped).
    now rewrite app_assoc, firstn_skipn.
Qed.

Lemma rerank_filter_top_witness :
  let reranked :=
    rerankResults (lit "cat dog")
      [sample "A" "7" (1 # 2) None; sample "B" "cat" (num (9 # 10)) None]
      (withMethod "hybrid") in
  let final := getTopRanked (filterByQuality reranked (5 # 10)) 1 None in
  (Z.of_nat (length final) <= 1)%Z
  /\ Forall (fun r => 5 # 10 <= rerank_score r) final
  /\ (exists others,
        Permutation (List.map result final ++ others)
          [sample "A" "7" (1 # 2) None; sample "B" "cat" (num (9 # 10)) None])
  /\ (cfg_rerank_method (withMethod "hybrid") <> lit "none" ->
      exists rest, reranked = final ++ rest).
Proof.
  apply (rerank_filter_top (lit "cat dog")
           [sample "A" "7" (1 # 2) None; sample "B" "cat" (num (9 # 10)) None]
           (withMethod "hybrid") (5 # 10) 1).
  lia.
Defined.

(** ** Quality distribution *)

Lemma analyzeQuality_fold (thresholds : QualityThresholds)
    (results : list RankedResult) (d : Distribution) :
  qt_low thresholds <= qt_medium thresholds ->
  qt_medium thresholds <= qt_high thresholds ->
  let r := fold_left (analyzeStep thresholds) results d in
  let n t := Z.of_nat (length (filterByQuality results t)) in
  d_high r = (d_high d + n (qt_high thresholds))%Z
  /\ (d_high r + d_medium r
      = d_high d + d_medium d + n (qt_medium thresholds))%Z
  /\ (d_high r + d_medium r + d_low r
      = d_high d + d_medium d + d_low d + n (qt_low thresholds))%Z.
Proof.
  intros Hlm Hmh. cbv zeta. revert d.
  induction results as [|x l IH]; intros d.
  - cbn. lia.
  - cbn [fold_left]. destruct (IH (analyzeStep thresholds d x))
      as (H1 & H2 & H3).
    clear IH. revert H1 H2 H3.
    generalize (fold_left (analyzeStep thresholds) l
                          (analyzeStep thresholds d x)).
    intros r. unfold analyzeStep, filterByQuality. cbn [List.filter].
    destruct (Qle_bool (qt_high thresholds) (rerank_score x)) eqn:Eh,
             (Qle_bool (qt_medium thresholds) (rerank_score x)) eqn:Em,
             (Qle_bool (qt_low thresholds) (rerank_score x)) eqn:El;
      cbn [d_high d_medium d_low length];
      try (intros; repeat split; lia); exfalso;
      repeat match goal with
             | H : Qle_bool _ _ = true |- _ => apply Qle_bool_iff in H
             | H : Qle_bool ?a ?b = false |- _ =>
                 assert (b < a)
                   by (apply Qltb_lt; unfold Qltb; now rewrite H);
                 clear H
             end; lra.
Qed.

(** X9. With thresholds [low <= medium <= high], the counters of
    [analyzeQuality] count the results that [filterByQuality] keeps: [high]
    those at the [high] threshold, [high + medium] those at the [medium]
    one, and the three together those at the [low] one, so results below
    [low] are counted nowhere. *)
Theorem analyzeQuality_counts (results : list RankedResult)
    (thresholds : QualityThresholds) :
  qt_low thresholds <= qt_medium thresholds ->
  qt_medium thresholds <= qt_high thresholds ->
  let d := analyzeQuality results thresholds in
  d_high d = Z.of_nat (length (filterByQuality results (qt_high thresholds)))
  /\ (d_high d + d_medium d)%Z
     = Z.of_nat (length (filterByQuality results (qt_medium thresholds)))
  /\ (d_high d + d_medium d + d_low d)%Z
     = Z.of_nat (length (filterByQuality results (qt_low thresholds))).
Proof.
  intros Hlm Hmh. cbv zeta. unfold analyzeQuality.
  destruct (analyzeQuality_fold thresholds results
              {| d_high := 0; d_medium := 0; d_low := 0 |} Hlm Hmh)
    as (H1 & H2 & H3).
  cbn [d_high d_medium d_low] in H1, H2, H3.
  repeat split; lia.
Qed.

Lemma analyzeQuality_counts_witness :
  let results :=
    rerankResults (lit "cat dog")
      [sample "A" "7" (1 # 2) None; sample "B" "cat" (num (9 # 10)) None]
      (withMethod "none") in
  let thresholds := quality_thresholds DEFAULT_RERANKER_CONFIG in
  let d := analyzeQuality results thresholds in
  d_high d = Z.of_nat (length (filterByQuality results (qt_high thresholds)))
  /\ (d_high d + d_medium d)%Z
     = Z.of_nat (length (filterByQuality results (qt_medium thresholds)))
  /\ (d_high d + d_medium d + d_low d)%Z
     = Z.of_nat (length (filterByQuality results (qt_low thresholds))).
Proof.
  apply (analyzeQuality_counts
           (rerankResults (lit "cat dog")
              [sample "A" "7" (1 # 2) None;
               sample "B" "cat" (num (9 # 10)) None]
              (withMethod "none"))
           (quality_thresholds DEFAULT_RERANKER_CONFIG));
    vm_compute; discriminate.
Defined.

(** ** The comparison harness and the original ranks *)

Ltac lit_neq := let H := fresh in intros H; vm_compute in H; discriminate H.

(** X10. Each list of [compareRankingMethods] is what [rerankResults]
    returns for that method, the hybrid list also for any method that is
    not one of the other three. *)
Theorem compareRankingMethods_agrees (query : jsstring)
    (results : list SearchResult) (config : RerankerConfig) :
  let c := compareRankingMethods query results in
  let m := cfg_rerank_method config in
  (m = lit "none" -> rerankResults query results config = cmp_none c)
  /\ (m = lit "keyword-boost" ->
      rerankResults query results config = cmp_keyword c)
  /\ (m = lit "semantic-deep" ->
      rerankResults query results config = cmp_semantic c)
  /\ (m <> lit "none" -> m <> lit "keyword-boost" ->
      m <> lit "semantic-deep" ->
      rerankResults query results config = cmp_hybrid c).
Proof.
  cbv zeta. unfold compareRankingMethods, rerankResults.
  cbn [cmp_none cmp_keyword cmp_semantic cmp_hybrid].
  destruct results as [|r rs]; [repeat split; intros; reflexivity|].
  cbn [length Nat.eqb]. repeat split.
  - intros ->.
    rewrite (streq_false (lit "none") (lit "keyword-boost")) by lit_neq.
    rewrite (streq_false (lit "none") (lit "semantic-deep")) by lit_neq.
    rewrite (streq_false (lit "none") (lit "hybrid")) by lit_neq.
    rewrite streq_true by reflexivity. reflexivity.
  - intros ->. rewrite streq_true by reflexivity. reflexivity.
  - intros ->.
    rewrite (streq_false (lit "semantic-deep") (lit "keyword-boost"))
      by lit_neq.
    rewrite streq_true by reflexivity. reflexivity.
  - intros Hn Hk Hs.
    rewrite (streq_false _ _ Hn), (streq_false _ _ Hk), (streq_false _ _ Hs).
    now destruct (streq _ _).
Qed.

Section MapiPosition.
Context {A B : Type} (f : A -> Z -> B) (rank : B -> Z) (res : B -> A).
Hypothesis rank_f : forall x j, rank (f x j) = (j + 1)%Z.
Hypothesis res_f : forall x j, res (f x j) = x.

Lemma mapi_from_position (i : Z) (l : list A) :
  (0 <= i)%Z ->
  Forall
    (fun b =>
       (i + 1 <= rank b <= i + Z.of_nat (length l))%Z
       /\ nth_error l (Z.to_nat (rank b - 1 - i)) = Some (res b))
    (mapi_from f i l).
Proof using rank_f res_f.
  revert i. induction l as [|x l IH]; intros i Hi; cbn [mapi_from];
    constructor.
  - rewrite rank_f, res_f. cbn [length].
    replace (i + 1 - 1 - i)%Z with 0%Z by lia. split; [lia | reflexivity].
  - eapply Forall_impl; [apply (IH (i + 1)%Z); lia|].
    intros b [Hr Hn]. cbn [length]. split; [lia|].
    replace (Z.to_nat (rank b - 1 - i))
      with (S (Z.to_nat (rank b - 1 - (i + 1)))) by lia.
    exact Hn.
Qed.
End MapiPosition.

Lemma position_mapi (f : SearchResult -> Z -> RankedResult)
    (searchResults : list SearchResult) :
  (forall x j, original_rank (f x j) = (j + 1)%Z) ->
  (forall x j, result (f x j) = x) ->
  Forall (atOriginalRank searchResults) (mapi f searchResults).
Proof.
  intros Hr Hx. unfold mapi.
  eapply Forall_impl;
    [apply (mapi_from_position f original_rank result Hr Hx 0); lia|].
  intros b [H1 H2]. split; [lia|].
  now rewrite Z.sub_0_r in H2.
Qed.

Lemma position_rerankHybrid (query : jsstring)
    (searchResults : list SearchResult) :
  Forall (atOriginalRank searchResults) (rerankHybrid query searchResults).
Proof.
  unfold rerankHybrid, combineHybrid, rerankByKeywords. cbv zeta.
  apply Forall_sort, List.Forall_map, Forall_sort.
  eapply Forall_impl;
    [apply (position_mapi (keywordResult (extractKeywords query)));
     reflexivity|].
  intros k Hk. exact Hk.
Qed.

(** X11. Whatever the method, [original_rank] is the 1-based position of
    the result in the input list: the input result at that position is the
    one the ranked result carries. *)
Theorem original_rank_is_input_position (query : jsstring)
    (searchResults : list SearchResult) (config : RerankerConfig) :
  Forall (atOriginalRank searchResults)
         (rerankResults query searchResults config).
Proof.
  unfold rerankResults.
  destruct (length searchResults =? 0)%nat; [constructor|].
  destruct (streq _ (lit "keyword-boost")).
  { unfold rerankByKeywords. cbv zeta.
    apply Forall_sort, position_mapi; reflexivity. }
  destruct (streq _ (lit "semantic-deep")).
  { unfold rerankBySemantic.
    apply Forall_sort, position_mapi; reflexivity. }
  destruct (streq _ (lit "hybrid")); [apply position_rerankHybrid|].
  destruct (streq _ (lit "none")); [|apply position_rerankHybrid].
  apply position_mapi; reflexivity.
Qed.

(** ** Source statistics and summaries *)

Lemma length_concat_Z {A} (ls : list (list A)) :
  Z.of_nat (length (concat ls))
  = sumZ (List.map (fun l => Z.of_nat (length l)) ls).
Proof.
  induction ls as [|l ls IH]; [reflexivity|].
  cbn [concat List.map sumZ fold_right]. fold (sumZ (List.map
    (fun l => Z.of_nat (length l)) ls)).
  rewrite length_app. lia.
Qed.

Lemma sourceStat_finite (results : list SearchResult) (s : jsstring) :
  In s (List.map source results) ->
  (1 <= chunks_used (sourceStat results s))%Z
  /\ avg_relevance (sourceStat results s) <> None
  /\ max_relevance (sourceStat results s) <> None.
Proof.
  intros Hs. apply List.in_map_iff in Hs as (r & Hr & Hin).
  unfold sourceStat. cbv zeta.
  cbn [chunks_used avg_relevance max_relevance].
  assert (Hf : In r (List.filter (fun r => streq (source r) s) results))
    by (apply List.filter_In; split; [exact Hin | now apply streq_true]).
  destruct (List.filter (fun r => streq (source r) s) results) as [|x l];
    [destruct Hf|].
  cbn [length Nat.eqb List.map option_map]. repeat split; [lia|discriminate..].
Qed.

(** X12. [extractSourcesInfo] lists every distinct source once, in order
    of first occurrence; [total_chunks] is the number of results and the
    [chunks_used] of the sources add up to it; every source has at least one
    chunk, so no average or maximum is taken of an empty list. *)
Theorem extractSourcesInfo_totals (results : list SearchResult) :
  let info := extractSourcesInfo results in
  total_chunks info = Z.of_nat (length results)
  /\ total_sources info = Z.of_nat (length (sources info))
  /\ List.map filename (sources info) = setOf (List.map source results)
  /\ List.NoDup (List.map filename (sources info))
  /\ (forall s, In s (List.map filename (sources info))
                <-> In s (List.map source results))
  /\ sumZ (List.map chunks_used (sources info)) = total_chunks info
  /\ Forall (fun st => (1 <= chunks_used st)%Z
                       /\ avg_relevance st <> None
                       /\ max_relevance st <> None)
            (sources info).
Proof.
  cbv zeta. unfold extractSourcesInfo. cbv zeta.
  cbn [total_chunks total_sources sources].
  destruct (setOf_spec (List.map source results)) as [Hnd Hin].
  assert (Hnames : List.map filename
                     (List.map (sourceStat results)
                               (setOf (List.map source results)))
                   = setOf (List.map source results)).
  { rewrite List.map_map. cbn [filename sourceStat]. apply List.map_id. }
  split; [reflexivity|].
  split; [now rewrite length_map|].
  split; [exact Hnames|]. rewrite Hnames.
  split; [exact Hnd|]. split; [exact Hin|]. split.
  - rewrite List.map_map. cbn [chunks_used sourceStat].
    rewrite <- (Permutation_length
                  (concat_groups source (setOf (List.map source results))
                     results Hnd
                     ltac:(apply List.Forall_forall; intros r Hr;
                           apply Hin; now apply List.in_map))).
    rewrite length_concat_Z, List.map_map. reflexivity.
  - apply List.Forall_map, List.Forall_forall. intros s Hs.
    apply sourceStat_finite. now apply Hin.
Qed.

Lemma preview_length (text : jsstring) :
  (length (preview text) <= 153)%nat
  /\ ((length text <= 150)%nat -> preview text = text)
  /\ ((150 < length text)%nat ->
      preview text = firstn 150 text ++ lit "...").
Proof.
  unfold preview. destruct (150 <? length text)%nat eqn:E.
  - apply Nat.ltb_lt in E. split; [|split; [lia | reflexivity]].
    rewrite length_app, length_firstn.
    change (length (lit "...")) with 3%nat. lia.
  - apply Nat.ltb_ge in E. rewrite app_nil_r.
    split; [rewrite length_firstn; lia|].
    split; [intros _; now apply firstn_all2 | lia].
Qed.

(** X13. [createSourcesSummary] gives one entry per result, in order,
    with the result's id and source; its text is the result's text when
    that has at most 150 characters and otherwise its first 150 characters
    followed by three dots, so never more than 153 characters; its score is
    the percentage, the product by 100 computed in double arithmetic,
    rounded to one decimal. *)
Theorem createSourcesSummary_entries (results : list SearchResult) :
  Forall2
    (fun r e =>
       se_id e = id r /\ se_source e = source r
       /\ (length (se_text e) <= 153)%nat
       /\ ((length (text r) <= 150)%nat -> se_text e = text r)
       /\ ((150 < length (text r))%nat ->
           se_text e = firstn 150 (text r) ++ lit "...")
       /\ se_score e == roundFixed (score r ⊗ 100) 1)
    results (createSourcesSummary results).
Proof.
  unfold createSourcesSummary.
  induction results as [|r l IH]; cbn [List.map]; constructor; [|exact IH].
  cbn [se_id se_source se_text se_score].
  destruct (preview_length (text r)) as (H1 & H2 & H3).
  repeat split; try assumption.
  rewrite parseFloat_toFixed by lia. reflexivity.
Qed.

(** The score [0.3145] is shown as [31.4]: its product by 100 is
    [31.449999999999999] in double arithmetic. *)
Example createSourcesSummary_below_tie :
  match createSourcesSummary [sample "A" "b" (num (3145 # 10000)) None] with
  | [e] =>
      se_score e == num (314 # 10)
      /\ roundDecimal (num (3145 # 10000) * 100) 1 == 315 # 10
  | _ => False
  end.
Proof. vm_compute. repeat split. Qed.

(** ** The recommendation of the comparison route *)

Lemma confidence_evaluate (results : list SearchResult) :
  exists q,
    quality (evaluateContextQuality results) = q
    /\ confidence (evaluateContextQuality results)
       = match q with
         | high => num (9 # 10)
         | medium => num (6 # 10)
         | low => num (3 # 10)
         | none => 0
         end.
Proof.
  destruct results as [|r rest]; [exists none; split; reflexivity|].
  destruct (evaluateContextQuality_policy (r :: rest) ltac:(discriminate))
    as (mx & _ & Hq & Hc).
  eexists. split; [exact Hq | exact Hc].
Qed.

(** X14. On the assessment that [evaluateContextQuality] returns,
    [getRecommendation] is decided by the tier alone: [high] recommends the
    RAG answer, [medium] recommends comparing, [low] and [none] recommend
    the answer without RAG, as does a missing assessment; the fourth
    message, for similar results, is never returned. *)
Theorem getRecommendation_of_evaluation (results : list SearchResult) :
  let qa := evaluateContextQuality results in
  getRecommendation (Some qa)
  = match quality qa with
    | high => recommendRAG
    | medium => recommendCompare
    | low | none => recommendNoRAG
    end
  /\ getRecommendation (Some qa) <> recommendEither
  /\ getRecommendation None = recommendNoRAG.
Proof.
  cbv zeta.
  assert (H : getRecommendation (Some (evaluateContextQuality results))
              = match quality (evaluateContextQuality results) with
                | high => recommendRAG
                | medium => recommendCompare
                | low | none => recommendNoRAG
                end).
  { destruct (confidence_evaluate results) as (q & Hq & Hc).
    unfold getRecommendation, qualityIs. cbv zeta. rewrite Hc, Hq.
    destruct q; vm_compute; reflexivity. }
  split; [exact H|]. split; [|vm_compute; reflexivity].
  rewrite H. destruct (quality _); lit_neq.
Qed.

(** ** Case of the query *)






(** ** Errors of the retrieval *)

Lemma dotFrom_sym (acc : number) (v1 v2 : list number) :
  length v1 = length v2 -> dotFrom acc v1 v2 = dotFrom acc v2 v1.
Proof.
  revert v2 acc. induction v1 as [|a v1 IH]; intros [|b v2] acc Hlen;
    try discriminate; cbn [dotFrom]; [reflexivity|].
  replace (b ⊗ a) with (a ⊗ b) by (apply fl_comp; ring).
  apply IH. simpl in Hlen. congruence.
Qed.

(** X16. [cosineSimilarity] is symmetric: with the arguments exchanged it
    returns the same number, or throws the same error. *)
Theorem cosineSimilarity_symmetric (vec1 vec2 : list number) :
  match cosineSimilarity vec1 vec2, cosineSimilarity vec2 vec1 with
  | Return x, Return y => x == y
  | Throw e1, Throw e2 => e1 = e2
  | _, _ => False
  end.
Proof.
  unfold cosineSimilarity. rewrite (Nat.eqb_sym (length vec2)).
  destruct (length vec1 =? length vec2)%nat eqn:E; cbn [negb];
    [|reflexivity].
  apply Nat.eqb_eq in E.
  rewrite !dotLoop_dotProduct by congruence.
  rewrite (dotFrom_sym 0 vec1 vec2 E). reflexivity.
Qed.

Lemma mapM_toSearchResult_throws (q : list number)
    (items : list EmbeddedItem) :
  Exists (fun item => length (embedding item) <> length q) items ->
  mapM (toSearchResult q) items
  = Throw (Error (lit "Векторы должны иметь одинаковую размерность")).
Proof.
  induction items as [|item items IH]; intros H; [inversion H|].
  cbn [mapM].
  destruct (toSearchResult q item) as [r|e] eqn:Et.
  - unfold toSearchResult, cosineSimilarity in Et.
    destruct (length q =? length (embedding item))%nat eqn:E;
      cbn [negb] in Et; [|discriminate].
    apply Nat.eqb_eq in E.
    inversion H as [? ? Hbad|? ? Hrest]; subst; [congruence|].
    cbn [mbind completion_bind]. now rewrite (IH Hrest).
  - unfold toSearchResult, cosineSimilarity in Et.
    destruct (length q =? length (embedding item))%nat;
      cbn [negb] in Et; [discriminate|].
    cbn [mbind completion_bind] in *. congruence.
Qed.

(** X17. [findMostSimilar] throws exactly when some embedding of the
    corpus has another dimension than the query vector, whatever [topK] is,
    and then with the error of [cosineSimilarity]; on an empty corpus it
    returns the empty list. *)
Theorem findMostSimilar_throws (queryEmbedding : list number)
    (items : list EmbeddedItem) (topK : Z) :
  ((exists e, findMostSimilar queryEmbedding items topK = Throw e)
   <-> Exists (fun item => length (embedding item) <> length queryEmbedding)
              items)
  /\ (forall e, findMostSimilar queryEmbedding items topK = Throw e ->
                e = Error (lit "Векторы должны иметь одинаковую размерность"))
  /\ findMostSimilar queryEmbedding [] topK = Return [].
Proof.
  assert (Hdec : Exists (fun item => length (embedding item)
                                     <> length queryEmbedding) items
                 \/ Forall (fun item => length (embedding item)
                                        = length queryEmbedding) items).
  { induction items as [|item items [IH|IH]].
    - right. constructor.
    - left. now constructor 2.
    - destruct (Nat.eq_dec (length (embedding item)) (length queryEmbedding)).
      + right. now constructor.
      + left. now constructor. }
  unfold findMostSimilar. split; [|split].
  - destruct Hdec as [Hbad|Hok].
    + rewrite (mapM_toSearchResult_throws _ _ Hbad).
      split; [intros _; exact Hbad | intros _; eexists; reflexivity].
    + destruct (mapM_toSearchResult _ _ Hok) as (scored & -> & _).
      split; [intros [e He]; discriminate|].
      intros Hbad. exfalso. apply List.Exists_exists in Hbad.
      destruct Hbad as (item & Hin & Hne).
      rewrite List.Forall_forall in Hok. now apply Hne, Hok.
  - intros e. destruct Hdec as [Hbad|Hok].
    + rewrite (mapM_toSearchResult_throws _ _ Hbad).
      intros H. now injection H as <-.
    + destruct (mapM_toSearchResult _ _ Hok) as (scored & -> & _).
      discriminate.
  - destruct topK; reflexivity.
Qed.

(** ** Reranking statistics *)

Lemma roundedMean_spec (xs : list number) (f : nat) :
  (0 < f)%nat ->
  (roundedMean xs f = None <-> xs = [])
  /\ (forall v, roundedMean xs f = Some v ->
                v = roundFixed (floatMean xs) f).
Proof.
  intros Hf. unfold roundedMean.
  destruct (length xs =? 0)%nat eqn:E.
  - apply Nat.eqb_eq in E. apply length_zero_iff_nil in E.
    split; [tauto | discriminate].
  - apply Nat.eqb_neq in E.
    split; [split; [discriminate | intros ->; now elim E]|].
    intros v Hv. injection Hv as <-.
    now rewrite parseFloat_toFixed by exact Hf.
Qed.

(** X18. In the statistics of [createRerankingStats] the average score
    improvement is [NaN] exactly when no reranked result is left, which is
    what the chat route passes when the quality filter drops every result;
    otherwise it is the mean of the improvements, computed in double
    arithmetic and rounded to four decimals.  [filtered_count] and the
    number of reranked results add up to the number of original results. *)
Theorem createRerankingStats_average (originalResults : list SearchResult)
    (rerankedResults : list RankedResult) (rerankTimeMs : number)
    (config : RerankerConfig) :
  let stats :=
    createRerankingStats originalResults rerankedResults rerankTimeMs config
  in
  (avg_score_improvement stats = None <-> rerankedResults = [])
  /\ (forall v,
        avg_score_improvement stats = Some v ->
        v == roundFixed
               (floatMean (List.map (scoreImprovement originalResults)
                                    rerankedResults)) 4)
  /\ (filtered_count stats + Z.of_nat (length rerankedResults))%Z
     = Z.of_nat (length originalResults)
  /\ length (original_results stats) = length originalResults
  /\ length (reranked_results stats) = length rerankedResults.
Proof.
  cbv zeta. unfold createRerankingStats. cbv zeta.
  cbn [avg_score_improvement filtered_count original_results
       reranked_results].
  destruct (roundedMean_spec
              (List.map (scoreImprovement originalResults) rerankedResults)
              4 ltac:(lia)) as [Hnone Hsome].
  split.
  - rewrite Hnone. split; [|intros ->; reflexivity].
    intros H. now apply List.map_eq_nil in H.
  - split; [intros v Hv; now rewrite (Hsome v Hv)|]. split; [lia|].
    unfold mapi. now rewrite !length_mapi_from.
Qed.

(** The improvements [0.372 - 0.349] and [0.3957 - 0.9078] have the
    computed mean [-0.24454999999999996], shown as [-0.2445], where the
    exact mean of the scores' values would be rounded to [-0.2446]. *)
Example createRerankingStats_below_tie :
  let originals :=
    [sample "A" "a" (num (349 # 1000)) None;
     sample "B" "b" (num (9078 # 10000)) None] in
  let ranked (r : SearchResult) (s : number) (i : Z) :=
    {| result := r; rerank_score := s; rerank_method := lit "hybrid";
       original_rank := i; boost_reason := None |} in
  let reranked :=
    [ranked (sample "A" "a" (num (349 # 1000)) None) (num (372 # 1000)) 1%Z;
     ranked (sample "B" "b" (num (9078 # 10000)) None) (num (3957 # 10000))
            2%Z] in
  match avg_score_improvement
          (createRerankingStats originals reranked 0
             DEFAULT_RERANKER_CONFIG) with
  | Some v =>
      v == num (-2445 # 10000)
      /\ roundDecimal
           (((num (372 # 1000) - num (349 # 1000))
             + (num (3957 # 10000) - num (9078 # 10000))) / 2) 4
         == -2446 # 10000
  | None => False
  end.
Proof. vm_compute. repeat split. Qed.

(** X19. The classification depends on the order of the results, because
    the scores are added from the left in double arithmetic: the scores
    [0.8, 0.4, 0.3] add up to [1.5000000000000002] and are classified
    [high]; in the order [0.8, 0.3, 0.4] they add up to [1.5] and are
    classified [medium]. *)
Theorem evaluateContextQuality_order_dependent :
  let l1 :=
    [sample "A" "a" (num (8 # 10)) None;
     sample "B" "b" (num (4 # 10)) None;
     sample "C" "c" (num (3 # 10)) None] in
  let l2 :=
    [sample "A" "a" (num (8 # 10)) None;
     sample "C" "c" (num (3 # 10)) None;
     sample "B" "b" (num (4 # 10)) None] in
  Permutation l1 l2
  /\ num (15 # 10) < floatSum (List.map score l1)
  /\ floatSum (List.map score l2) == num (15 # 10)
  /\ quality (evaluateContextQuality l1) = high
  /\ quality (evaluateContextQuality l2) = medium.
Proof.
  cbv zeta. split; [apply perm_skip, perm_swap|].
  split; [vm_compute; reflexivity|].
  split; vm_compute; [reflexivity|]. split; reflexivity.
Qed.

(** X20. The selection loop of [prepareContextWithLimit] is greedy: it
    accepts a prefix of the input, whole items only; when it accepts
    anything the tagged blocks of the accepted items fit the budget; the
    first item left out is one whose block would exceed it; and a budget
    that covers every block accepts every item. *)
Theorem selectResults_greedy (maxChars : number) (results : list chunk) :
  let selected := selectResults maxChars 0 results in
  (exists rest,
     results = selected ++ rest
     /\ match rest with
        | [] => True
        | c :: _ => ~ inject_Z (blocks selected + blockLen c) <= maxChars
        end)
  /\ (selected <> [] -> inject_Z (blocks selected) <= maxChars)
  /\ (inject_Z (blocks results) <= maxChars -> selected = results).
Proof.
  exact (selectResults_from maxChars 0 results).
Qed.

(** ** Analysis of an unchanged ranking *)

Lemma sum_zero (xs : list number) :
  Forall (fun x => x == 0) xs -> fold_left (fun a b => a ⊕ b) xs 0 = 0.
Proof.
  induction 1 as [|x xs Hx _ IH]; [reflexivity|].
  cbn [fold_left]. replace (0 ⊕ x) with 0; [exact IH|].
  symmetry. apply fl_zero. rewrite Hx. ring.
Qed.

Lemma mean_zero (xs : list number) :
  Forall (fun x => x == 0) xs ->
  fold_left (fun a b => a ⊕ b) xs 0 ⊘ ofNat (length xs) = 0.
Proof.
  intros H. rewrite (sum_zero _ H). apply fl_zero. unfold Qdiv. ring.
Qed.

Section Unchanged.
Variable searchResults : list SearchResult.
Hypothesis distinct : List.NoDup (List.map id searchResults).

Lemma findIndexFrom_distinct (pre suf : list SearchResult)
    (r : SearchResult) (j : Z) :
  List.NoDup (List.map id (pre ++ r :: suf)) ->
  findIndexFrom (fun x => streq (id x) (id r)) j (pre ++ r :: suf)
  = (j + Z.of_nat (length pre))%Z.
Proof.
  revert j. induction pre as [|x pre IH]; intros j Hnd; cbn [app findIndexFrom].
  - rewrite streq_true by reflexivity. cbn [length]. lia.
  - cbn [app List.map] in Hnd. inversion Hnd as [|? ? Hx Hnd']; subst.
    rewrite streq_false.
    + rewrite IH by exact Hnd'. cbn [length]. lia.
    + intros E. apply Hx. rewrite E, List.map_app. apply in_or_app.
      right. now left.
Qed.

Lemma find_distinct (pre suf : list SearchResult) (r : SearchResult) :
  List.NoDup (List.map id (pre ++ r :: suf)) ->
  List.find (fun x => streq (id x) (id r)) (pre ++ r :: suf) = Some r.
Proof.
  induction pre as [|x pre IH]; intros Hnd; cbn [app List.find].
  - now rewrite streq_true.
  - cbn [app List.map] in Hnd. inversion Hnd as [|? ? Hx Hnd']; subst.
    rewrite streq_false; [now apply IH|].
    intros E. apply Hx. rewrite E, List.map_app. apply in_or_app.
    right. now left.
Qed.

Lemma unchanged_from (pre suf : list SearchResult) :
  searchResults = pre ++ suf ->
  Forall (fun x => x == 0)
         (positionChangesFrom searchResults (Z.of_nat (length pre))
            (mapi_from noneResult (Z.of_nat (length pre)) suf))
  /\ Forall (fun x => x == 0)
            (List.map (scoreImprovement searchResults)
                      (mapi_from noneResult (Z.of_nat (length pre)) suf)).
Proof using distinct.
  revert pre. induction suf as [|r suf IH]; intros pre Heq.
  - split; constructor.
  - assert (Heq' : searchResults = (pre ++ [r]) ++ suf)
      by (now rewrite <- app_assoc).
    destruct (IH _ Heq') as [IH1 IH2].
    rewrite length_app, Nat2Z.inj_add in IH1, IH2. cbn [length] in IH1, IH2.
    pose proof distinct as Hnd. rewrite Heq in Hnd.
    assert (Hfi : findIndex (fun x => streq (id x) (id r)) searchResults
                  = Z.of_nat (length pre))
      by (unfold findIndex; rewrite Heq, findIndexFrom_distinct by exact Hnd;
          lia).
    assert (Hfd : List.find (fun x => streq (id x) (id r)) searchResults
                  = Some r)
      by (rewrite Heq; now apply find_distinct).
    cbn [mapi_from positionChangesFrom List.map]. split.
    + cbn [result noneResult]. rewrite Hfi.
      replace (0 <=? Z.of_nat (length pre))%Z with true
        by (symmetry; apply Z.leb_le; lia).
      rewrite Z.sub_diag. cbn [app Z.abs]. constructor; [reflexivity|].
      exact IH1.
    + constructor; [|exact IH2].
      unfold scoreImprovement. cbn [result noneResult rerank_score].
      rewrite Hfd. unfold fsub. rewrite (fl_zero (score r - score r));
        [reflexivity | ring].
Qed.
End Unchanged.

(** X21. For a list with distinct ids and its ['none'] ranking, which
    changes nothing, [analyzeRankingQuality] reports no change: the top
    result is the same, the average position change is 0 and the
    improvement is 0; for the empty list the improvement is [NaN]. *)
Theorem analyzeRankingQuality_unchanged (searchResults : list SearchResult) :
  List.NoDup (List.map id searchResults) ->
  let q :=
    analyzeRankingQuality searchResults (mapi noneResult searchResults) in
  top_changed q = false
  /\ avg_position_change q == 0
  /\ (searchResults = [] -> improvement q = None)
  /\ (searchResults <> [] -> exists v, improvement q = Some v /\ v == 0).
Proof.
  intros Hnd. cbv zeta. unfold analyzeRankingQuality. cbv zeta.
  cbn [top_changed avg_position_change improvement].
  destruct (unchanged_from searchResults Hnd [] searchResults eq_refl)
    as [Hpos Himp].
  change (Z.of_nat (length (@nil SearchResult))) with 0%Z in Hpos, Himp.
  unfold mapi.
  split; [|split; [|split]].
  - rewrite bool_decide_eq_true_2; [reflexivity|].
    destruct searchResults; reflexivity.
  - rewrite parseFloat_toFixed by lia.
    rewrite (roundFixed_ext _ 0); [vm_compute; reflexivity|].
    destruct (0 <? length _)%nat; [|reflexivity].
    now rewrite (mean_zero _ Hpos).
  - intros ->. reflexivity.
  - intros Hne.
    destruct (roundedMean_spec
                (List.map (scoreImprovement searchResults)
                          (mapi_from noneResult 0 searchResults)) 4
                ltac:(lia))
      as [Hnone Hsome].
    destruct (roundedMean _ 4) as [v|] eqn:E.
    + exists v. split; [reflexivity|].
      rewrite (Hsome v eq_refl). unfold floatMean, floatSum.
      change (fold_left fadd) with (fold_left (fun a b => a ⊕ b)).
      rewrite (mean_zero _ Himp). exact roundFixed_0.
    + exfalso. clear E. pose proof (proj1 Hnone eq_refl) as E.
      apply List.map_eq_nil in E.
      apply (f_equal (@length _)) in E.
      rewrite length_mapi_from in E.
      destruct searchResults; [congruence | discriminate].
Qed.

Lemma analyzeRankingQuality_unchanged_witness :
  let rs :=
    [sample "A" "7" (1 # 2) None; sample "B" "cat" (num (9 # 10)) None] in
  let q := analyzeRankingQuality rs (mapi noneResult rs) in
  top_changed q = false
  /\ avg_position_change q == 0
  /\ (rs = [] -> improvement q = None)
  /\ (rs <> [] -> exists v, improvement q = Some v /\ v == 0).
Proof.
  apply (analyzeRankingQuality_unchanged
           [sample "A" "7" (1 # 2) None; sample "B" "cat" (num (9 # 10)) None]).
  repeat constructor; cbn; intros H;
    repeat destruct H as [H|H]; try discriminate H; exact H.
Defined.

(** ** Truncation *)

Lemma slice0_prefix {A} (l : list A) (e : Z) :
  exists rest,
    l = slice0 l e ++ rest
    /\ Z.of_nat (length (slice0 l e))
       = (if (e <? 0)%Z then Z.max (Z.of_nat (length l) + e) 0
          else Z.min e (Z.of_nat (length l))).
Proof.
  unfold slice0. cbv zeta.
  set (final := if (e <? 0)%Z then Z.max (Z.of_nat (length l) + e) 0
                else Z.min e (Z.of_nat (length l))).
  exists (skipn (Z.to_nat final) l).
  split; [now rewrite firstn_skipn|].
  rewrite length_firstn. subst final. destruct (e <? 0)%Z eqn:E.
  - apply Z.ltb_lt in E. lia.
  - apply Z.ltb_ge in E. lia.
Qed.

(** X22. [getTopRanked] returns the head of the results that pass the
    optional threshold: [min(topK, n)] of the [n] passing results for
    [topK >= 0], and, as [slice] counts a negative end from the back, all
    but the last [-topK] of them for [topK < 0]. *)
Theorem getTopRanked_head (results : list RankedResult) (topK : Z)
    (minScore : option number) :
  let passing :=
    match minScore with
    | Some m => filterByQuality results m
    | None => results
    end in
  exists rest,
    passing = getTopRanked results topK minScore ++ rest
    /\ Z.of_nat (length (getTopRanked results topK minScore))
       = (if (topK <? 0)%Z
          then Z.max (Z.of_nat (length passing) + topK) 0
          else Z.min topK (Z.of_nat (length passing)))
    /\ match minScore with
       | Some m =>
           Forall (fun r => m <= rerank_score r)
                  (getTopRanked results topK minScore)
       | None => True
       end.
Proof.
  cbv zeta. unfold getTopRanked, filterByQuality. cbv zeta.
  destruct minScore as [m|].
  - destruct (slice0_prefix
                (List.filter (fun r => Qle_bool m (rerank_score r)) results)
                topK) as (rest & Hr & Hl).
    exists rest. split; [exact Hr|]. split; [exact Hl|].
    pose proof (Forall_filter_atLeast rerank_score m results) as Hf.
    unfold atLeast in Hf. rewrite Hr in Hf. apply Forall_app in Hf. tauto.
  - destruct (slice0_prefix results topK) as (rest & Hr & Hl).
    exists rest. tauto.
Qed.

(** ** Explanation of the semantic boost *)

Lemma Qltb_nonpos (x : number) : 0 <= x -> Qltb 0 x = false -> x == 0.
Proof. intros H0 H. apply Qltb_ge in H. lra. Qed.

(** X23. A semantic result without [boost_reason] has received no boost:
    its [rerank_score] is its score, clamped at 1 and rounded to four
    decimals.  The score is taken as the double that it is: every
    JavaScript number is one. *)
Theorem rerankBySemantic_no_reason (query : jsstring)
    (results : list SearchResult) :
  Forall
    (fun r =>
       boost_reason r = None ->
       rerank_score r == roundFixed (Math_min (fl (score (result r))) 1) 4
       /\ (isDouble (score (result r)) ->
           rerank_score r == roundFixed (Math_min (score (result r)) 1) 4))
    (rerankBySemantic query results).
Proof.
  unfold rerankBySemantic, mapi.
  apply Forall_sort, Forall_mapi_from. intros r j.
  destruct (semanticResult_score query r j)
    as (pb0 & lb0 & db0 & mb0 & _ & _ & _ & _ & Hscore).
  clear Hscore pb0 lb0 db0 mb0.
  unfold semanticResult. cbv zeta.
  cbn [boost_reason rerank_score result].
  match goal with
  | |- context [Math_min (score r ⊕ ?p ⊕ ?l ⊕ ?d ⊕ ?m) 1] =>
      set (pb := p); set (lb := l); set (db := d); set (mb := m)
  end.
  assert (H1 : 0 <= num (1 # 10)) by (vm_compute; discriminate).
  assert (H5 : 0 <= num (5 # 100)) by (vm_compute; discriminate).
  assert (H15 : 0 <= num (15 # 100)) by (vm_compute; discriminate).
  assert (Hp : 0 <= pb).
  { subst pb. destruct (metadata r) as [m|]; [|lra].
    destruct (position m =? 0)%Z; lra. }
  assert (Hl : 0 <= lb) by (subst lb; destruct (_ && _); lra).
  assert (Hd : 0 <= db) by (subst db; destruct (test _ _); lra).
  assert (Hm : 0 <= mb).
  { subst mb.
    match goal with |- 0 <= Math_min (ofNat ?n ⊗ _) _ => generalize n end.
    intros n.
    pose proof (fmul_nonneg (ofNat n) (num (5 # 100)) (ofNat_nonneg n) H5).
    destruct (Math_min_cases (ofNat n ⊗ num (5 # 100)) (num (15 # 100)))
      as [[-> ?]|[-> ?]]; lra. }
  destruct (Qltb 0 pb) eqn:Ep;
    [cbn [app length Nat.ltb Nat.leb]; discriminate|].
  destruct (Qltb 0 lb) eqn:El;
    [cbn [app length Nat.ltb Nat.leb]; discriminate|].
  destruct (Qltb 0 db) eqn:Ed;
    [cbn [app length Nat.ltb Nat.leb]; discriminate|].
  destruct (Qltb 0 mb) eqn:Em;
    [cbn [app length Nat.ltb Nat.leb]; discriminate|].
  intros _. rewrite parseFloat_toFixed by lia.
  apply Qltb_nonpos in Ep, El, Ed, Em; try assumption.
  assert (Hsum : forall x b, x = fl (score r) -> b == 0 ->
                             x ⊕ b = fl (score r)).
  { intros x b -> Hb. unfold fadd.
    rewrite (fl_comp (fl (score r) + b) (fl (score r)))
      by (rewrite Hb; ring).
    apply fl_idem. }
  assert (E : score r ⊕ pb ⊕ lb ⊕ db ⊕ mb = fl (score r)).
  { do 3 (apply Hsum; [|assumption]).
    apply fl_comp. rewrite Ep. ring. }
  rewrite E. split; [reflexivity|].
  intros Hs. unfold isDouble in Hs.
  rewrite (roundFixed_ext _ (Math_min (score r) 1)); [reflexivity|].
  destruct (Math_min_cases (fl (score r)) 1) as [[-> ?]|[-> ?]],
    (Math_min_cases (score r) 1) as [[-> ?]|[-> ?]]; lra.
Qed.

(** The number [0.00015] lies below the decimal it is written with, and is
    rounded down. *)
Example rerankBySemantic_plain :
  match rerankBySemantic (lit "database")
          [sample "A" "notes" (num (15 # 100000)) None] with
  | [r] =>
      boost_reason r = None
      /\ isDouble (score (result r))
      /\ score (result r) < 15 # 100000
      /\ rerank_score r == num (1 # 10000)
  | _ => False
  end.
Proof. vm_compute. repeat split. Qed.

(** ** Order of the documents *)




